(** * A shallow embedding of [config_parser.py]

    The program turns the text of a small configuration language into a
    Python mapping.  [ConfigParser.parse] runs four stages on one parser
    object: [tokenize], the recursive-descent [parse_*] methods,
    [process_variable_substitution] and [convert_variables].

    Conventions of the embedding.
    - A Python [str] is a [string]; each [ascii] stands for one code point
      in the range U+0000..U+00FF.
    - A Python [dict] is an association list in insertion order: assigning
      to a key that is present keeps its place, a new key goes last.
    - Raising is explicit: every method returns an [outcome].  Methods that
      assign to attributes of [self] return the new attribute values next
      to the result, also when they raise.
    - The library functions the program calls on numbers and inside [str]
      of a list or dict ([float], [str] of a float, [repr] of a string) are
      the fields of the class [Library].
    - The substitution recurses without a bound of its own; its methods
      take the depth of recursion that Python still allows and raise
      [RecursionError] when it is used up. *)

From Stdlib Require Import String Ascii List Bool Arith Lia.
Import ListNotations.
Local Open Scope list_scope.
Local Open Scope string_scope.

(** ** Characters and strings *)

Definition dquote : ascii := ascii_of_nat 34.
Definition newline : ascii := ascii_of_nat 10.
Definition q : string := String dquote "".
Definition nl : string := String newline "".

(** [str.isspace] on one code point below U+0100. *)
Definition isspace (c : ascii) : bool :=
  let n := nat_of_ascii c in
  (((9 <=? n) && (n <=? 13)) || ((28 <=? n) && (n <=? 32))
   || (n =? 133) || (n =? 160))%nat.

(** The class [\d] below U+0100. *)
Definition is_digit (c : ascii) : bool :=
  let n := nat_of_ascii c in ((48 <=? n) && (n <=? 57))%nat.

(** The class [[a-zA-Z]]. *)
Definition is_alpha (c : ascii) : bool :=
  let n := nat_of_ascii c in
  (((65 <=? n) && (n <=? 90)) || ((97 <=? n) && (n <=? 122)))%nat.

(** The class [[_a-zA-Z0-9]]. *)
Definition is_word (c : ascii) : bool :=
  is_alpha c || is_digit c || Ascii.eqb c "_".

(** [s.startswith(p)], used for the slices [text[i:i + k] == p]. *)
Fixpoint starts_with (p s : string) : bool :=
  match p, s with
  | "", _ => true
  | String a p', String b s' => Ascii.eqb a b && starts_with p' s'
  | String _ _, "" => false
  end.

(** [s[n:]] *)
Fixpoint drop (n : nat) (s : string) : string :=
  match n, s with
  | 0, _ => s
  | S n', String _ s' => drop n' s'
  | S _, "" => ""
  end.

(** [s[:n]] *)
Fixpoint take (n : nat) (s : string) : string :=
  match n, s with
  | 0, _ => ""
  | S n', String c s' => String c (take n' s')
  | S _, "" => ""
  end.

(** [s.find(sub)] counted from the start of [s]; [None] is Python's -1. *)
Fixpoint find (sub s : string) : option nat :=
  if starts_with sub s then Some 0
  else match s with
       | "" => None
       | String _ s' => option_map S (find sub s')
       end.

(** [c in s] for a single character. *)
Fixpoint contains (c : ascii) (s : string) : bool :=
  match s with
  | "" => false
  | String a s' => Ascii.eqb a c || contains c s'
  end.

(** The longest prefix of characters in a class, and what follows it. *)
Fixpoint span (p : ascii -> bool) (s : string) : string * string :=
  match s with
  | "" => ("", "")
  | String c s' =>
      if p c then let (a, b) := span p s' in (String c a, b) else ("", s)
  end.

Fixpoint all_chars (p : ascii -> bool) (s : string) : bool :=
  match s with
  | "" => true
  | String c s' => p c && all_chars p s'
  end.

(** [sep.join(l)] *)
Fixpoint join (sep : string) (l : list string) : string :=
  match l with
  | [] => ""
  | [x] => x
  | x :: rest => x ++ sep ++ join sep rest
  end.

(** [s.replace(old, new)] for a non-empty [old]: occurrences are taken
    from left to right and do not overlap.  [skip] counts the characters
    of an occurrence that are still to be passed over. *)
Fixpoint replace_from (skip : nat) (old new s : string) : string :=
  match s with
  | "" => ""
  | String c s' =>
      match skip with
      | S k => replace_from k old new s'
      | 0 =>
          if starts_with old s
          then new ++ replace_from (String.length old - 1) old new s'
          else String c (replace_from 0 old new s')
      end
  end.

Definition replace (old new s : string) : string := replace_from 0 old new s.

(** ** Regular expressions of the program *)

(** [re.match(r'[+-]?\d+\.\d+', s)]: the matched text, if any.  The sign is
    optional, both digit runs are greedy and non-empty, so the match is
    unique. *)
Definition match_number (s : string) : option string :=
  let (sign, s1) :=
    match s with
    | String c s' =>
        if Ascii.eqb c "+" || Ascii.eqb c "-" then (String c "", s') else ("", s)
    | "" => ("", s)
    end in
  let (int_part, s2) := span is_digit s1 in
  match int_part, s2 with
  | String _ _, String dot s3 =>
      if Ascii.eqb dot "." then
        let (frac, _) := span is_digit s3 in
        match frac with
        | String _ _ => Some (sign ++ int_part ++ "." ++ frac)
        | "" => None
        end
      else None
  | _, _ => None
  end.

(** [re.match(r'[a-zA-Z][_a-zA-Z0-9]*', s)]: the matched text, if any. *)
Definition match_identifier (s : string) : option string :=
  match s with
  | String c s' =>
      if is_alpha c then Some (String c (fst (span is_word s'))) else None
  | "" => None
  end.

(** [re.match(r'^[a-zA-Z][_a-zA-Z0-9]*$', s)]: in Python [$] matches at the
    end of the string and also just before a final newline. *)
Definition full_identifier (s : string) : bool :=
  match s with
  | String c s' =>
      is_alpha c &&
      (let (_, rest) := span is_word s' in
       match rest with
       | "" => true
       | String c' "" => Ascii.eqb c' newline
       | _ => false
       end)
  | "" => false
  end.

(** [re.findall(r'\$([^$\n]+?)\$', s)]: the captured names, left to right.
    A match starts at a dollar, takes the run of characters that are
    neither a dollar nor a newline, which must be non-empty, and needs a
    dollar right after it; the search resumes behind that dollar. *)
Definition name_char (c : ascii) : bool :=
  negb (Ascii.eqb c "$") && negb (Ascii.eqb c newline).

Fixpoint findall_from (skip : nat) (s : string) : list string :=
  match s with
  | "" => []
  | String c s' =>
      match skip with
      | S k => findall_from k s'
      | 0 =>
          if Ascii.eqb c "$" then
            let (name, rest) := span name_char s' in
            match name, rest with
            | String _ _, String _ _ =>
                (* [rest] can only start with a dollar or a newline *)
                if starts_with "$" rest
                then name :: findall_from (S (String.length name)) s'
                else findall_from 0 s'
            | _, _ => findall_from 0 s'
            end
          else findall_from 0 s'
      end
  end.

Definition findall (s : string) : list string := findall_from 0 s.


(** ** Python dictionaries *)

Section Dict.
Context {V : Type}.

Definition dict := list (string * V).

(** [key in d] and [d[key]] *)
Fixpoint dict_get (key : string) (d : dict) : option V :=
  match d with
  | [] => None
  | (k, v) :: rest => if String.eqb k key then Some v else dict_get key rest
  end.

(** [d[key] = v] *)
Fixpoint dict_set (key : string) (v : V) (d : dict) : dict :=
  match d with
  | [] => [(key, v)]
  | (k, w) :: rest =>
      if String.eqb k key then (k, v) :: rest
      else (k, w) :: dict_set key v rest
  end.

(** The dict built by assigning the pairs in order. *)
Definition dict_of_items (l : list (string * V)) : dict :=
  fold_left (fun d kv => dict_set (fst kv) (snd kv) d) l [].

Definition dict_keys (d : dict) : list string := map fst d.
End Dict.

Arguments dict V : clear implicits.

(** ** Library functions *)

(** The type of Python floats with the three library functions the program
    applies: [float(s)] to a text that matches the number pattern, [str(x)]
    to a float, and [repr(s)] to a string (inside [str] of a list or of a
    dict). *)
Class Library : Type := {
  float_t : Type;
  py_float : string -> float_t;
  py_str : float_t -> string;
  py_repr : string -> string
}.

(** ** Tokens, exceptions and values *)

Section Program.

Context {lib : Library}.

(** A token is the tuple [(type, value, line)].  For a number the type
    is ['NUMBER'] and the value a float.  For every other token the value
    is a string and the type is one of ['STRING'], ['ID'], ['VAR'],
    ['LIST'], ['TABLE'] or the punctuation character itself. *)
Inductive token_type : Type :=
| STRING | ID | VAR | LIST | TABLE
| PUNCT (c : ascii).

Inductive token : Type :=
| NumberTok (value : float_t) (line : nat)
| Tok (type : token_type) (value : string) (line : nat).

(** [t[2]] *)
Definition tok_line (t : token) : nat :=
  match t with
  | NumberTok _ line => line
  | Tok _ _ line => line
  end.

(** [t[1] == s] for a string [s]: a float is never equal to a string. *)
Definition value_is (t : token) (s : string) : bool :=
  match t with
  | Tok _ value _ => String.eqb value s
  | NumberTok _ _ => false
  end.

(** The messages of the [SyntaxError]s the program raises, each with the
    values its format string interpolates. *)
Inductive syntax_msg : Type :=
| UnterminatedString (line : nat)
| UnknownCharacter (c : ascii) (line : nat)
| ExpectedVarName (line : nat)
| ExpectedEquals (line : nat)
| ExpectedSemicolon (line : nat)
| ExpectedValue
| UnexpectedToken (t : token)
| ExpectedOpenAfterList (line : nat)
| ExpectedCommaOrClose (line : nat)
| ExpectedClose (line : nat)
| ExpectedOpenAfterTable (line : nat)
| ExpectedOpenBracket (line : nat)
| ExpectedKeyName (line : nat)
| ExpectedEqualsAfterKey (key : string) (line : nat)
| ExpectedCommaOrCloseBracket (line : nat)
| ExpectedCloseBracket (line : nat)
| ExpectedNameAfterDollar (line : nat)
| NestedReferenceToken (line : nat)
| ExpectedDollar (line : nat)
| NestedReference (name : string)
| BadVariableName (name : string).

Inductive exn : Type :=
| SyntaxError (m : syntax_msg)
| NameError (name : string)
| IndexError
| RecursionError.

(** [Timeout] is the embedding's own: a loop of the lexer or of the
    parser was cut off by its step bound.  [parse] gives bounds that are
    never reached ([parse_ends_properly]). *)
Inductive outcome (A : Type) : Type :=
| Ok (a : A)
| Raise (e : exn)
| Timeout.
Arguments Ok {A} a.
Arguments Raise {A} e.
Arguments Timeout {A}.

Definition bind {A B : Type} (r : outcome A) (k : A -> outcome B) : outcome B :=
  match r with
  | Ok a => k a
  | Raise e => Raise e
  | Timeout => Timeout
  end.

(** A comprehension [[f(x) for x in l]]: the first exception ends it. *)
Fixpoint map_result {A B : Type} (f : A -> outcome B) (l : list A)
  : outcome (list B) :=
  match l with
  | [] => Ok []
  | x :: rest =>
      bind (f x) (fun y => bind (map_result f rest) (fun ys => Ok (y :: ys)))
  end.

(** ** The value classes *)

#[warnings="-register-all"]
Inductive ConfigValue : Type :=
| NumberValue (value : float_t)
| StringValue (value : string) (has_vars : bool)
| ListValue (values : list ConfigValue)
| TableValue (items : list (string * ConfigValue))
| VarRefValue (name : string).

(** ** [ConfigParser.tokenize] *)

(** [token_value.upper() if token_value in ['var', 'list', 'table'] else
    'ID'] *)
Definition word_type (token_value : string) : token_type :=
  if String.eqb token_value "var" then VAR
  else if String.eqb token_value "list" then LIST
  else if String.eqb token_value "table" then TABLE
  else ID.

(** One iteration of the loop [while i < n], on the rest [text[i:]] of
    the input: either the loop goes on with a new rest, line counter and
    token list, or it ends, by [break], by [raise] or because [i < n]
    fails. *)
Inductive lex_step : Type :=
| Continue (text : string) (current_line : nat) (tokens : list token)
| Stop (r : outcome (list token)) (current_line : nat).

Definition tokenize_step (text : string) (current_line : nat)
    (tokens : list token) : lex_step :=
  match text with
  | "" => Stop (Ok tokens) current_line
  | String c rest =>
      if isspace c then
        Continue rest
          (if Ascii.eqb c newline then S current_line else current_line)
          tokens
      else if starts_with "::" text then
        match find nl text with
        | None => Stop (Ok tokens) current_line
        | Some k => Continue (drop k text) current_line tokens
        end
      else if starts_with "{{!" text then
        match find "!}}" text with
        | None => Stop (Ok tokens) current_line
        | Some k => Continue (drop (k + 3) text) current_line tokens
        end
      else
        match match_number text with
        | Some num =>
            Continue (drop (String.length num) text) current_line
              (tokens ++ [NumberTok (py_float num) current_line])%list
        | None =>
            if starts_with ("@" ++ q) text then
              match find q (drop 2 text) with
              | None =>
                  Stop (Raise (SyntaxError (UnterminatedString current_line)))
                    current_line
              | Some e =>
                  let str_value := take e (drop 2 text) in
                  Continue (drop (e + 1) (drop 2 text)) current_line
                    (tokens ++ [Tok STRING str_value current_line])%list
              end
            else
              match match_identifier text with
              | Some token_value =>
                  let token_type := word_type token_value in
                  Continue (drop (String.length token_value) text)
                    current_line
                    (tokens ++ [Tok token_type token_value current_line])%list
              | None =>
                  if contains c "()[],=$;" then
                    Continue rest current_line
                      (tokens ++ [Tok (PUNCT c) (String c "") current_line])%list
                  else
                    Stop (Raise (SyntaxError (UnknownCharacter c current_line)))
                      current_line
              end
        end
  end.

(** The loop itself.  It returns the tokens, or the exception, together
    with [self.current_line].  [steps] bounds the number of iterations. *)
Fixpoint tokenize_loop (steps : nat) (text : string) (current_line : nat)
    (tokens : list token) {struct steps} : outcome (list token) * nat :=
  match steps with
  | 0 => (Timeout, current_line)
  | S steps' =>
      match tokenize_step text current_line tokens with
      | Continue text' line' tokens' =>
          tokenize_loop steps' text' line' tokens'
      | Stop r line' => (r, line')
      end
  end.

Definition tokenize (current_line : nat) (text : string)
  : outcome (list token) * nat :=
  tokenize_loop (S (String.length text)) text current_line [].

(** ** The parser *)

(** [self.pos < len(self.tokens) and self.tokens[self.pos][1] == s] *)
Definition value_at (tokens : list token) (pos : nat) (s : string) : bool :=
  match nth_error tokens pos with
  | Some t => value_is t s
  | None => false
  end.

(** [self.pos < len(self.tokens) and self.tokens[self.pos][1] != s] *)
Definition other_at (tokens : list token) (pos : nat) (s : string) : bool :=
  match nth_error tokens pos with
  | Some t => negb (value_is t s)
  | None => false
  end.

(** [raise SyntaxError(f'... {self.tokens[i][2]}')]: building the message
    reads the line of token [i], which raises [IndexError] when [i] is
    out of range.  At every use [i] is [self.pos] or [self.pos - 1] with
    [self.pos >= 1]. *)
Definition raise_at {A : Type} (tokens : list token) (i : nat)
    (msg : nat -> syntax_msg) : outcome A :=
  match nth_error tokens i with
  | Some t => Raise (SyntaxError (msg (tok_line t)))
  | None => Raise IndexError
  end.

(** [parse_var_reference].  The parsing methods take [self.pos] and
    return its final value with the result. *)
Definition parse_var_reference (tokens : list token) (pos : nat)
  : outcome ConfigValue * nat :=
  let pos := S pos in
  match nth_error tokens pos with
  | Some (Tok ID var_name _) =>
      let pos := S pos in
      if value_at tokens pos "." then
        (raise_at tokens pos NestedReferenceToken, pos)
      else if negb (value_at tokens pos "$") then
        (raise_at tokens (pos - 1) ExpectedDollar, pos)
      else (Ok (VarRefValue var_name), S pos)
  | _ => (raise_at tokens (pos - 1) ExpectedNameAfterDollar, pos)
  end.

(** [parse_value], [parse_list] and [parse_table] with the [while] loops
    of the latter two.  [depth] bounds the nesting of calls. *)
Fixpoint parse_value (depth : nat) (tokens : list token) (pos : nat)
    {struct depth} : outcome ConfigValue * nat :=
  match depth with
  | 0 => (Timeout, pos)
  | S d =>
      match nth_error tokens pos with
      | None => (Raise (SyntaxError ExpectedValue), pos)
      | Some (NumberTok token_value _) =>
          (Ok (NumberValue token_value), S pos)
      | Some (Tok STRING token_value _) =>
          (Ok (StringValue token_value (contains "$" token_value)), S pos)
      | Some (Tok LIST _ _) => parse_list d tokens pos
      | Some (Tok TABLE _ _) => parse_table d tokens pos
      | Some (Tok (PUNCT c) _ _ as t) =>
          if Ascii.eqb c "$" then parse_var_reference tokens pos
          else (Raise (SyntaxError (UnexpectedToken t)), pos)
      | Some t => (Raise (SyntaxError (UnexpectedToken t)), pos)
      end
  end

with parse_list (depth : nat) (tokens : list token) (pos : nat)
    {struct depth} : outcome ConfigValue * nat :=
  match depth with
  | 0 => (Timeout, pos)
  | S d =>
      let pos := S pos in
      if negb (value_at tokens pos "(") then
        (raise_at tokens (pos - 1) ExpectedOpenAfterList, pos)
      else
        let pos := S pos in
        if value_at tokens pos ")" then (Ok (ListValue []), S pos)
        else
          match parse_list_loop d tokens pos [] with
          | (Ok values, pos) =>
              if negb (value_at tokens pos ")") then
                (raise_at tokens (pos - 1) ExpectedClose, pos)
              else (Ok (ListValue values), S pos)
          | (Raise e, pos) => (Raise e, pos)
          | (Timeout, pos) => (Timeout, pos)
          end
  end

with parse_list_loop (depth : nat) (tokens : list token) (pos : nat)
    (values : list ConfigValue) {struct depth}
    : outcome (list ConfigValue) * nat :=
  match depth with
  | 0 => (Timeout, pos)
  | S d =>
      if other_at tokens pos ")" then
        match parse_value d tokens pos with
        | (Ok value, pos) =>
            let values := (values ++ [value])%list in
            if value_at tokens pos "," then
              parse_list_loop d tokens (S pos) values
            else if other_at tokens pos ")" then
              (raise_at tokens pos ExpectedCommaOrClose, pos)
            else parse_list_loop d tokens pos values
        | (Raise e, pos) => (Raise e, pos)
        | (Timeout, pos) => (Timeout, pos)
        end
      else (Ok values, pos)
  end

with parse_table (depth : nat) (tokens : list token) (pos : nat)
    {struct depth} : outcome ConfigValue * nat :=
  match depth with
  | 0 => (Timeout, pos)
  | S d =>
      let pos := S pos in
      if negb (value_at tokens pos "(") then
        (raise_at tokens (pos - 1) ExpectedOpenAfterTable, pos)
      else
        let pos := S pos in
        if negb (value_at tokens pos "[") then
          (raise_at tokens (pos - 1) ExpectedOpenBracket, pos)
        else
          let pos := S pos in
          if value_at tokens pos "]" then
            (* [self.pos += 1] twice; the second token is not looked at *)
            (Ok (TableValue []), S (S pos))
          else
            match parse_table_loop d tokens pos [] with
            | (Ok items, pos) =>
                if negb (value_at tokens pos "]") then
                  (raise_at tokens (pos - 1) ExpectedCloseBracket, pos)
                else
                  let pos := S pos in
                  if negb (value_at tokens pos ")") then
                    (raise_at tokens (pos - 1) ExpectedClose, pos)
                  else (Ok (TableValue items), S pos)
            | (Raise e, pos) => (Raise e, pos)
            | (Timeout, pos) => (Timeout, pos)
            end
  end

with parse_table_loop (depth : nat) (tokens : list token) (pos : nat)
    (items : dict ConfigValue) {struct depth}
    : outcome (dict ConfigValue) * nat :=
  match depth with
  | 0 => (Timeout, pos)
  | S d =>
      if other_at tokens pos "]" then
        match nth_error tokens pos with
        | Some (Tok ID key _) =>
            let pos := S pos in
            if negb (value_at tokens pos "=") then
              (raise_at tokens (pos - 1) (ExpectedEqualsAfterKey key), pos)
            else
              let pos := S pos in
              match parse_value d tokens pos with
              | (Ok value, pos) =>
                  let items := dict_set key value items in
                  if value_at tokens pos "," then
                    parse_table_loop d tokens (S pos) items
                  else if other_at tokens pos "]" then
                    (raise_at tokens pos ExpectedCommaOrCloseBracket, pos)
                  else parse_table_loop d tokens pos items
              | (Raise e, pos) => (Raise e, pos)
              | (Timeout, pos) => (Timeout, pos)
              end
        | _ => (raise_at tokens (pos - 1) ExpectedKeyName, pos)
        end
      else (Ok items, pos)
  end.

(** [parse_var_declaration]: it assigns to [self.pos] and to
    [self.variables]. *)
Definition parse_var_declaration (depth : nat) (tokens : list token)
    (pos : nat) (variables : dict ConfigValue)
  : outcome unit * nat * dict ConfigValue :=
  let pos := S pos in
  match nth_error tokens pos with
  | Some (Tok ID var_name _) =>
      let pos := S pos in
      if negb (value_at tokens pos "=") then
        (raise_at tokens (pos - 1) ExpectedEquals, pos, variables)
      else
        let pos := S pos in
        match parse_value depth tokens pos with
        | (Ok value, pos) =>
            let variables := dict_set var_name value variables in
            if negb (value_at tokens pos ";") then
              (raise_at tokens (pos - 1) ExpectedSemicolon, pos, variables)
            else (Ok tt, S pos, variables)
        | (Raise e, pos) => (Raise e, pos, variables)
        | (Timeout, pos) => (Timeout, pos, variables)
        end
  | _ => (raise_at tokens (pos - 1) ExpectedVarName, pos, variables)
  end.

(** The loop [while self.pos < len(self.tokens)] of [parse]. *)
Fixpoint parse_loop (steps depth : nat) (tokens : list token) (pos : nat)
    (variables : dict ConfigValue) {struct steps}
  : outcome unit * nat * dict ConfigValue :=
  match steps with
  | 0 => (Timeout, pos, variables)
  | S steps' =>
      match nth_error tokens pos with
      | None => (Ok tt, pos, variables)
      | Some (Tok VAR _ _) =>
          match parse_var_declaration depth tokens pos variables with
          | (Ok _, pos, variables) =>
              parse_loop steps' depth tokens pos variables
          | other => other
          end
      | Some _ => parse_loop steps' depth tokens (S pos) variables
      end
  end.

(** ** Variable substitution *)

(** [str(l)] for a list of strings and [str(d)] for a dict from strings
    to strings. *)
Definition str_of_list (l : list string) : string :=
  "[" ++ join ", " (map py_repr l) ++ "]".

Definition str_of_dict (d : dict string) : string :=
  "{" ++ join ", " (map (fun kv => py_repr (fst kv) ++ ": " ++ py_repr (snd kv)) d)
  ++ "}".

(** [get_string_value].  [depth] is the number of nested calls Python
    still allows; at 0 the call raises [RecursionError]. *)
Fixpoint get_string_value (depth : nat) (variables : dict ConfigValue)
    (value : ConfigValue) {struct depth} : outcome string :=
  match depth with
  | 0 => Raise RecursionError
  | S d =>
      match value with
      | NumberValue x => Ok (py_str x)
      | StringValue s _ => Ok s
      | VarRefValue name =>
          match dict_get name variables with
          | Some v => get_string_value d variables v
          | None => Ok ("$" ++ name ++ "$")
          end
      | ListValue values =>
          bind (map_result (get_string_value d variables) values)
            (fun l => Ok (str_of_list l))
      | TableValue items =>
          bind (map_result
                  (fun kv => bind (get_string_value d variables (snd kv))
                               (fun s => Ok (fst kv, s)))
                  items)
            (fun l => Ok (str_of_dict (dict_of_items l)))
      end
  end.

(** The loop [for var_name in matches] of [substitute_vars_in_value];
    [result] is the string being rewritten. *)
Fixpoint substitute_matches (depth : nat) (variables : dict ConfigValue)
    (matches : list string) (result : string) {struct matches}
  : outcome string :=
  match matches with
  | [] => Ok result
  | var_name :: rest =>
      if contains "." var_name then
        Raise (SyntaxError (NestedReference var_name))
      else if negb (full_identifier var_name) then
        Raise (SyntaxError (BadVariableName var_name))
      else
        match dict_get var_name variables with
        | Some v =>
            bind (get_string_value depth variables v)
              (fun str_value =>
                 substitute_matches depth variables rest
                   (replace ("$" ++ var_name ++ "$") str_value result))
        | None => Raise (NameError var_name)
        end
  end.

(** [substitute_vars_in_value], with the same reading of [depth]. *)
Fixpoint substitute_vars_in_value (depth : nat)
    (variables : dict ConfigValue) (value : ConfigValue) {struct depth}
  : outcome ConfigValue :=
  match depth with
  | 0 => Raise RecursionError
  | S d =>
      match value with
      | NumberValue _ => Ok value
      | StringValue s has_vars =>
          if has_vars then
            bind (substitute_matches d variables (findall s) s)
              (fun result => Ok (StringValue result false))
          else Ok value
      | VarRefValue name =>
          if contains "." name then
            Raise (SyntaxError (NestedReference name))
          else if negb (full_identifier name) then
            Raise (SyntaxError (BadVariableName name))
          else
            match dict_get name variables with
            | Some v => substitute_vars_in_value d variables v
            | None => Raise (NameError name)
            end
      | ListValue values =>
          bind (map_result (substitute_vars_in_value d variables) values)
            (fun new_values => Ok (ListValue new_values))
      | TableValue items =>
          bind (map_result
                  (fun kv =>
                     bind (substitute_vars_in_value d variables (snd kv))
                       (fun v => Ok (fst kv, v)))
                  items)
            (fun l => Ok (TableValue (dict_of_items l)))
      end
  end.

(** [process_variable_substitution]: the loop over
    [self.variables.items()].  The view is live: entry [i] is read from
    the dict as it is when the loop reaches it, and the assignment
    replaces the value of a key that is present, so the keys and their
    order stay. *)
Fixpoint process_items (n i depth : nat) (variables : dict ConfigValue)
    {struct n} : outcome unit * dict ConfigValue :=
  match n with
  | 0 => (Ok tt, variables)
  | S n' =>
      match nth_error variables i with
      | None => (Ok tt, variables)
      | Some (var_name, value) =>
          match substitute_vars_in_value depth variables value with
          | Ok v =>
              process_items n' (S i) depth (dict_set var_name v variables)
          | Raise e => (Raise e, variables)
          | Timeout => (Timeout, variables)
          end
      end
  end.

Definition process_variable_substitution (depth : nat)
    (variables : dict ConfigValue) : outcome unit * dict ConfigValue :=
  process_items (List.length variables) 0 depth variables.

(** ** Conversion to plain Python values *)

(** What [convert_value] returns: a float, a string, a list, a dict, or
    the [ConfigValue] object itself on the final [return value]. *)
#[warnings="-register-all"]
Inductive py_value : Type :=
| PyFloat (x : float_t)
| PyStr (s : string)
| PyList (l : list py_value)
| PyDict (d : list (string * py_value))
| PyObject (v : ConfigValue).

Fixpoint convert_value (value : ConfigValue) : py_value :=
  match value with
  | NumberValue x => PyFloat x
  | StringValue s _ => PyStr s
  | ListValue values => PyList (map convert_value values)
  | TableValue items =>
      PyDict (dict_of_items
                (map (fun kv => match kv with
                                | (k, v) => (k, convert_value v)
                                end) items))
  | VarRefValue _ => PyObject value
  end.

Definition convert_variables (variables : dict ConfigValue) : dict py_value :=
  fold_left (fun result nv => dict_set (fst nv) (convert_value (snd nv)) result)
    variables [].

(** ** The parser object and [parse] *)

Record ConfigParser : Type := {
  variables : dict ConfigValue;
  pos : nat;
  tokens : list token;
  current_line : nat
}.

(** [ConfigParser()] *)
Definition new_parser : ConfigParser :=
  {| variables := []; pos := 0; tokens := []; current_line := 1 |}.

(** A bound on the nesting of parsing calls and on the iterations of the
    top-level loop that a token list can cause. *)
Definition parse_bound (tokens : list token) : nat :=
  2 * List.length tokens + 2.

(** The parsing stage of [parse]: [self.pos = 0] and the loop over the
    tokens. *)
Definition parse_tokens (tokens : list token) (variables : dict ConfigValue)
  : outcome unit * nat * dict ConfigValue :=
  parse_loop (parse_bound tokens) (parse_bound tokens) tokens 0 variables.

(** [ConfigParser.parse]: the mapping it returns or the exception it
    raises, and the parser object afterwards.  [limit] is the depth of
    recursion Python allows to the substitution. *)
Definition parse (limit : nat) (self : ConfigParser) (text : string)
  : outcome (dict py_value) * ConfigParser :=
  match tokenize (current_line self) text with
  | (Ok toks, line) =>
      match parse_tokens toks (variables self) with
      | (Ok _, p, vars) =>
          match process_variable_substitution limit vars with
          | (Ok _, vars') =>
              (Ok (convert_variables vars'),
               {| variables := vars'; pos := p; tokens := toks;
                  current_line := line |})
          | (Raise e, vars') =>
              (Raise e,
               {| variables := vars'; pos := p; tokens := toks;
                  current_line := line |})
          | (Timeout, vars') =>
              (Timeout,
               {| variables := vars'; pos := p; tokens := toks;
                  current_line := line |})
          end
      | (Raise e, p, vars) =>
          (Raise e,
           {| variables := vars; pos := p; tokens := toks;
              current_line := line |})
      | (Timeout, p, vars) =>
          (Timeout,
           {| variables := vars; pos := p; tokens := toks;
              current_line := line |})
      end
  | (Raise e, line) =>
      (Raise e,
       {| variables := variables self; pos := pos self;
          tokens := tokens self; current_line := line |})
  | (Timeout, line) =>
      (Timeout,
       {| variables := variables self; pos := pos self;
          tokens := tokens self; current_line := line |})
  end.

(** [parse_config_to_json]: a new parser object for every call. *)
Definition parse_config_to_json (limit : nat) (text : string)
  : outcome (dict py_value) :=
  fst (parse limit new_parser text).

(** ** Terms of the properties *)

(** The punctuation texts [=], [;], [(], [)], [[] and []]. *)
Definition required_punctuation (s : string) : bool :=
  existsb (String.eqb s) ["="; ";"; "("; ")"; "["; "]"].

(** [restring t t']: [t'] is [t] itself, or [t] is the token of such a
    punctuation character and [t'] is the string-literal token with the
    same text on the same line. *)
Inductive restring : token -> token -> Prop :=
| restring_same (t : token) : restring t t
| restring_punct (c : ascii) (line : nat) :
    required_punctuation (String c "") = true ->
    restring (Tok (PUNCT c) (String c "") line)
             (Tok STRING (String c "") line).

(** [lexer_reaches st st']: the loop of [tokenize], started in the
    state [st] (rest of the text, line counter, tokens), comes to the
    state [st'] at the head of some iteration. *)
Inductive lexer_reaches
  : string * nat * list token -> string * nat * list token -> Prop :=
| reaches_here (st : string * nat * list token) : lexer_reaches st st
| reaches_step (text : string) (line : nat) (toks : list token)
    (text' : string) (line' : nat) (toks' : list token)
    (st : string * nat * list token) :
    tokenize_step text line toks = Continue text' line' toks' ->
    lexer_reaches (text', line', toks') st ->
    lexer_reaches (text, line, toks) st.

(** [refers_to x v]: the value [v] holds a reference to the name [x],
    either as a reference value or as a span [$x$] that [findall]
    captures in a string whose [has_vars] is set, at any depth inside
    lists and tables. *)
Inductive refers_to (x : string) : ConfigValue -> Prop :=
| refers_value : refers_to x (VarRefValue x)
| refers_span (s : string) :
    In x (findall s) -> refers_to x (StringValue s true)
| refers_element (values : list ConfigValue) (v : ConfigValue) :
    In v values -> refers_to x v -> refers_to x (ListValue values)
| refers_item (items : list (string * ConfigValue)) (k : string)
    (v : ConfigValue) :
    In (k, v) items -> refers_to x v -> refers_to x (TableValue items).

(** [leading_reference x v]: [v] is the reference [$x$] itself, or a
    string with [has_vars] set in which the first captured span is [x]. *)
Definition leading_reference (x : string) (v : ConfigValue) : Prop :=
  match v with
  | VarRefValue y => y = x
  | StringValue s true => exists rest, findall s = x :: rest
  | _ => False
  end.

(** A name the substitution cannot resolve: it has a dot, it is not an
    identifier, or no variable has it. *)
Definition unresolvable (variables : dict ConfigValue) (x : string) : Prop :=
  contains "." x = true \/ full_identifier x = false
  \/ dict_get x variables = None.

(** The exceptions of the substitution stage: [NameError] for a name
    that no variable has, the two [SyntaxError]s for a dotted or
    malformed name, and [RecursionError]. *)
Definition resolution_error (variables : dict ConfigValue) (e : exn) : Prop :=
  match e with
  | NameError x => dict_get x variables = None
  | SyntaxError (NestedReference x) => contains "." x = true
  | SyntaxError (BadVariableName x) => full_identifier x = false
  | RecursionError => True
  | _ => False
  end.

(** [name_failure variables name e]: the checks that the substitution
    makes on the name of a reference, in their order, end with [e]: the
    [SyntaxError] for a name with a point, else the one for a name that
    is no identifier, else [NameError] when no variable has the name. *)
Definition name_failure (variables : dict ConfigValue) (name : string)
    (e : exn) : Prop :=
  if contains "." name then e = SyntaxError (NestedReference name)
  else if negb (full_identifier name) then
    e = SyntaxError (BadVariableName name)
  else dict_get name variables = None /\ e = NameError name.

(** [name_bound variables name v]: the name passes the checks and is the
    name of the variable with the value [v]. *)
Definition name_bound (variables : dict ConfigValue) (name : string)
    (v : ConfigValue) : Prop :=
  contains "." name = false /\ full_identifier name = true
  /\ dict_get name variables = Some v.

(** [span_resolves depth variables name]: the span [$name$] of a string
    is replaced: the name is bound and [get_string_value] returns the
    text of its value. *)
Definition span_resolves (depth : nat) (variables : dict ConfigValue)
    (name : string) : Prop :=
  exists v text,
    name_bound variables name v
    /\ get_string_value depth variables v = Ok text.

(** [first_failure variables depth value e]: on its way through [value],
    with [depth] nested calls left, the substitution comes to a failure
    with [e] before any other.  The way is that of the code: the spans
    of a string whose [has_vars] is set from left to right, the elements
    of a list and the items of a table from left to right, a reference
    value into the value of its variable.  What lies before the failure
    on that way is resolved; with no call left the failure is
    [RecursionError]. *)
Inductive first_failure (variables : dict ConfigValue)
  : nat -> ConfigValue -> exn -> Prop :=
| failure_limit (value : ConfigValue) :
    first_failure variables 0 value RecursionError
| failure_reference_name (depth : nat) (name : string) (e : exn) :
    name_failure variables name e ->
    first_failure variables (S depth) (VarRefValue name) e
| failure_reference_value (depth : nat) (name : string) (v : ConfigValue)
    (e : exn) :
    name_bound variables name v ->
    first_failure variables depth v e ->
    first_failure variables (S depth) (VarRefValue name) e
| failure_span_name (depth : nat) (s : string) (before : list string)
    (name : string) (after : list string) (e : exn) :
    findall s = (before ++ name :: after)%list ->
    Forall (span_resolves depth variables) before ->
    name_failure variables name e ->
    first_failure variables (S depth) (StringValue s true) e
| failure_span_value (depth : nat) (s : string) (before : list string)
    (name : string) (after : list string) (v : ConfigValue) (e : exn) :
    findall s = (before ++ name :: after)%list ->
    Forall (span_resolves depth variables) before ->
    name_bound variables name v ->
    get_string_value depth variables v = Raise e ->
    first_failure variables (S depth) (StringValue s true) e
| failure_element (depth : nat) (before : list ConfigValue)
    (v : ConfigValue) (after : list ConfigValue) (e : exn) :
    Forall (fun b => exists r,
                substitute_vars_in_value depth variables b = Ok r) before ->
    first_failure variables depth v e ->
    first_failure variables (S depth)
      (ListValue (before ++ v :: after)%list) e
| failure_item (depth : nat) (before : list (string * ConfigValue))
    (k : string) (v : ConfigValue) (after : list (string * ConfigValue))
    (e : exn) :
    Forall (fun kv => exists r,
                substitute_vars_in_value depth variables (snd kv) = Ok r)
      before ->
    first_failure variables depth v e ->
    first_failure variables (S depth)
      (TableValue (before ++ (k, v) :: after)%list) e.

(** [resolved v]: no reference value is left in [v]. *)
Fixpoint resolved (v : ConfigValue) : bool :=
  match v with
  | NumberValue _ | StringValue _ _ => true
  | ListValue values => forallb resolved values
  | TableValue items =>
      forallb (fun kv => match kv with (_, w) => resolved w end) items
  | VarRefValue _ => false
  end.

(** [plain v]: the Python value [v] is built from floats, strings, lists
    and dicts only. *)
Fixpoint plain (v : py_value) : bool :=
  match v with
  | PyFloat _ | PyStr _ => true
  | PyList l => forallb plain l
  | PyDict d => forallb (fun kv => match kv with (_, w) => plain w end) d
  | PyObject _ => false
  end.

(** [raises_only P r]: the outcome [r] is a value or an exception that
    satisfies [P]; it is not the cut-off of a loop. *)
Definition raises_only {A : Type} (P : exn -> Prop) (r : outcome A) : Prop :=
  match r with
  | Ok _ => True
  | Raise e => P e
  | Timeout => False
  end.

End Program.

Arguments Ok {lib A} a.
Arguments Raise {lib A} e.
Arguments Timeout {lib A}.

(** ** A decimal reading of the library functions

    To run the program on explicit inputs the library functions are given
    a reading in which a float is the shortest decimal text of its value:
    [float] drops a plus sign, the leading zeros of the integer part and
    the trailing zeros of the fraction, [str] is the identity and [repr]
    puts quotes around a string.  This is what CPython computes for
    literals of at most 15 significant digits with a value that is zero or
    lies between 1e-4 and 1e16, and for strings of printable characters
    without backslashes that do not hold both kinds of quote. *)
Module Decimal.

Fixpoint strip_leading_zeros (s : string) : string :=
  match s with
  | String c (String _ _ as rest) =>
      if Ascii.eqb c "0" then strip_leading_zeros rest else s
  | _ => s
  end.

Fixpoint strip_trailing_zeros (s : string) : string :=
  match s with
  | String c rest =>
      match strip_trailing_zeros rest with
      | "" => String c ""
      | "0" => String c (if all_chars (Ascii.eqb "0") rest then "" else "0")
      | r => String c r
      end
  | "" => ""
  end.

Definition float (s : string) : string :=
  let (sign, body) :=
    match s with
    | String c s' =>
        if Ascii.eqb c "+" then ("", s')
        else if Ascii.eqb c "-" then ("-", s')
        else ("", s)
    | "" => ("", s)
    end in
  let (int_part, rest) := span is_digit body in
  sign ++ strip_leading_zeros int_part ++ "."
  ++ match strip_trailing_zeros (drop 1 rest) with
     | "" => "0"
     | r => r
     end.

Definition repr (s : string) : string :=
  if contains "'" s && negb (contains dquote s)
  then q ++ s ++ q
  else "'" ++ s ++ "'".

Definition library : Library :=
  {| float_t := string; py_float := float;
     py_str := fun x => x; py_repr := repr |}.

End Decimal.

(** The pipeline under the decimal reading, and Python's default recursion
    limit. *)
Definition decimal_pipeline : nat -> string -> outcome (dict py_value) :=
  @parse_config_to_json Decimal.library.

Definition default_limit : nat := 1000.

(** ** Writing inputs *)

(** The string literal [@"s"] of the configuration language. *)
Definition str_lit (s : string) : string := "@" ++ q ++ s ++ q.

(** ** Shapes of text *)

(** A non-empty run of decimal digits. *)
Definition digits (s : string) : bool :=
  match s with
  | "" => false
  | String _ _ => all_chars is_digit s
  end.

(** A letter followed by letters, digits and underscores. *)
Definition identifier (s : string) : bool :=
  match s with
  | "" => false
  | String c rest => is_alpha c && all_chars is_word rest
  end.

(** The three reserved words. *)
Definition keyword (s : string) : bool :=
  String.eqb s "var" || String.eqb s "list" || String.eqb s "table".

(** The optional sign of a number literal. *)
Definition sign (s : string) : bool :=
  String.eqb s "" || String.eqb s "+" || String.eqb s "-".

(** The number of newline characters of a text. *)
Fixpoint count_newlines (s : string) : nat :=
  match s with
  | "" => 0
  | String c rest =>
      (if Ascii.eqb c newline then 1 else 0) + count_newlines rest
  end.

(** ** Shapes of tokens *)

Section Tokens.

Context {lib : Library}.

(** The shape of the tokens that [tokenize] builds: the text of a string
    token has no double quote, the text of an ['ID'] token is an identifier
    other than the reserved words, a reserved word has its own type, and a
    punctuation token carries its character, one of [()[],=$;]. *)
Definition well_formed (t : token) : bool :=
  match t with
  | NumberTok _ _ => true
  | Tok STRING s _ => negb (contains dquote s)
  | Tok ID s _ => identifier s && negb (keyword s)
  | Tok VAR s _ => String.eqb s "var"
  | Tok LIST s _ => String.eqb s "list"
  | Tok TABLE s _ => String.eqb s "table"
  | Tok (PUNCT c) s _ => String.eqb s (String c "") && contains c "()[],=$;"
  end.

(** [t[0] == 'VAR'] *)
Definition is_var (t : token) : bool :=
  match t with
  | Tok VAR _ _ => true
  | _ => false
  end.

(** [last_value_is tokens s]: the token list is not empty and the value of
    its last token is [s]. *)
Definition last_value_is (tokens : list token) (s : string) : bool :=
  match tokens with
  | [] => false
  | _ :: _ => value_at tokens (List.length tokens - 1) s
  end.

End Tokens.

(** * Properties *)

(** ** Dictionaries *)

Section DictFacts.

Context {V : Type}.
Implicit Types (d : dict V) (k x : string) (v w : V).

Lemma dict_get_set k v d x :
  dict_get x (dict_set k v d)
  = if String.eqb k x then Some v else dict_get x d.
Proof.
  induction d as [|[k0 w0] d IH]; cbn [dict_set dict_get].
  - reflexivity.
  - destruct (String.eqb_spec k0 k) as [-> | Hk0]; cbn [dict_get].
    + destruct (String.eqb k x); reflexivity.
    + rewrite IH. destruct (String.eqb_spec k0 x) as [-> | Hx].
      * apply String.eqb_neq in Hk0. rewrite String.eqb_sym in Hk0.
        now rewrite Hk0.
      * reflexivity.
Qed.

Lemma dict_get_none d x :
  dict_get x d = None <-> ~ In x (dict_keys d).
Proof.
  induction d as [|[k0 w0] d IH]; cbn [dict_get dict_keys map fst In].
  - tauto.
  - destruct (String.eqb_spec k0 x) as [-> | Hx].
    + split; [discriminate | tauto].
    + rewrite IH. unfold dict_keys. tauto.
Qed.

Lemma dict_keys_set_in k v d x :
  In x (dict_keys (dict_set k v d)) <-> x = k \/ In x (dict_keys d).
Proof.
  induction d as [|[k0 w0] d IH]; cbn [dict_set dict_keys map fst In].
  - split; intros [H | H]; auto.
  - destruct (String.eqb_spec k0 k) as [-> | Hk0];
      cbn [dict_keys map fst In].
    + split; [tauto |]. intros [-> | H]; auto.
    + unfold dict_keys in IH. rewrite IH. tauto.
Qed.

Lemma dict_set_nodup k v d :
  NoDup (dict_keys d) -> NoDup (dict_keys (dict_set k v d)).
Proof.
  induction d as [|[k0 w0] d IH]; cbn [dict_set dict_keys map fst];
    intros Hd.
  - constructor; [tauto | constructor].
  - inversion Hd as [|? ? Hnot Hrest]; subst.
    destruct (String.eqb_spec k0 k) as [-> | Hk0];
      cbn [dict_keys map fst].
    + constructor; assumption.
    + constructor; [| apply IH, Hrest].
      intros Hin. apply dict_keys_set_in in Hin as [-> | Hin]; auto.
Qed.

Lemma dict_get_nth k v d :
  dict_get k d = Some v -> exists j, nth_error d j = Some (k, v).
Proof.
  induction d as [|[k0 w0] d IH]; cbn [dict_get]; [discriminate |].
  destruct (String.eqb_spec k0 k) as [-> | Hk0].
  - intros H; injection H as ->. now exists 0.
  - intros H. destruct (IH H) as [j Hj]. now exists (S j).
Qed.

Lemma nth_key_in d i k w :
  nth_error d i = Some (k, w) -> In k (dict_keys d).
Proof.
  intros H. apply nth_error_In in H.
  unfold dict_keys. change k with (fst (k, w)). now apply in_map.
Qed.

(** In a dict without repeated keys, assigning to the key of entry [i]
    leaves every other entry as it is. *)
Lemma dict_set_nth_other k v w d i j :
  NoDup (dict_keys d) -> nth_error d i = Some (k, w) -> j <> i ->
  nth_error (dict_set k v d) j = nth_error d j.
Proof.
  revert i j.
  induction d as [|[k0 w0] d IH]; intros i j Hd Hi Hj;
    [destruct i; discriminate |].
  cbn [dict_keys map fst] in Hd.
  inversion Hd as [|? ? Hnot Hrest]; subst.
  cbn [dict_set].
  destruct i as [|i]; cbn [nth_error] in Hi.
  - injection Hi as -> ->. rewrite String.eqb_refl.
    destruct j as [|j]; [congruence | reflexivity].
  - destruct (String.eqb_spec k0 k) as [-> | Hk0].
    + exfalso. apply Hnot. exact (nth_key_in d i k w Hi).
    + destruct j as [|j]; [reflexivity |]. cbn [nth_error].
      apply (IH i j Hrest Hi). lia.
Qed.

Lemma dict_keys_set_present k v d :
  In k (dict_keys d) -> dict_keys (dict_set k v d) = dict_keys d.
Proof.
  induction d as [|[k0 w0] d IH]; cbn [dict_set dict_keys map fst In];
    [tauto |].
  intros Hin.
  destruct (String.eqb_spec k0 k) as [-> | Hk0]; cbn [map fst];
    [reflexivity |].
  f_equal. apply IH. destruct Hin as [H | H]; [congruence | exact H].
Qed.

Lemma dict_set_nth_same k v w d i :
  NoDup (dict_keys d) -> nth_error d i = Some (k, w) ->
  nth_error (dict_set k v d) i = Some (k, v).
Proof.
  revert i.
  induction d as [|[k0 w0] d IH]; intros i Hd Hi; [destruct i; discriminate |].
  cbn [dict_keys map fst] in Hd.
  inversion Hd as [|? ? Hnot Hrest]; subst.
  cbn [dict_set].
  destruct i as [|i]; cbn [nth_error] in Hi.
  - injection Hi as -> ->. now rewrite String.eqb_refl.
  - destruct (String.eqb_spec k0 k) as [-> | Hk0].
    + exfalso. apply Hnot. exact (nth_key_in d i k w Hi).
    + cbn [nth_error]. exact (IH i Hrest Hi).
Qed.

Lemma dict_set_length_present k v d :
  In k (dict_keys d) -> List.length (dict_set k v d) = List.length d.
Proof.
  intros Hin. rewrite <- (length_map fst (dict_set k v d)).
  change (map fst (dict_set k v d)) with (dict_keys (dict_set k v d)).
  rewrite (dict_keys_set_present k v d Hin). apply length_map.
Qed.

(** A property of all values of a dict survives an assignment of a value
    that has it. *)
Lemma dict_set_forallb (P : V -> bool) k v d :
  forallb (fun kv => match kv with (_, w) => P w end) d = true ->
  P v = true ->
  forallb (fun kv => match kv with (_, w) => P w end) (dict_set k v d) = true.
Proof.
  intros Hd Hv.
  induction d as [|[k0 w0] d IH]; cbn [dict_set forallb] in *.
  - now rewrite Hv.
  - apply andb_true_iff in Hd as [Hw0 Hd].
    destruct (String.eqb k0 k); cbn [forallb].
    + now rewrite Hv, Hd.
    + now rewrite Hw0, (IH Hd).
Qed.

Lemma dict_of_items_forallb (P : V -> bool) (l : list (string * V)) :
  forallb (fun kv => match kv with (_, w) => P w end) l = true ->
  forallb (fun kv => match kv with (_, w) => P w end) (dict_of_items l) = true.
Proof.
  unfold dict_of_items.
  assert (H : forall acc : dict V,
             forallb (fun kv => match kv with (_, w) => P w end) acc = true ->
             forallb (fun kv => match kv with (_, w) => P w end) l = true ->
             forallb (fun kv => match kv with (_, w) => P w end)
               (fold_left (fun d kv => dict_set (fst kv) (snd kv) d) l acc)
             = true).
  { induction l as [|[k v] l IH]; intros acc Hacc Hl; cbn [fold_left];
      [exact Hacc |].
    cbn [forallb] in Hl. apply andb_true_iff in Hl as [Hv Hl].
    apply IH; [| exact Hl]. now apply dict_set_forallb. }
  apply H. reflexivity.
Qed.

(** All entries have a property when every entry found by index has it. *)
Lemma forallb_nth {A : Type} (P : A -> bool) (l : list A) :
  (forall j a, nth_error l j = Some a -> P a = true) -> forallb P l = true.
Proof.
  induction l as [|a l IH]; intros H; cbn [forallb]; [reflexivity |].
  rewrite (H 0 a eq_refl). apply IH. intros j b Hj. exact (H (S j) b Hj).
Qed.

End DictFacts.


(** ** Strings and character classes *)

Ltac each_char c :=
  destruct c as [[] [] [] [] [] [] [] []];
  try reflexivity; try discriminate.

#[local] Arguments Ascii.eqb : simpl never.
#[local] Arguments String.eqb : simpl never.

Lemma starts_with_cons (a b : ascii) (p s : string) :
  starts_with (String a p) (String b s) = Ascii.eqb a b && starts_with p s.
Proof. reflexivity. Qed.

Lemma find_zero (sub s : string) :
  find sub s = Some 0 -> starts_with sub s = true.
Proof.
  destruct s as [|c s]; cbn [find];
    destruct (starts_with sub _); try reflexivity; try discriminate.
  destruct (find sub s); discriminate.
Qed.

Lemma length_append (a b : string) :
  String.length (a ++ b) = String.length a + String.length b.
Proof. induction a as [|c a IH]; simpl; [reflexivity | now rewrite IH]. Qed.

Lemma length_drop (n : nat) (s : string) :
  String.length (drop n s) = String.length s - n.
Proof.
  revert s; induction n as [|n IH]; intros [|c s]; simpl; auto with arith.
Qed.

Lemma drop_append (a b : string) : drop (String.length a) (a ++ b) = b.
Proof. induction a as [|c a IH]; simpl; auto. Qed.

Lemma append_assoc (a b c : string) : (a ++ b) ++ c = a ++ (b ++ c).
Proof. induction a as [|x a IH]; simpl; [reflexivity | now rewrite IH]. Qed.

(** What follows a run of characters of a class: nothing, or a character
    outside the class. *)
Definition ends_run (p : ascii -> bool) (s : string) : Prop :=
  match s with
  | "" => True
  | String c _ => p c = false
  end.

Lemma span_append (p : ascii -> bool) (a b : string) :
  all_chars p a = true -> ends_run p b -> span p (a ++ b) = (a, b).
Proof.
  induction a as [|c a IH]; simpl; intros Ha Hb.
  - destruct b as [|c b]; simpl in *; [reflexivity | now rewrite Hb].
  - apply andb_true_iff in Ha as [Hc Ha]. rewrite Hc, (IH Ha Hb). reflexivity.
Qed.

Lemma span_length (p : ascii -> bool) (s : string) :
  String.length (fst (span p s)) + String.length (snd (span p s))
  = String.length s.
Proof.
  induction s as [|c s IH]; simpl; [reflexivity |].
  destruct (p c); simpl; [| reflexivity].
  destruct (span p s) as [a b]; simpl in *. now rewrite IH.
Qed.

Lemma digit_not_space (c : ascii) : is_digit c = true -> isspace c = false.
Proof. each_char c. Qed.

Lemma digit_not_alpha (c : ascii) : is_digit c = true -> is_alpha c = false.
Proof. each_char c. Qed.

Lemma digit_not_punct (c : ascii) :
  is_digit c = true -> contains c "()[],=$;:{@+-." = false.
Proof. each_char c. Qed.

Lemma alpha_not_space (c : ascii) : is_alpha c = true -> isspace c = false.
Proof. each_char c. Qed.

Lemma alpha_not_digit (c : ascii) : is_alpha c = true -> is_digit c = false.
Proof. each_char c. Qed.

Lemma alpha_not_punct (c : ascii) :
  is_alpha c = true -> contains c "()[],=$;:{@+-." = false.
Proof. each_char c. Qed.

Lemma contains_false_cons (c a : ascii) (s : string) :
  contains c (String a s) = false ->
  Ascii.eqb a c = false /\ contains c s = false.
Proof. simpl. intros H. now apply orb_false_iff in H. Qed.


Section Properties.

Context {lib : Library}.

(** ** The lexer *)

Lemma match_number_length (s num : string) :
  match_number s = Some num -> 1 <= String.length num.
Proof.
  unfold match_number.
  destruct (match s with
            | "" => ("", s)
            | String c s' =>
                if Ascii.eqb c "+" || Ascii.eqb c "-"
                then (String c "", s') else ("", s)
            end) as [sign s1].
  destruct (span is_digit s1) as [[|d ip] s2]; [discriminate |].
  destruct s2 as [|dot s3]; [discriminate |].
  destruct (Ascii.eqb dot "."); [| discriminate].
  destruct (span is_digit s3) as [[|f fp] s4]; [discriminate |].
  intros H; injection H as <-.
  rewrite length_append. simpl. lia.
Qed.

(** Every iteration that goes on has consumed at least one character. *)
Lemma tokenize_step_shorter (text : string) (line : nat) (toks : list token)
    (text' : string) (line' : nat) (toks' : list token) :
  tokenize_step text line toks = Continue text' line' toks' ->
  String.length text' < String.length text.
Proof.
  unfold tokenize_step.
  destruct text as [|c rest]; [discriminate |].
  destruct (isspace c) eqn:Hsp.
  { intros H; injection H as <- _ _. cbn [String.length]; lia. }
  destruct (starts_with "::" (String c rest)) eqn:Hlc.
  { destruct (find nl (String c rest)) as [k|] eqn:Hk; [| discriminate].
    intros H; injection H as <- _ _.
    rewrite length_drop.
    destruct k as [|k]; [| cbn [String.length]; lia].
    exfalso. apply find_zero in Hk. unfold nl in Hk.
    rewrite starts_with_cons in Hk. apply andb_true_iff in Hk as [Hc _].
    apply Ascii.eqb_eq in Hc; subst c. discriminate Hsp. }
  destruct (starts_with "{{!" (String c rest)) eqn:Hbc.
  { destruct (find "!}}" (String c rest)) as [k|]; [| discriminate].
    intros H; injection H as <- _ _.
    rewrite length_drop. cbn [String.length]; lia. }
  destruct (match_number (String c rest)) as [num|] eqn:Hnum.
  { intros H; injection H as <- _ _.
    apply match_number_length in Hnum.
    rewrite length_drop. cbn [String.length]; lia. }
  destruct (starts_with ("@" ++ q) (String c rest)).
  { destruct (find q (drop 2 (String c rest))) as [e|]; [| discriminate].
    intros H; injection H as <- _ _.
    rewrite length_drop. destruct rest; cbn [drop String.length]; lia. }
  destruct (match_identifier (String c rest)) as [tv|] eqn:Hid.
  { intros H; injection H as <- _ _.
    rewrite length_drop.
    simpl in Hid. destruct (is_alpha c); [| discriminate].
    injection Hid as <-. cbn [String.length]; lia. }
  destruct (contains c "()[],=$;"); [| discriminate].
  intros H; injection H as <- _ _. cbn [String.length]; lia.
Qed.

(** More iterations do not change what the loop has returned. *)
Lemma tokenize_loop_more (n m : nat) (text : string) (line : nat)
    (toks : list token) :
  n <= m ->
  fst (tokenize_loop n text line toks) <> Timeout ->
  tokenize_loop m text line toks = tokenize_loop n text line toks.
Proof.
  revert m text line toks.
  induction n as [|n IH]; intros m text line toks Hle Hn.
  - simpl in Hn. congruence.
  - destruct m as [|m]; [lia |].
    simpl in *.
    destruct (tokenize_step text line toks) as [t l k | r l];
      [apply IH; [lia | assumption] | reflexivity].
Qed.

(** The loop ends within as many iterations as the text has characters,
    plus one. *)
Lemma tokenize_loop_total (n : nat) (text : string) (line : nat)
    (toks : list token) :
  String.length text < n ->
  fst (tokenize_loop n text line toks) <> Timeout.
Proof.
  revert text line toks.
  induction n as [|n IH]; intros text line toks Hlen; [lia |].
  simpl.
  destruct (tokenize_step text line toks) as [t l k | r l] eqn:Hstep.
  - apply IH. apply tokenize_step_shorter in Hstep. lia.
  - simpl. unfold tokenize_step in Hstep.
    repeat match type of Hstep with
           | match ?x with _ => _ end = _ => destruct x; try discriminate
           | (if ?x then _ else _) = _ => destruct x; try discriminate
           end;
      injection Hstep as <- _; discriminate.
Qed.

Theorem tokenize_total (line : nat) (text : string) :
  fst (tokenize line text) <> Timeout.
Proof. apply tokenize_loop_total. lia. Qed.

(** [tokenize] computed with any sufficient number of iterations. *)
Lemma tokenize_from_loop (n : nat) (line : nat) (text : string)
    (r : outcome (list token)) (line' : nat) :
  tokenize_loop n text line [] = (r, line') ->
  r <> Timeout ->
  tokenize line text = (r, line').
Proof.
  intros Hn Hr. unfold tokenize.
  destruct (Nat.le_gt_cases n (S (String.length text))) as [Hle | Hgt].
  - rewrite (tokenize_loop_more n _ text line [] Hle); [assumption |].
    rewrite Hn. exact Hr.
  - rewrite <- Hn. symmetry. apply tokenize_loop_more; [lia |].
    apply tokenize_loop_total. lia.
Qed.

Lemma tokenize_loop_step (n : nat) (text : string) (line : nat)
    (toks : list token) (text' : string) (line' : nat) (toks' : list token) :
  tokenize_step text line toks = Continue text' line' toks' ->
  tokenize_loop (S n) text line toks = tokenize_loop n text' line' toks'.
Proof. intros H. simpl. now rewrite H. Qed.

Lemma tokenize_loop_stop (n : nat) (text : string) (line : nat)
    (toks : list token) (r : outcome (list token)) (line' : nat) :
  tokenize_step text line toks = Stop r line' ->
  tokenize_loop (S n) text line toks = (r, line').
Proof. intros H. simpl. now rewrite H. Qed.

(** *** Number literals *)

Lemma digits_cons (s : string) :
  digits s = true ->
  exists d r, s = String d r /\ is_digit d = true /\ all_chars is_digit s = true.
Proof.
  destruct s as [|d r]; [discriminate |].
  intros H. exists d, r. split; [reflexivity |].
  split; [| exact H].
  simpl in H. now apply andb_true_iff in H.
Qed.

Lemma digit_sign (d : ascii) :
  is_digit d = true -> Ascii.eqb d "+" || Ascii.eqb d "-" = false.
Proof. each_char d. Qed.

(** The pattern matches a literal in front of anything that does not
    start with a digit, and matches the whole of it. *)
Lemma match_number_literal (sg ip fp rest : string) :
  sign sg = true -> digits ip = true -> digits fp = true ->
  ends_run is_digit rest ->
  match_number ((sg ++ ip ++ "." ++ fp) ++ rest) = Some (sg ++ ip ++ "." ++ fp).
Proof.
  intros Hsg Hip Hfp Hrest.
  destruct (digits_cons ip Hip) as (d & ip' & -> & Hd & Hall).
  destruct (digits_cons fp Hfp) as (f & fp' & -> & Hf & Hall').
  assert (Hbody :
    forall sg' : string,
      (let (int_part, s2) :=
         span is_digit ((String d ip' ++ "." ++ String f fp') ++ rest) in
       match int_part, s2 with
       | String _ _, String dot s3 =>
           if Ascii.eqb dot "." then
             let (frac, _) := span is_digit s3 in
             match frac with
             | String _ _ => Some (sg' ++ int_part ++ "." ++ frac)
             | "" => None
             end
           else None
       | _, _ => None
       end) = Some (sg' ++ String d ip' ++ "." ++ String f fp')).
  { intros sg'.
    rewrite append_assoc.
    rewrite (span_append is_digit (String d ip')
               (("." ++ String f fp') ++ rest) Hall);
      [| reflexivity].
    cbn [append]. change (Ascii.eqb "." ".") with true. cbv iota.
    change (String f (fp' ++ rest)) with (String f fp' ++ rest).
    rewrite (span_append is_digit (String f fp') rest Hall' Hrest).
    reflexivity. }
  unfold sign in Hsg.
  destruct (String.eqb_spec sg "") as [-> |].
  - unfold match_number. cbn [append]. rewrite (digit_sign d Hd).
    exact (Hbody "").
  - destruct (String.eqb_spec sg "+") as [-> |].
    + unfold match_number. cbn [append].
      change (Ascii.eqb "+" "+" || Ascii.eqb "+" "-") with true. cbv iota.
      exact (Hbody "+").
    + destruct (String.eqb_spec sg "-") as [-> |]; [| discriminate Hsg].
      unfold match_number. cbn [append].
      change (Ascii.eqb "-" "+" || Ascii.eqb "-" "-") with true. cbv iota.
      exact (Hbody "-").
Qed.

Lemma number_start (c : ascii) :
  Ascii.eqb c "+" || Ascii.eqb c "-" || is_digit c = true ->
  isspace c = false /\ Ascii.eqb ":" c = false /\ Ascii.eqb "{" c = false.
Proof. each_char c; repeat split. Qed.

Lemma match_number_start (c : ascii) (rest num : string) :
  match_number (String c rest) = Some num ->
  Ascii.eqb c "+" || Ascii.eqb c "-" || is_digit c = true.
Proof.
  unfold match_number.
  destruct (Ascii.eqb c "+" || Ascii.eqb c "-"); [reflexivity |].
  cbn [span orb]. destruct (is_digit c); [reflexivity | discriminate].
Qed.

(** An iteration at a text the number pattern matches. *)
Lemma tokenize_step_number (text num : string) (line : nat)
    (toks : list token) :
  match_number text = Some num ->
  tokenize_step text line toks
  = Continue (drop (String.length num) text) line
      (toks ++ [NumberTok (py_float num) line]).
Proof.
  intros Hnum. destruct text as [|c rest]; [discriminate |].
  destruct (number_start c (match_number_start c rest num Hnum))
    as (Hsp & Hcolon & Hbrace).
  unfold tokenize_step.
  rewrite Hsp, !starts_with_cons, Hcolon, Hbrace, Hnum. reflexivity.
Qed.

(** An iteration at a run of digits that no decimal point and digit
    follow: the loop raises on the first digit. *)
Lemma tokenize_step_integer (d : ascii) (ds rest : string) (line : nat)
    (toks : list token) :
  digits (String d ds) = true ->
  ends_run is_digit rest -> ends_run (Ascii.eqb ".") rest ->
  tokenize_step (String d ds ++ rest) line toks
  = Stop (Raise (SyntaxError (UnknownCharacter d line))) line.
Proof.
  intros Hds Hrest Hdot.
  assert (Hd : is_digit d = true).
  { simpl in Hds. now apply andb_true_iff in Hds. }
  assert (Hnum : match_number (String d ds ++ rest) = None).
  { unfold match_number. cbn [append]. rewrite (digit_sign d Hd).
    change (String d (ds ++ rest)) with (String d ds ++ rest).
    rewrite (span_append is_digit (String d ds) rest Hds Hrest).
    destruct rest as [|c rest]; [reflexivity |].
    simpl in Hdot. rewrite Ascii.eqb_sym, Hdot. reflexivity. }
  pose proof (digit_not_punct d Hd) as Hp.
  repeat (apply contains_false_cons in Hp as [? Hp]).
  unfold tokenize_step, q. cbn [append] in *.
  rewrite (digit_not_space d Hd), !starts_with_cons.
  repeat match goal with
         | H : Ascii.eqb _ d = false |- _ => rewrite H; clear H
         end.
  cbn [andb]. rewrite Hnum.
  unfold match_identifier. rewrite (digit_not_alpha d Hd).
  cbn [contains].
  repeat match goal with
         | H : Ascii.eqb _ d = false |- _ => rewrite H; clear H
         end.
  reflexivity.
Qed.

(** *** Identifiers *)

Lemma alpha_start (c : ascii) :
  is_alpha c = true ->
  Ascii.eqb ":" c = false /\ Ascii.eqb "{" c = false
  /\ Ascii.eqb "@" c = false
  /\ Ascii.eqb c "+" || Ascii.eqb c "-" = false.
Proof. each_char c; repeat split. Qed.

Lemma word_type_identifier (name : string) :
  keyword name = false -> word_type name = ID.
Proof.
  unfold keyword, word_type. intros Hkw.
  apply orb_false_iff in Hkw as [Hkw Htable].
  apply orb_false_iff in Hkw as [Hvar Hlist].
  now rewrite Hvar, Hlist, Htable.
Qed.

(** An iteration at an identifier or reserved word. *)
Lemma tokenize_step_word (name rest : string) (line : nat)
    (toks : list token) :
  identifier name = true ->
  ends_run is_word rest ->
  tokenize_step (name ++ rest) line toks
  = Continue rest line (toks ++ [Tok (word_type name) name line]).
Proof.
  intros Hid Hrest.
  destruct name as [|a nm]; [discriminate |].
  simpl in Hid. apply andb_true_iff in Hid as [Ha Hnm].
  destruct (alpha_start a Ha) as (Hcolon & Hbrace & Hat & Hsign).
  unfold tokenize_step, q. cbn [append].
  rewrite (alpha_not_space a Ha), !starts_with_cons, Hcolon, Hbrace, Hat.
  cbn [andb].
  unfold match_number. rewrite Hsign. cbn [span].
  rewrite (alpha_not_digit a Ha).
  unfold match_identifier. rewrite Ha.
  rewrite (span_append is_word nm rest Hnm Hrest). cbn [fst].
  change (String a (nm ++ rest)) with (String a nm ++ rest).
  rewrite drop_append. reflexivity.
Qed.

(** An iteration at an identifier that is not a reserved word. *)
Lemma tokenize_step_identifier (name rest : string) (line : nat)
    (toks : list token) :
  identifier name = true -> keyword name = false ->
  ends_run is_word rest ->
  tokenize_step (name ++ rest) line toks
  = Continue rest line (toks ++ [Tok ID name line]).
Proof.
  intros Hid Hkw Hrest.
  rewrite (tokenize_step_word name rest line toks Hid Hrest).
  now rewrite (word_type_identifier name Hkw).
Qed.

(** *** A declaration of a number *)

(** The tokens of [var name = num;] when the number pattern matches
    [num] in front of the semicolon. *)
Lemma tokenize_number_declaration (line : nat) (name num : string) :
  identifier name = true -> keyword name = false ->
  match_number (num ++ ";") = Some num ->
  tokenize line ("var " ++ name ++ " = " ++ num ++ ";")
  = (Ok [Tok VAR "var" line; Tok ID name line; Tok (PUNCT "=") "=" line;
         NumberTok (py_float num) line; Tok (PUNCT ";") ";" line],
     line).
Proof.
  intros Hid Hkw Hnum.
  apply tokenize_from_loop with (n := 9); [| discriminate].
  cbn [append].
  erewrite tokenize_loop_step by reflexivity.
  erewrite tokenize_loop_step by reflexivity.
  erewrite tokenize_loop_step
    by (apply tokenize_step_identifier; [assumption | assumption | reflexivity]).
  erewrite tokenize_loop_step by reflexivity.
  erewrite tokenize_loop_step by reflexivity.
  erewrite tokenize_loop_step by reflexivity.
  rewrite (tokenize_loop_step _ _ _ _ _ _ _
             (tokenize_step_number _ _ _ _ Hnum)).
  rewrite drop_append.
  erewrite tokenize_loop_step by reflexivity.
  reflexivity.
Qed.

(** The lexer raises on [var name = ds;...] when [ds] is a run of
    digits. *)
Lemma tokenize_integer_declaration (line : nat) (name rest : string)
    (d : ascii) (ds : string) :
  identifier name = true -> keyword name = false ->
  digits (String d ds) = true ->
  tokenize line ("var " ++ name ++ " = " ++ String d ds ++ ";" ++ rest)
  = (Raise (SyntaxError (UnknownCharacter d line)), line).
Proof.
  intros Hid Hkw Hds.
  apply tokenize_from_loop with (n := 7); [| discriminate].
  cbn [append].
  erewrite tokenize_loop_step by reflexivity.
  erewrite tokenize_loop_step by reflexivity.
  erewrite tokenize_loop_step
    by (apply tokenize_step_identifier; [assumption | assumption | reflexivity]).
  erewrite tokenize_loop_step by reflexivity.
  erewrite tokenize_loop_step by reflexivity.
  erewrite tokenize_loop_step by reflexivity.
  change (String d (ds ++ String ";" rest))
    with (String d ds ++ String ";" rest).
  apply tokenize_loop_stop.
  apply tokenize_step_integer; [assumption | reflexivity | reflexivity].
Qed.

(** ** The parser ends within its bounds *)

Lemma value_at_lt (toks : list token) (pos : nat) (s : string) :
  value_at toks pos s = true -> pos < List.length toks.
Proof.
  unfold value_at. intros H. apply nth_error_Some.
  destruct (nth_error toks pos); [discriminate | discriminate H].
Qed.

Lemma other_at_lt (toks : list token) (pos : nat) (s : string) :
  other_at toks pos s = true -> pos < List.length toks.
Proof.
  unfold other_at. intros H. apply nth_error_Some.
  destruct (nth_error toks pos); [discriminate | discriminate H].
Qed.

(** Splits the hypothesis [H], which says what a parsing method returned,
    along the tests and calls of the method. *)
Ltac split_run H :=
  repeat match type of H with
         | (if ?b then _ else _) = _ => destruct b eqn:?
         | match ?x with _ => _ end = _ => destruct x eqn:?
         | (match ?x with _ => _ end, _) = _ => destruct x eqn:?
         end;
  try discriminate H.

Lemma parse_var_reference_progress (toks : list token) (pos : nat)
    (v : ConfigValue) (p : nat) :
  parse_var_reference toks pos = (Ok v, p) -> pos < p.
Proof.
  unfold parse_var_reference, raise_at. intros H. split_run H.
  injection H as _ <-. lia.
Qed.

(** A parsing method that returns a value has moved [self.pos] forward;
    the loops do not move it back. *)
Lemma parse_progress (toks : list token) (depth : nat) :
  (forall pos v p, parse_value depth toks pos = (Ok v, p) -> pos < p)
  /\ (forall pos v p, parse_list depth toks pos = (Ok v, p) -> pos < p)
  /\ (forall values pos vs p,
        parse_list_loop depth toks pos values = (Ok vs, p) -> pos <= p)
  /\ (forall pos v p, parse_table depth toks pos = (Ok v, p) -> pos < p)
  /\ (forall items pos its p,
        parse_table_loop depth toks pos items = (Ok its, p) -> pos <= p).
Proof.
  induction depth as [|d (IHv & IHl & IHll & IHt & IHtl)].
  - repeat split; intros; discriminate.
  - repeat split.
    + intros pos v p H. cbn [parse_value] in H. split_run H.
      * injection H as _ <-. lia.
      * injection H as _ <-. lia.
      * exact (IHl _ _ _ H).
      * exact (IHt _ _ _ H).
      * exact (parse_var_reference_progress _ _ _ _ H).
    + intros pos v p H. cbn [parse_list] in H. unfold raise_at in H.
      split_run H.
      * injection H as _ <-. lia.
      * injection H as _ <-.
        match goal with
        | E : parse_list_loop d toks _ _ = _ |- _ => apply IHll in E; lia
        end.
    + intros values pos vs p H. cbn [parse_list_loop] in H.
      unfold raise_at in H. split_run H;
        try (injection H as _ <-; lia);
        match goal with
        | E : parse_value d toks _ = _ |- _ =>
            apply IHv in E; apply IHll in H; lia
        end.
    + intros pos v p H. cbn [parse_table] in H. unfold raise_at in H.
      split_run H.
      * injection H as _ <-. lia.
      * injection H as _ <-.
        match goal with
        | E : parse_table_loop d toks _ _ = _ |- _ => apply IHtl in E; lia
        end.
    + intros items pos its p H. cbn [parse_table_loop] in H.
      unfold raise_at in H. split_run H;
        try (injection H as _ <-; lia);
        match goal with
        | E : parse_value d toks _ = _ |- _ =>
            apply IHv in E; apply IHtl in H; lia
        end.
Qed.

(** Splits the goal along the tests and calls of a parsing method. *)
Ltac split_goal :=
  repeat match goal with
         | |- context [if ?b then _ else _] => destruct b eqn:?
         | |- context [match ?x with _ => _ end] => destruct x eqn:?
         end.

(** Collects what the tests that were passed say about positions. *)
Ltac position_facts toks :=
  repeat match goal with
         | H : negb _ = false |- _ => apply negb_false_iff in H
         | H : value_at toks _ _ = true |- _ => apply value_at_lt in H
         | H : other_at toks _ _ = true |- _ => apply other_at_lt in H
         | H : nth_error toks ?i = Some _ |- _ =>
             assert (i < List.length toks)
               by (apply nth_error_Some; rewrite H; discriminate);
             clear H
         end.

(** Closes a case of [parse_ends]: a call that was cut off contradicts
    the induction hypothesis, and a call in tail position has enough
    depth. *)
Ltac within_depth toks d Pv Hcut IHl IHll IHt IHtl :=
  match goal with
  | E : parse_value d toks _ = (Timeout, _) |- _ =>
      exfalso; apply (Hcut _ _ E); lia
  | E : parse_list_loop d toks ?n ?vs = (Timeout, _) |- _ =>
      exfalso; apply (IHll vs n); [lia | now rewrite E]
  | E : parse_table_loop d toks ?n ?its = (Timeout, _) |- _ =>
      exfalso; apply (IHtl its n); [lia | now rewrite E]
  | E : parse_value d toks _ = (Ok _, _) |- _ =>
      apply Pv in E; first [apply IHll; lia | apply IHtl; lia]
  | |- _ => first [apply IHl; lia | apply IHt; lia]
  end.

(** With a depth of twice the number of tokens that are left, and a
    little more, no parsing method is cut off. *)
Lemma parse_ends (toks : list token) (depth : nat) :
  (forall pos,
      2 * (List.length toks - pos) + 1 <= depth ->
      fst (parse_value depth toks pos) <> Timeout)
  /\ (forall pos,
        pos < List.length toks ->
        2 * (List.length toks - pos) <= depth ->
        fst (parse_list depth toks pos) <> Timeout)
  /\ (forall values pos,
        2 * (List.length toks - pos) + 2 <= depth ->
        fst (parse_list_loop depth toks pos values) <> Timeout)
  /\ (forall pos,
        pos < List.length toks ->
        2 * (List.length toks - pos) <= depth ->
        fst (parse_table depth toks pos) <> Timeout)
  /\ (forall items pos,
        2 * (List.length toks - pos) + 2 <= depth ->
        fst (parse_table_loop depth toks pos items) <> Timeout).
Proof.
  induction depth as [|d (IHv & IHl & IHll & IHt & IHtl)].
  - repeat split; intros; lia.
  - destruct (parse_progress toks d) as (Pv & _).
    assert (Hcut : forall pos n,
               parse_value d toks pos = (Timeout, n) ->
               2 * (List.length toks - pos) + 1 <= d -> False).
    { intros pos n E Hd. apply (IHv pos Hd). now rewrite E. }
    repeat split.
    + intros pos Hd. cbn [parse_value]. unfold parse_var_reference, raise_at.
      split_goal; try discriminate; position_facts toks;
        within_depth toks d Pv Hcut IHl IHll IHt IHtl.
    + intros pos Hpos Hd. cbn [parse_list]. unfold raise_at.
      split_goal; try discriminate; position_facts toks;
        within_depth toks d Pv Hcut IHl IHll IHt IHtl.
    + intros values pos Hd. cbn [parse_list_loop]. unfold raise_at.
      split_goal; try discriminate; position_facts toks;
        within_depth toks d Pv Hcut IHl IHll IHt IHtl.
    + intros pos Hpos Hd. cbn [parse_table]. unfold raise_at.
      split_goal; try discriminate; position_facts toks;
        within_depth toks d Pv Hcut IHl IHll IHt IHtl.
    + intros items pos Hd. cbn [parse_table_loop]. unfold raise_at.
      split_goal; try discriminate; position_facts toks;
        within_depth toks d Pv Hcut IHl IHll IHt IHtl.
Qed.

Lemma parse_var_declaration_progress (depth : nat) (toks : list token)
    (pos : nat) (vars : dict ConfigValue) (u : unit) (p : nat)
    (vars' : dict ConfigValue) :
  parse_var_declaration depth toks pos vars = (Ok u, p, vars') -> pos < p.
Proof.
  unfold parse_var_declaration, raise_at. intros H.
  repeat match type of H with
         | (if ?b then _ else _) = _ => destruct b eqn:?
         | match ?x with _ => _ end = _ => destruct x eqn:?
         | (match ?x with _ => _ end, _, _) = _ => destruct x eqn:?
         end;
    try discriminate H.
  injection H as _ <- _.
  match goal with
  | E : parse_value depth toks _ = (Ok _, _) |- _ =>
      apply (proj1 (parse_progress toks depth)) in E; lia
  end.
Qed.

Lemma parse_var_declaration_ends (depth : nat) (toks : list token)
    (pos : nat) (vars : dict ConfigValue) :
  2 * List.length toks + 1 <= depth ->
  fst (fst (parse_var_declaration depth toks pos vars)) <> Timeout.
Proof.
  intros Hd. unfold parse_var_declaration, raise_at.
  split_goal; try discriminate;
    exfalso;
    match goal with
    | E : parse_value depth toks ?n = (Timeout, _) |- _ =>
        apply (proj1 (parse_ends toks depth) n); [lia | now rewrite E]
    end.
Qed.

Lemma parse_loop_ends (steps depth : nat) (toks : list token) (pos : nat)
    (vars : dict ConfigValue) :
  List.length toks - pos < steps ->
  2 * List.length toks + 1 <= depth ->
  fst (fst (parse_loop steps depth toks pos vars)) <> Timeout.
Proof.
  intros Hsteps Hd. revert pos vars Hsteps.
  induction steps as [|n IH]; intros pos vars Hsteps; [lia |].
  cbn [parse_loop].
  destruct (nth_error toks pos) as [t|] eqn:Ht; [| discriminate].
  assert (pos < List.length toks)
    by (apply nth_error_Some; rewrite Ht; discriminate).
  destruct t as [x l | [] s l]; try (apply IH; lia).
  pose proof (parse_var_declaration_ends depth toks pos vars Hd) as Hends.
  destruct (parse_var_declaration depth toks pos vars)
    as [[[u|e|] p] vars'] eqn:E; cbn [fst] in *;
    [| discriminate | contradiction].
  apply parse_var_declaration_progress in E. apply IH. lia.
Qed.

(** The bounds that [parse] gives to the parsing stage are never
    reached. *)
Theorem parse_tokens_ends (toks : list token) (vars : dict ConfigValue) :
  fst (fst (parse_tokens toks vars)) <> Timeout.
Proof.
  unfold parse_tokens, parse_bound. apply parse_loop_ends; lia.
Qed.

(** ** The parser on string tokens that stand for punctuation *)

Lemma raise_at_not_ok {A : Type} (tokens : list token) (i : nat)
    (msg : nat -> syntax_msg) (p : nat) (a : A) (p' : nat) :
  (raise_at tokens i msg, p) = (Ok a, p') -> False.
Proof. unfold raise_at. destruct (nth_error tokens i); discriminate. Qed.

Section Restring.

Variables toks toks' : list token.
Hypothesis Hre : Forall2 restring toks toks'.

Lemma restring_nth (i : nat) :
  match nth_error toks i with
  | Some t => exists t', nth_error toks' i = Some t' /\ restring t t'
  | None => nth_error toks' i = None
  end.
Proof.
  revert i. induction Hre as [|t t' l l' Ht Hl IH]; intros [|i]; simpl;
    try reflexivity.
  - exists t'. split; [reflexivity | assumption].
  - apply IH. assumption.
Qed.

Lemma restring_value_is (t t' : token) (s : string) :
  restring t t' -> value_is t' s = value_is t s.
Proof. intros [x | c line Hc]; reflexivity. Qed.

Lemma restring_value_at (i : nat) (s : string) :
  value_at toks' i s = value_at toks i s.
Proof.
  unfold value_at. pose proof (restring_nth i) as H.
  destruct (nth_error toks i) as [t|].
  - destruct H as (t' & -> & Ht). now apply restring_value_is.
  - now rewrite H.
Qed.

Lemma restring_other_at (i : nat) (s : string) :
  other_at toks' i s = other_at toks i s.
Proof.
  unfold other_at. pose proof (restring_nth i) as H.
  destruct (nth_error toks i) as [t|].
  - destruct H as (t' & -> & Ht). f_equal. now apply restring_value_is.
  - now rewrite H.
Qed.

Lemma restring_length : List.length toks' = List.length toks.
Proof. induction Hre; simpl; [reflexivity | f_equal; auto]. Qed.

(** At a place where the parser looks at the type of the token, the
    token is one of the two that [restring] relates. *)
Lemma restring_nth_cases (i : nat) (t : token) :
  nth_error toks i = Some t ->
  nth_error toks' i = Some t
  \/ exists c line,
       required_punctuation (String c "") = true
       /\ t = Tok (PUNCT c) (String c "") line
       /\ nth_error toks' i = Some (Tok STRING (String c "") line).
Proof.
  intros Hi. pose proof (restring_nth i) as H. rewrite Hi in H.
  destruct H as (t' & Ht' & Hr).
  inversion Hr as [x | c line Hc]; subst.
  - left. assumption.
  - right. exists c, line. auto.
Qed.

Lemma required_not_dollar (c : ascii) :
  required_punctuation (String c "") = true -> Ascii.eqb c "$" = false.
Proof. each_char c. Qed.

Lemma restring_var_reference (pos : nat) (v : ConfigValue) (p : nat) :
  parse_var_reference toks pos = (Ok v, p) ->
  parse_var_reference toks' pos = (Ok v, p).
Proof.
  unfold parse_var_reference.
  rewrite !restring_value_at.
  destruct (nth_error toks (S pos)) as [t|] eqn:Ht;
    [| intros H; now apply raise_at_not_ok in H].
  destruct (restring_nth_cases _ _ Ht) as [-> | (c & line & _ & -> & _)];
    [| intros H; now apply raise_at_not_ok in H].
  destruct t as [x l | [] s l];
    try (intros H; now apply raise_at_not_ok in H).
  destruct (value_at toks (S (S pos)) ".");
    [intros H; now apply raise_at_not_ok in H |].
  destruct (value_at toks (S (S pos)) "$"); cbn [negb];
    [auto | intros H; now apply raise_at_not_ok in H].
Qed.

Ltac sim_step IHv IHll IHtl :=
  match goal with
  | |- (raise_at _ _ _, _) = (Ok _, _) -> _ =>
      let H := fresh in intros H; now apply raise_at_not_ok in H
  | |- (Raise _, _) = (Ok _, _) -> _ => discriminate
  | |- (Timeout, _) = (Ok _, _) -> _ => discriminate
  | |- (Ok _, _) = (Ok _, _) -> _ => exact (fun H => H)
  | |- (if ?b then _ else _) = _ -> _ => destruct b
  | |- match ?call with _ => _ end = _ -> _ =>
      let E := fresh "E" in
      destruct call as [[?|?|] ?] eqn:E;
      [ first [ rewrite (IHv _ _ _ E)
              | rewrite (IHll _ _ _ _ E)
              | rewrite (IHtl _ _ _ _ E) ];
        rewrite ?restring_value_at, ?restring_other_at
      | discriminate | discriminate ]
  | |- ?X = _ -> ?X = _ => exact (fun H => H)
  end.

(** Each parsing method returns on [toks'] what it returns on
    [toks]. *)
Lemma restring_parse (depth : nat) :
  (forall pos v p,
      parse_value depth toks pos = (Ok v, p) ->
      parse_value depth toks' pos = (Ok v, p))
  /\ (forall pos v p,
        parse_list depth toks pos = (Ok v, p) ->
        parse_list depth toks' pos = (Ok v, p))
  /\ (forall values pos vs p,
        parse_list_loop depth toks pos values = (Ok vs, p) ->
        parse_list_loop depth toks' pos values = (Ok vs, p))
  /\ (forall pos v p,
        parse_table depth toks pos = (Ok v, p) ->
        parse_table depth toks' pos = (Ok v, p))
  /\ (forall items pos its p,
        parse_table_loop depth toks pos items = (Ok its, p) ->
        parse_table_loop depth toks' pos items = (Ok its, p)).
Proof.
  induction depth as [|d (IHv & IHl & IHll & IHt & IHtl)].
  - repeat split; intros; discriminate.
  - repeat split.
    + intros pos v p. cbn [parse_value].
      destruct (nth_error toks pos) as [t|] eqn:Ht; [| discriminate].
      destruct (restring_nth_cases _ _ Ht)
        as [-> | (c & line & Hc & -> & ->)].
      * destruct t as [x l | [| | | | |c] s l]; try discriminate; auto.
        destruct (Ascii.eqb c "$"); [| discriminate].
        apply restring_var_reference.
      * rewrite (required_not_dollar c Hc). discriminate.
    + intros pos v p. cbn [parse_list].
      rewrite !restring_value_at.
      repeat sim_step IHv IHll IHtl.
    + intros values pos v p. cbn [parse_list_loop].
      rewrite ?restring_value_at, ?restring_other_at.
      repeat sim_step IHv IHll IHtl; apply IHll.
    + intros pos v p. cbn [parse_table].
      rewrite !restring_value_at.
      repeat sim_step IHv IHll IHtl.
    + intros items pos v p. cbn [parse_table_loop].
      rewrite ?restring_value_at, ?restring_other_at.
      destruct (other_at toks pos "]"); [| auto].
      destruct (nth_error toks pos) as [t|] eqn:Ht;
        [| intros H; now apply raise_at_not_ok in H].
      destruct (restring_nth_cases _ _ Ht)
        as [-> | (c & line & Hc & -> & ->)];
        [| intros H; now apply raise_at_not_ok in H].
      destruct t as [x l | [] s l];
        try (intros H; now apply raise_at_not_ok in H).
      repeat sim_step IHv IHll IHtl; apply IHtl.
Qed.

Ltac raised :=
  let H := fresh in
  intros H; injection H as H _ _; unfold raise_at in H;
  match type of H with
  | match ?x with _ => _ end = _ => destruct x; discriminate H
  end.

Lemma restring_var_declaration (depth pos : nat)
    (vars : dict ConfigValue) (u : unit) (p : nat)
    (vars' : dict ConfigValue) :
  parse_var_declaration depth toks pos vars = (Ok u, p, vars') ->
  parse_var_declaration depth toks' pos vars = (Ok u, p, vars').
Proof.
  unfold parse_var_declaration.
  rewrite ?restring_value_at.
  destruct (nth_error toks (S pos)) as [t|] eqn:Ht; [| raised].
  destruct (restring_nth_cases _ _ Ht)
    as [-> | (c & line & Hc & -> & ->)]; [| raised].
  destruct t as [x l | [] s l]; try raised.
  destruct (value_at toks (S (S pos)) "="); cbn [negb]; [| raised].
  destruct (parse_value depth toks (S (S (S pos)))) as [[v|e|] n] eqn:E;
    [| discriminate | discriminate].
  rewrite (proj1 (restring_parse depth) _ _ _ E).
  rewrite ?restring_value_at.
  destruct (value_at toks n ";"); cbn [negb]; [auto | raised].
Qed.

Lemma restring_parse_loop (steps depth pos : nat)
    (vars : dict ConfigValue) (u : unit) (p : nat)
    (vars' : dict ConfigValue) :
  parse_loop steps depth toks pos vars = (Ok u, p, vars') ->
  parse_loop steps depth toks' pos vars = (Ok u, p, vars').
Proof.
  revert pos vars.
  induction steps as [|n IH]; intros pos vars; [discriminate |].
  cbn [parse_loop].
  destruct (nth_error toks pos) as [t|] eqn:Ht.
  - destruct (restring_nth_cases _ _ Ht)
      as [-> | (c & line & Hc & -> & ->)]; [| apply IH].
    destruct t as [x l | [] s l]; try apply IH.
    destruct (parse_var_declaration depth toks pos vars)
      as [[[[]|e|] n'] vars1] eqn:E; try discriminate.
    rewrite (restring_var_declaration _ _ _ _ _ _ E). apply IH.
  - pose proof (restring_nth pos) as H. rewrite Ht in H. rewrite H. auto.
Qed.

(** The parsing stage accepts [toks'] whenever it accepts [toks], with
    the same variables. *)
Lemma restring_parse_tokens (vars : dict ConfigValue) (u : unit)
    (p : nat) (vars' : dict ConfigValue) :
  parse_tokens toks vars = (Ok u, p, vars') ->
  parse_tokens toks' vars = (Ok u, p, vars').
Proof.
  unfold parse_tokens, parse_bound. rewrite restring_length.
  apply restring_parse_loop.
Qed.

End Restring.

(** ** The substitution stage *)

Lemma raises_only_bind {A B : Type} (P : exn -> Prop) (r : outcome A)
    (k : A -> outcome B) :
  raises_only P r -> (forall a, raises_only P (k a)) ->
  raises_only P (bind r k).
Proof. destruct r as [a|e|]; simpl; auto. Qed.

Lemma raises_only_map_result {A B : Type} (P : exn -> Prop)
    (f : A -> outcome B) (l : list A) :
  (forall x, In x l -> raises_only P (f x)) ->
  raises_only P (map_result f l).
Proof.
  induction l as [|x l IH]; intros H; cbn [map_result]; [exact I |].
  apply raises_only_bind; [apply H; now left |].
  intros y. apply raises_only_bind; [| intros ys; exact I].
  apply IH. intros z Hz. apply H. now right.
Qed.

(** A comprehension that returns has a value for every element. *)
Lemma map_result_ok {A B : Type} (f : A -> outcome B) (l : list A)
    (ys : list B) :
  map_result f l = Ok ys -> forall x, In x l -> exists y, f x = Ok y.
Proof.
  revert ys. induction l as [|a l IH]; intros ys H x Hx; [destruct Hx |].
  cbn [map_result] in H.
  destruct (f a) as [b|e|] eqn:Hfa; cbn [bind] in H; try discriminate.
  destruct (map_result f l) as [bs|e|] eqn:Hl; cbn [bind] in H;
    try discriminate.
  destruct Hx as [<- | Hx]; [eauto | exact (IH bs eq_refl x Hx)].
Qed.

(** [get_string_value] raises nothing but [RecursionError]. *)
Lemma get_string_value_raises (depth : nat) (variables : dict ConfigValue)
    (value : ConfigValue) :
  raises_only (fun e => e = RecursionError)
    (get_string_value depth variables value).
Proof.
  revert value. induction depth as [|d IH]; intros value;
    [reflexivity |].
  destruct value as [x | s hv | values | items | name];
    cbn [get_string_value]; try exact I.
  - apply raises_only_bind; [| intros; exact I].
    apply raises_only_map_result. intros v _. apply IH.
  - apply raises_only_bind; [| intros; exact I].
    apply raises_only_map_result. intros kv _.
    apply raises_only_bind; [apply IH | intros; exact I].
  - destruct (dict_get name variables); [apply IH | exact I].
Qed.

Lemma substitute_matches_raises (depth : nat)
    (variables : dict ConfigValue) (matches : list string) (text : string) :
  raises_only (resolution_error variables)
    (substitute_matches depth variables matches text).
Proof.
  revert text. induction matches as [|x rest IH]; intros text;
    cbn [substitute_matches]; [exact I |].
  destruct (contains "." x) eqn:Hdot; [exact Hdot |].
  destruct (full_identifier x) eqn:Hid; cbn [negb]; [| exact Hid].
  destruct (dict_get x variables) as [v|] eqn:Hx; [| exact Hx].
  apply raises_only_bind; [| intros; apply IH].
  pose proof (get_string_value_raises depth variables v) as H.
  destruct (get_string_value depth variables v); cbn in *;
    [exact I | now subst | assumption].
Qed.

(** [substitute_vars_in_value] raises nothing but the exceptions of
    [resolution_error]. *)
Lemma substitute_raises (depth : nat) (variables : dict ConfigValue)
    (value : ConfigValue) :
  raises_only (resolution_error variables)
    (substitute_vars_in_value depth variables value).
Proof.
  revert value. induction depth as [|d IH]; intros value; [exact I |].
  destruct value as [x | s hv | values | items | name];
    cbn [substitute_vars_in_value]; try exact I.
  - destruct hv; [| exact I].
    apply raises_only_bind; [| intros; exact I].
    apply substitute_matches_raises.
  - apply raises_only_bind; [| intros; exact I].
    apply raises_only_map_result. intros v _. apply IH.
  - apply raises_only_bind; [| intros; exact I].
    apply raises_only_map_result. intros kv _.
    apply raises_only_bind; [apply IH | intros; exact I].
  - destruct (contains "." name) eqn:Hdot; [exact Hdot |].
    destruct (full_identifier name) eqn:Hid; cbn [negb]; [| exact Hid].
    destruct (dict_get name variables) as [v|] eqn:Hx;
      [apply IH | exact Hx].
Qed.

(** The loop over the matches does not return when one of the captured
    names cannot be resolved. *)
Lemma substitute_matches_fails (depth : nat)
    (variables : dict ConfigValue) (x : string) (matches : list string)
    (text r : string) :
  In x matches -> unresolvable variables x ->
  substitute_matches depth variables matches text <> Ok r.
Proof.
  intros Hin Hx. revert text.
  induction matches as [|y rest IH]; intros text; [destruct Hin |].
  cbn [substitute_matches].
  destruct (contains "." y) eqn:Hdot; [discriminate |].
  destruct (full_identifier y) eqn:Hid; cbn [negb]; [| discriminate].
  destruct (dict_get y variables) as [v|] eqn:Hy; [| discriminate].
  destruct Hin as [-> | Hin].
  - destruct Hx as [H | [H | H]]; congruence.
  - destruct (get_string_value depth variables v); cbn [bind];
      [apply (IH Hin) | discriminate | discriminate].
Qed.

(** [substitute_vars_in_value] does not return on a value that refers
    to a name it cannot resolve. *)
Lemma substitute_fails (variables : dict ConfigValue) (x : string)
    (value : ConfigValue) :
  refers_to x value -> unresolvable variables x ->
  forall (depth : nat) (r : ConfigValue),
    substitute_vars_in_value depth variables value <> Ok r.
Proof.
  intros Href Hx.
  induction Href as [| s Hin | values v Hin Href IH | items k v Hin Href IH];
    intros [|d] r; try discriminate; cbn [substitute_vars_in_value].
  - destruct (contains "." x) eqn:Hdot; [discriminate |].
    destruct (full_identifier x) eqn:Hid; cbn [negb]; [| discriminate].
    destruct (dict_get x variables) as [v|] eqn:Hv; [| discriminate].
    destruct Hx as [H | [H | H]]; congruence.
  - pose proof (substitute_matches_fails d variables x (findall s) s) as H.
    destruct (substitute_matches d variables (findall s) s) as [t|e|];
      cbn [bind]; [| discriminate | discriminate].
    exfalso. exact (H t Hin Hx eq_refl).
  - destruct (map_result (substitute_vars_in_value d variables) values)
      as [vs|e|] eqn:Hmap; cbn [bind]; [| discriminate | discriminate].
    exfalso. destruct (map_result_ok _ _ _ Hmap v Hin) as [y Hy].
    exact (IH d y Hy).
  - match goal with
    | |- bind (map_result ?f items) _ <> _ =>
        destruct (map_result f items) as [vs|e|] eqn:Hmap; cbn [bind];
          [| discriminate | discriminate];
        destruct (map_result_ok _ _ _ Hmap (k, v) Hin) as [y Hy]
    end.
    exfalso. cbn [snd fst] in Hy.
    destruct (substitute_vars_in_value d variables v) as [w|e|] eqn:Hw;
      [exact (IH d w Hw) | discriminate | discriminate].
Qed.

Lemma resolution_error_keys (d d' : dict ConfigValue) (e : exn) :
  dict_keys d = dict_keys d' ->
  resolution_error d e -> resolution_error d' e.
Proof.
  intros Hk. destruct e as [[] | x | |]; cbn [resolution_error]; auto.
  rewrite !dict_get_none. now rewrite Hk.
Qed.

Lemma unresolvable_keys (d d' : dict ConfigValue) (x : string) :
  dict_keys d = dict_keys d' -> unresolvable d x -> unresolvable d' x.
Proof.
  intros Hk [H | [H | H]]; [now left | now right; left |].
  right; right. revert H. rewrite !dict_get_none. now rewrite Hk.
Qed.

(** The loop over the variables raises when a variable that it has not
    yet passed refers to a name that cannot be resolved. *)
Lemma process_items_fails (depth : nat) (x k : string) (v : ConfigValue)
    (j n i : nat) (variables : dict ConfigValue) :
  NoDup (dict_keys variables) ->
  nth_error variables j = Some (k, v) ->
  i <= j < i + n ->
  refers_to x v -> unresolvable variables x ->
  exists e,
    fst (process_items n i depth variables) = Raise e
    /\ resolution_error variables e.
Proof.
  intros Hnd Hj Hrange Href Hx. revert i variables Hnd Hj Hrange Hx.
  induction n as [|n IH]; intros i variables Hnd Hj Hrange Hx; [lia |].
  cbn [process_items].
  destruct (nth_error variables i) as [[ki vi]|] eqn:Hi.
  2:{ exfalso. apply nth_error_None in Hi.
      assert (j < List.length variables)
        by (apply nth_error_Some; congruence).
      lia. }
  pose proof (substitute_raises depth variables vi) as Hsound.
  destruct (substitute_vars_in_value depth variables vi) as [v'|e|] eqn:Hs;
    cbn [raises_only] in Hsound;
    [| exists e; split; [reflexivity | exact Hsound] | contradiction].
  destruct (Nat.eq_dec i j) as [-> | Hij].
  - exfalso. rewrite Hj in Hi. injection Hi as <- <-.
    exact (substitute_fails variables x v Href Hx depth v' Hs).
  - assert (Hkeys : dict_keys (dict_set ki v' variables) = dict_keys variables)
      by (apply dict_keys_set_present; exact (nth_key_in _ _ _ _ Hi)).
    destruct (IH (S i) (dict_set ki v' variables)) as (e & He & Herr).
    + rewrite Hkeys. exact Hnd.
    + rewrite (dict_set_nth_other ki v' vi variables i j Hnd Hi);
        [exact Hj | congruence].
    + lia.
    + apply (unresolvable_keys variables); [now symmetry | exact Hx].
    + exists e. split; [exact He |].
      now apply (resolution_error_keys (dict_set ki v' variables)).
Qed.

Lemma process_fails (depth : nat) (x k : string) (v : ConfigValue)
    (variables : dict ConfigValue) :
  NoDup (dict_keys variables) ->
  dict_get k variables = Some v ->
  refers_to x v -> unresolvable variables x ->
  exists e,
    fst (process_variable_substitution depth variables) = Raise e
    /\ resolution_error variables e.
Proof.
  intros Hnd Hk Href Hx.
  destruct (dict_get_nth k v variables Hk) as [j Hj].
  apply (process_items_fails depth x k v j); auto.
  assert (j < List.length variables) by (apply nth_error_Some; congruence).
  lia.
Qed.

Lemma process_items_ends (n i depth : nat) (variables : dict ConfigValue) :
  fst (process_items n i depth variables) <> Timeout.
Proof.
  revert i variables. induction n as [|n IH]; intros i variables;
    [discriminate |].
  cbn [process_items].
  destruct (nth_error variables i) as [[k v]|]; [| discriminate].
  pose proof (substitute_raises depth variables v) as H.
  destruct (substitute_vars_in_value depth variables v);
    [apply IH | discriminate | contradiction].
Qed.

(** ** The variables after parsing *)

Lemma parse_var_declaration_nodup (depth : nat) (toks : list token)
    (pos : nat) (variables : dict ConfigValue) :
  NoDup (dict_keys variables) ->
  NoDup (dict_keys (snd (parse_var_declaration depth toks pos variables))).
Proof.
  intros Hnd. unfold parse_var_declaration.
  repeat match goal with
         | |- context [match ?x with _ => _ end] => destruct x
         end;
    cbn [snd]; auto using dict_set_nodup.
Qed.

Lemma parse_loop_nodup (steps depth : nat) (toks : list token) (pos : nat)
    (variables : dict ConfigValue) :
  NoDup (dict_keys variables) ->
  NoDup (dict_keys (snd (parse_loop steps depth toks pos variables))).
Proof.
  revert pos variables.
  induction steps as [|n IH]; intros pos variables Hnd; [exact Hnd |].
  cbn [parse_loop].
  destruct (nth_error toks pos) as [[x l | [] s l]|]; auto.
  pose proof (parse_var_declaration_nodup depth toks pos variables Hnd) as H.
  destruct (parse_var_declaration depth toks pos variables)
    as [[[u|e|] p] vars']; cbn [snd] in *; auto.
Qed.

Lemma parse_tokens_nodup (toks : list token) (r : outcome unit) (p : nat)
    (variables : dict ConfigValue) :
  parse_tokens toks [] = (r, p, variables) -> NoDup (dict_keys variables).
Proof.
  intros H.
  pose proof (parse_loop_nodup (parse_bound toks) (parse_bound toks) toks 0
                [] (NoDup_nil _)) as Hnd.
  unfold parse_tokens in H. now rewrite H in Hnd.
Qed.

(** The pipeline on a text that lexes and parses: what is left is the
    substitution and the conversion. *)
Lemma pipeline_after_parsing (limit : nat) (text : string)
    (toks : list token) (line p : nat) (vars : dict ConfigValue)
    (u : unit) :
  tokenize 1 text = (Ok toks, line) ->
  parse_tokens toks [] = (Ok u, p, vars) ->
  parse_config_to_json limit text
  = match process_variable_substitution limit vars with
    | (Ok _, vars') => Ok (convert_variables vars')
    | (Raise e, _) => Raise e
    | (Timeout, _) => Timeout
    end.
Proof.
  intros Htok Hparse.
  unfold parse_config_to_json, parse.
  cbn [current_line variables new_parser]. rewrite Htok, Hparse.
  destruct (process_variable_substitution limit vars) as [[?|?|] ?];
    reflexivity.
Qed.

(** A reference that cannot be resolved, in the value a variable has
    after parsing, makes the pipeline raise. *)
Lemma unresolved_reference_raises (limit : nat) (text : string)
    (toks : list token) (line p : nat) (variables : dict ConfigValue)
    (k x : string) (v : ConfigValue) :
  tokenize 1 text = (Ok toks, line) ->
  parse_tokens toks [] = (Ok tt, p, variables) ->
  dict_get k variables = Some v ->
  refers_to x v -> unresolvable variables x ->
  exists e,
    parse_config_to_json limit text = Raise e
    /\ resolution_error variables e.
Proof.
  intros Htok Hparse Hk Href Hx.
  rewrite (pipeline_after_parsing limit text toks line p variables tt
             Htok Hparse).
  destruct (process_fails limit x k v variables
              (parse_tokens_nodup _ _ _ _ Hparse) Hk Href Hx)
    as (e & He & Herr).
  exists e. split; [| exact Herr].
  destruct (process_variable_substitution limit variables) as [r vars'].
  cbn [fst] in He. now subst r.
Qed.

(** The first reference of a value decides the exception when it cannot
    be resolved. *)
Lemma substitute_leading_undeclared (depth : nat)
    (variables : dict ConfigValue) (x : string) (v : ConfigValue) :
  leading_reference x v ->
  contains "." x = false -> full_identifier x = true ->
  dict_get x variables = None ->
  substitute_vars_in_value (S depth) variables v = Raise (NameError x).
Proof.
  intros Hlead Hdot Hid Hx.
  destruct v as [y | s [] | values | items | y]; try contradiction;
    cbn [leading_reference] in Hlead; cbn [substitute_vars_in_value].
  - destruct Hlead as [rest ->]. cbn [substitute_matches].
    now rewrite Hdot, Hid, Hx.
  - subst y. now rewrite Hdot, Hid, Hx.
Qed.

Lemma substitute_leading_dotted (depth : nat)
    (variables : dict ConfigValue) (x : string) (v : ConfigValue) :
  leading_reference x v ->
  contains "." x = true ->
  substitute_vars_in_value (S depth) variables v
  = Raise (SyntaxError (NestedReference x)).
Proof.
  intros Hlead Hdot.
  destruct v as [y | s [] | values | items | y]; try contradiction;
    cbn [leading_reference] in Hlead; cbn [substitute_vars_in_value].
  - destruct Hlead as [rest ->]. cbn [substitute_matches].
    now rewrite Hdot.
  - subst y. now rewrite Hdot.
Qed.

(** The pipeline raises what the substitution raises on the value of
    the first variable. *)
Lemma first_variable_raises (limit : nat) (text : string)
    (toks : list token) (line p : nat) (k : string) (v : ConfigValue)
    (rest : dict ConfigValue) (e : exn) :
  tokenize 1 text = (Ok toks, line) ->
  parse_tokens toks [] = (Ok tt, p, (k, v) :: rest) ->
  substitute_vars_in_value limit ((k, v) :: rest) v = Raise e ->
  parse_config_to_json limit text = Raise e.
Proof.
  intros Htok Hparse Hs.
  rewrite (pipeline_after_parsing limit text toks line p _ tt Htok Hparse).
  unfold process_variable_substitution.
  cbn [List.length process_items nth_error]. now rewrite Hs.
Qed.

(** [parse] always returns a mapping or raises: none of the bounds of the
    embedding is reached. *)
Theorem parse_ends_properly (limit : nat) (self : ConfigParser)
    (text : string) :
  fst (parse limit self text) <> Timeout.
Proof.
  unfold parse.
  pose proof (tokenize_total (current_line self) text) as Hlex.
  destruct (tokenize (current_line self) text) as [[toks|e|] line];
    cbn [fst] in *; [| discriminate | contradiction].
  pose proof (parse_tokens_ends toks (variables self)) as Hparse.
  destruct (parse_tokens toks (variables self)) as [[[u|e|] p] vars];
    cbn [fst] in *; [| discriminate | contradiction].
  pose proof (process_items_ends (List.length vars) 0 limit vars) as Hsub.
  unfold process_variable_substitution.
  destruct (process_items (List.length vars) 0 limit vars) as [[u'|e|] vars'];
    cbn [fst] in *; [discriminate | discriminate | contradiction].
Qed.

(** ** No reference value is returned *)

Lemma map_result_forallb {A B : Type} (f : A -> outcome B) (P : B -> bool)
    (l : list A) (ys : list B) :
  (forall x y, f x = Ok y -> P y = true) ->
  map_result f l = Ok ys -> forallb P ys = true.
Proof.
  intros Hf. revert ys.
  induction l as [|a l IH]; intros ys H; cbn [map_result] in H.
  - injection H as <-. reflexivity.
  - destruct (f a) as [b|e|] eqn:Hfa; cbn [bind] in H; try discriminate.
    destruct (map_result f l) as [bs|e|] eqn:Hl; cbn [bind] in H;
      try discriminate.
    injection H as <-. cbn [forallb].
    now rewrite (Hf a b Hfa), (IH bs eq_refl).
Qed.

(** What [substitute_vars_in_value] returns holds no reference value. *)
Lemma substitute_resolved (depth : nat) (variables : dict ConfigValue)
    (value v' : ConfigValue) :
  substitute_vars_in_value depth variables value = Ok v' ->
  resolved v' = true.
Proof.
  revert value v'. induction depth as [|d IH]; intros value v' H;
    [discriminate |].
  destruct value as [x | s hv | values | items | name];
    cbn [substitute_vars_in_value] in H.
  - injection H as <-. reflexivity.
  - destruct hv; [| injection H as <-; reflexivity].
    destruct (substitute_matches d variables (findall s) s);
      cbn [bind] in H; try discriminate.
    injection H as <-. reflexivity.
  - destruct (map_result (substitute_vars_in_value d variables) values)
      as [vs|e|] eqn:Hmap; cbn [bind] in H; try discriminate.
    injection H as <-. cbn [resolved].
    apply (map_result_forallb _ _ _ _ (fun x y => IH x y) Hmap).
  - match type of H with
    | bind (map_result ?f items) _ = _ =>
        destruct (map_result f items) as [l|e|] eqn:Hmap; cbn [bind] in H;
          try discriminate
    end.
    injection H as <-. cbn [resolved].
    apply dict_of_items_forallb.
    refine (map_result_forallb _
              (fun kv => match kv with (_, w) => resolved w end)
              _ _ _ Hmap).
    intros [k v] [k' w] Hkv. cbn [snd fst] in Hkv.
    destruct (substitute_vars_in_value d variables v) as [w0|e|] eqn:Hv;
      cbn [bind] in Hkv; try discriminate.
    injection Hkv as _ <-. exact (IH v w0 Hv).
  - destruct (contains "." name); [discriminate |].
    destruct (full_identifier name); cbn [negb] in H; [| discriminate].
    destruct (dict_get name variables) as [v|]; [| discriminate].
    exact (IH v v' H).
Qed.

(** [convert_value] turns a value without reference values into a plain
    Python value. *)
Lemma convert_plain (v : ConfigValue) :
  resolved v = true -> plain (convert_value v) = true.
Proof.
  revert v. fix IH 1.
  intros [x | s hv | values | items | name]; cbn [resolved convert_value plain];
    try reflexivity; try discriminate.
  - induction values as [|v vs IHvs]; cbn [forallb map]; [reflexivity |].
    intros H. apply andb_true_iff in H as [Hv Hvs].
    now rewrite (IH v Hv), (IHvs Hvs).
  - intros H. apply dict_of_items_forallb.
    induction items as [|[k v] its IHits]; cbn [forallb map] in *;
      [reflexivity |].
    apply andb_true_iff in H as [Hv Hits].
    now rewrite (IH v Hv), (IHits Hits).
Qed.

Lemma convert_variables_plain (variables : dict ConfigValue) :
  forallb (fun kv => match kv with (_, w) => resolved w end) variables = true ->
  forallb (fun kv => match kv with (_, w) => plain w end)
    (convert_variables variables) = true.
Proof.
  unfold convert_variables.
  assert (H : forall acc : dict py_value,
             forallb (fun kv => match kv with (_, w) => plain w end) acc = true ->
             forallb (fun kv => match kv with (_, w) => resolved w end)
               variables = true ->
             forallb (fun kv => match kv with (_, w) => plain w end)
               (fold_left
                  (fun result nv =>
                     dict_set (fst nv) (convert_value (snd nv)) result)
                  variables acc)
             = true).
  { induction variables as [|[k v] vars IH]; intros acc Hacc Hvars;
      cbn [fold_left]; [exact Hacc |].
    cbn [forallb] in Hvars. apply andb_true_iff in Hvars as [Hv Hvars].
    apply IH; [| exact Hvars].
    apply dict_set_forallb; [exact Hacc | now apply convert_plain]. }
  apply H. reflexivity.
Qed.

(** When the loop over the variables returns, every variable has been
    given a value without reference values. *)
Lemma process_items_resolved (depth n i : nat)
    (variables vars' : dict ConfigValue) (u : unit) :
  NoDup (dict_keys variables) ->
  (forall j k v, j < i -> nth_error variables j = Some (k, v) ->
                 resolved v = true) ->
  List.length variables <= i + n ->
  process_items n i depth variables = (Ok u, vars') ->
  forallb (fun kv => match kv with (_, w) => resolved w end) vars' = true.
Proof.
  revert i variables.
  induction n as [|n IH]; intros i variables Hnd Hdone Hlen H;
    cbn [process_items] in H.
  - injection H as _ <-. apply forallb_nth. intros j [k v] Hj.
    apply (Hdone j k v); [| exact Hj].
    assert (j < List.length variables) by (apply nth_error_Some; congruence).
    lia.
  - destruct (nth_error variables i) as [[ki vi]|] eqn:Hi.
    + destruct (substitute_vars_in_value depth variables vi) as [v'|e|] eqn:Hs;
        try discriminate.
      pose proof (nth_key_in _ _ _ _ Hi) as Hin.
      apply (IH (S i) (dict_set ki v' variables)); [| | | exact H].
      * rewrite (dict_keys_set_present ki v' variables Hin). exact Hnd.
      * intros j k v Hj Hjv.
        destruct (Nat.eq_dec j i) as [-> | Hne].
        -- rewrite (dict_set_nth_same ki v' vi variables i Hnd Hi) in Hjv.
           injection Hjv as _ <-. exact (substitute_resolved _ _ _ _ Hs).
        -- rewrite (dict_set_nth_other ki v' vi variables i j Hnd Hi Hne)
             in Hjv.
           apply (Hdone j k v); [lia | exact Hjv].
      * rewrite (dict_set_length_present ki v' variables Hin). lia.
    + injection H as _ <-. apply forallb_nth. intros j [k v] Hj.
      apply (Hdone j k v); [| exact Hj].
      apply nth_error_None in Hi.
      assert (j < List.length variables) by (apply nth_error_Some; congruence).
      lia.
Qed.

(** X16.  The mapping that the pipeline returns holds plain Python values
    only, floats, strings, lists and dicts at every depth: no
    [VarRefValue] object is in it, so that the last [return value] of
    [convert_value] never hands out an object of the parser. *)
Theorem no_reference_value_returned (limit : nat) (text : string)
    (m : dict py_value) :
  parse_config_to_json limit text = Ok m ->
  forallb (fun kv => match kv with (_, w) => plain w end) m = true.
Proof.
  unfold parse_config_to_json, parse. cbn [current_line variables new_parser].
  destruct (tokenize 1 text) as [[toks|e|] line]; try discriminate.
  destruct (parse_tokens toks []) as [[[u|e|] p] vars] eqn:Hparse;
    try discriminate.
  destruct (process_variable_substitution limit vars) as [[u'|e|] vars']
    eqn:Hsub; try discriminate.
  cbn [fst]. intros H; injection H as <-.
  apply convert_variables_plain.
  apply (process_items_resolved limit (List.length vars) 0 vars vars' u');
    [exact (parse_tokens_nodup _ _ _ _ Hparse) | intros; lia | lia
    | exact Hsub].
Qed.

(** ** The lexer at a dotted reference *)

Lemma lexer_reaches_loop (st st' : string * nat * list token) :
  lexer_reaches st st' ->
  exists m, forall n,
    tokenize_loop (m + n) (fst (fst st)) (snd (fst st)) (snd st)
    = tokenize_loop n (fst (fst st')) (snd (fst st')) (snd st').
Proof.
  induction 1 as [st | text line toks text' line' toks' st Hstep Hreach IH].
  - exists 0. reflexivity.
  - destruct IH as [m IH]. exists (S m). intros n.
    cbn [fst snd plus] in *.
    rewrite (tokenize_loop_step _ _ _ _ _ _ _ Hstep). apply IH.
Qed.

(** When the loop of the lexer comes to a dollar, an identifier and a
    point, it raises on the point. *)
Lemma tokenize_dotted_reference (text name rest : string)
    (line0 line : nat) (toks : list token) :
  lexer_reaches (text, line0, []) ("$" ++ name ++ "." ++ rest, line, toks) ->
  identifier name = true ->
  tokenize line0 text
  = (Raise (SyntaxError (UnknownCharacter "." line)), line).
Proof.
  intros Hreach Hid.
  destruct (lexer_reaches_loop _ _ Hreach) as [m Hm].
  cbn [fst snd] in Hm.
  apply tokenize_from_loop with (n := m + 3); [| discriminate].
  rewrite Hm. cbn [append].
  erewrite tokenize_loop_step by reflexivity.
  erewrite tokenize_loop_step
    by (apply tokenize_step_word; [assumption | reflexivity]).
  apply tokenize_loop_stop. reflexivity.
Qed.

(** ** The keys of the variables in the substitution stage *)

Lemma process_items_keys (n i depth : nat) (vars : dict ConfigValue) :
  dict_keys (snd (process_items n i depth vars)) = dict_keys vars.
Proof.
  revert i vars. induction n as [|n IH]; intros i vars; [reflexivity |].
  cbn [process_items].
  destruct (nth_error vars i) as [[k v]|] eqn:Hi; [| reflexivity].
  destruct (substitute_vars_in_value depth vars v) as [v'|e|];
    [| reflexivity | reflexivity].
  rewrite IH. apply dict_keys_set_present. exact (nth_key_in _ _ _ _ Hi).
Qed.

Lemma process_items_raises (n i depth : nat) (vars : dict ConfigValue) :
  raises_only (resolution_error vars) (fst (process_items n i depth vars)).
Proof.
  revert i vars. induction n as [|n IH]; intros i vars; [exact I |].
  cbn [process_items].
  destruct (nth_error vars i) as [[k v]|] eqn:Hi; [| exact I].
  pose proof (substitute_raises depth vars v) as Hsound.
  destruct (substitute_vars_in_value depth vars v) as [v'|e|];
    [| exact Hsound | exact Hsound].
  specialize (IH (S i) (dict_set k v' vars)).
  destruct (fst (process_items n (S i) depth (dict_set k v' vars)))
    as [u|e|]; cbn [raises_only] in *; [exact I | | exact IH].
  apply (resolution_error_keys (dict_set k v' vars)); [| exact IH].
  apply dict_keys_set_present. exact (nth_key_in _ _ _ _ Hi).
Qed.

(** ** The first failure of the substitution *)

Lemma map_result_first_raise {A B : Type} (f : A -> outcome B)
    (before : list A) (x : A) (after : list A) (e : exn) :
  Forall (fun a => exists b, f a = Ok b) before -> f x = Raise e ->
  map_result f (before ++ x :: after) = Raise e.
Proof.
  intros Hbefore Hx.
  induction Hbefore as [|a l [b Hb] _ IH]; cbn [app map_result].
  - now rewrite Hx.
  - rewrite Hb. cbn [bind]. now rewrite IH.
Qed.

Lemma map_result_raise_first {A B : Type} (f : A -> outcome B)
    (l : list A) (e : exn) :
  map_result f l = Raise e ->
  exists before x after,
    l = (before ++ x :: after)%list
    /\ Forall (fun a => exists b, f a = Ok b) before
    /\ f x = Raise e.
Proof.
  induction l as [|a l IH]; cbn [map_result]; [discriminate |].
  destruct (f a) as [b|e'|] eqn:Ha; cbn [bind].
  - destruct (map_result f l) as [bs|e'|]; cbn [bind]; try discriminate.
    intros H; injection H as ->.
    destruct (IH eq_refl) as (before & x & after & -> & Hbefore & Hx).
    exists (a :: before), x, after.
    split; [reflexivity | split; [| exact Hx]].
    constructor; [now exists b | exact Hbefore].
  - intros H; injection H as ->. exists [], a, l.
    split; [reflexivity | split; [constructor | exact Ha]].
  - discriminate.
Qed.

Lemma substitute_matches_first (depth : nat) (variables : dict ConfigValue)
    (before : list string) (name : string) (after : list string) (e : exn) :
  Forall (span_resolves depth variables) before ->
  name_failure variables name e
  \/ (exists v, name_bound variables name v
                /\ get_string_value depth variables v = Raise e) ->
  forall result,
    substitute_matches depth variables (before ++ name :: after) result
    = Raise e.
Proof.
  intros Hbefore Hname.
  induction Hbefore as [|y l (v & text & (Hdot & Hid & Hget) & Htext) _ IH];
    intros result; cbn [app substitute_matches].
  - destruct Hname as [Hfail | (v & (Hdot & Hid & Hget) & Hv)].
    + unfold name_failure in Hfail.
      destruct (contains "." name); [now subst e |].
      destruct (negb (full_identifier name)); [now subst e |].
      destruct Hfail as [-> ->]. reflexivity.
    + rewrite Hdot, Hid, Hget. cbn [negb]. now rewrite Hv.
  - rewrite Hdot, Hid, Hget. cbn [negb]. rewrite Htext. cbn [bind].
    apply IH.
Qed.

Lemma substitute_matches_raise_first (depth : nat)
    (variables : dict ConfigValue) (matches : list string) (result : string)
    (e : exn) :
  substitute_matches depth variables matches result = Raise e ->
  exists before name after,
    matches = (before ++ name :: after)%list
    /\ Forall (span_resolves depth variables) before
    /\ (name_failure variables name e
        \/ exists v, name_bound variables name v
                     /\ get_string_value depth variables v = Raise e).
Proof.
  revert result.
  induction matches as [|y rest IH]; intros result; cbn [substitute_matches];
    [discriminate |].
  destruct (contains "." y) eqn:Hdot.
  { intros H; injection H as <-. exists [], y, rest.
    split; [reflexivity | split; [constructor | left]].
    unfold name_failure. now rewrite Hdot. }
  destruct (full_identifier y) eqn:Hid; cbn [negb].
  2:{ intros H; injection H as <-. exists [], y, rest.
      split; [reflexivity | split; [constructor | left]].
      unfold name_failure. now rewrite Hdot, Hid. }
  destruct (dict_get y variables) as [v|] eqn:Hget.
  2:{ intros H; injection H as <-. exists [], y, rest.
      split; [reflexivity | split; [constructor | left]].
      unfold name_failure. now rewrite Hdot, Hid, Hget. }
  destruct (get_string_value depth variables v) as [text|e'|] eqn:Hv;
    cbn [bind]; [| | discriminate].
  - intros H.
    destruct (IH _ H) as (before & name & after & -> & Hbefore & Hname).
    exists (y :: before), name, after.
    split; [reflexivity | split; [| exact Hname]].
    constructor; [| exact Hbefore].
    exists v, text. now repeat split.
  - intros H; injection H as ->. exists [], y, rest.
    split; [reflexivity | split; [constructor | right]].
    exists v. now repeat split.
Qed.

(** The substitution raises the exception of the first failure on its
    way through the value. *)
Lemma first_failure_raises (variables : dict ConfigValue) (depth : nat)
    (value : ConfigValue) (e : exn) :
  first_failure variables depth value e ->
  substitute_vars_in_value depth variables value = Raise e.
Proof.
  induction 1 as [value
                 | d name e Hname
                 | d name v e (Hdot & Hid & Hget) _ IH
                 | d s before name after e Hs Hbefore Hname
                 | d s before name after v e Hs Hbefore Hbound Hv
                 | d before v after e Hbefore _ IH
                 | d before k v after e Hbefore _ IH];
    cbn [substitute_vars_in_value].
  - reflexivity.
  - unfold name_failure in Hname.
    destruct (contains "." name); [now subst e |].
    destruct (negb (full_identifier name)); [now subst e |].
    destruct Hname as [-> ->]. reflexivity.
  - rewrite Hdot, Hid, Hget. cbn [negb]. exact IH.
  - rewrite Hs, (substitute_matches_first d variables before name after e);
      auto.
  - rewrite Hs, (substitute_matches_first d variables before name after e);
      eauto.
  - rewrite (map_result_first_raise _ before v after e Hbefore IH).
    reflexivity.
  - rewrite (map_result_first_raise _ before (k, v) after e).
    + reflexivity.
    + eapply Forall_impl; [| exact Hbefore].
      intros kv [r Hr]. rewrite Hr. cbn [bind]. eauto.
    + cbn [snd]. now rewrite IH.
Qed.

(** Whatever the substitution raises is the first failure on its way. *)
Lemma raises_first_failure (variables : dict ConfigValue) (depth : nat)
    (value : ConfigValue) (e : exn) :
  substitute_vars_in_value depth variables value = Raise e ->
  first_failure variables depth value e.
Proof.
  revert value e. induction depth as [|d IH]; intros value e H.
  - injection H as <-. constructor.
  - destruct value as [x | s hv | values | items | name];
      cbn [substitute_vars_in_value] in H.
    + discriminate.
    + destruct hv; [| discriminate].
      destruct (substitute_matches d variables (findall s) s) as [t|e'|]
        eqn:Hm; cbn [bind] in H; try discriminate.
      injection H as ->.
      destruct (substitute_matches_raise_first _ _ _ _ _ Hm)
        as (before & name & after & Hs & Hbefore
            & [Hname | (v & Hbound & Hv)]).
      * exact (failure_span_name _ d s before name after e Hs Hbefore Hname).
      * exact (failure_span_value _ d s before name after v e Hs Hbefore
                 Hbound Hv).
    + destruct (map_result (substitute_vars_in_value d variables) values)
        as [vs|e'|] eqn:Hm; cbn [bind] in H; try discriminate.
      injection H as ->.
      destruct (map_result_raise_first _ _ _ Hm)
        as (before & v & after & -> & Hbefore & Hv).
      apply failure_element; [exact Hbefore | exact (IH v e Hv)].
    + match type of H with
      | bind (map_result ?f items) _ = _ =>
          destruct (map_result f items) as [l|e'|] eqn:Hm; cbn [bind] in H;
            try discriminate
      end.
      injection H as ->.
      destruct (map_result_raise_first _ _ _ Hm)
        as (before & [k v] & after & -> & Hbefore & Hv).
      cbn [snd fst] in Hv.
      destruct (substitute_vars_in_value d variables v) as [w|e'|] eqn:Hw;
        cbn [bind] in Hv; try discriminate.
      injection Hv as ->.
      apply failure_item; [| exact (IH v e Hw)].
      eapply Forall_impl; [| exact Hbefore].
      intros kv [b Hb].
      destruct (substitute_vars_in_value d variables (snd kv)) as [w|e'|];
        cbn [bind] in Hb; try discriminate. now exists w.
    + destruct (contains "." name) eqn:Hdot.
      { injection H as <-. apply failure_reference_name.
        unfold name_failure. now rewrite Hdot. }
      destruct (full_identifier name) eqn:Hid; cbn [negb] in H.
      2:{ injection H as <-. apply failure_reference_name.
          unfold name_failure. now rewrite Hdot, Hid. }
      destruct (dict_get name variables) as [v|] eqn:Hget.
      * apply (failure_reference_value _ d name v e);
          [now repeat split | exact (IH v e H)].
      * injection H as <-. apply failure_reference_name.
        unfold name_failure. now rewrite Hdot, Hid, Hget.
Qed.

Lemma process_items_length (n i depth : nat) (vars : dict ConfigValue) :
  List.length (snd (process_items n i depth vars)) = List.length vars.
Proof.
  revert i vars. induction n as [|n IH]; intros i vars; [reflexivity |].
  cbn [process_items].
  destruct (nth_error vars i) as [[k v]|] eqn:Hi; [| reflexivity].
  destruct (substitute_vars_in_value depth vars v) as [v'|e|];
    [| reflexivity | reflexivity].
  rewrite IH. apply dict_set_length_present. exact (nth_key_in _ _ _ _ Hi).
Qed.

(** The loop over the variables raises what the substitution raises on
    the first variable that it does not pass. *)
Lemma process_items_reaches (depth j : nat) :
  forall (i n : nat) (vars vars_j : dict ConfigValue) (k : string)
         (v : ConfigValue) (e : exn),
    process_items j i depth vars = (Ok tt, vars_j) ->
    nth_error vars_j (i + j) = Some (k, v) ->
    substitute_vars_in_value depth vars_j v = Raise e ->
    j < n ->
    fst (process_items n i depth vars) = Raise e.
Proof.
  induction j as [|j IH]; intros i n vars vars_j k v e Hrun Hnth Hv Hn;
    (destruct n as [|n]; [lia |]); cbn [process_items] in *.
  - injection Hrun as <-. rewrite Nat.add_0_r in Hnth.
    now rewrite Hnth, Hv.
  - destruct (nth_error vars i) as [[k0 v0]|] eqn:Hi.
    + destruct (substitute_vars_in_value depth vars v0) as [v'|e'|];
        try discriminate Hrun.
      apply (IH (S i) n _ vars_j k v e Hrun); [| exact Hv | lia].
      now rewrite Nat.add_succ_l, <- Nat.add_succ_r.
    + exfalso. injection Hrun as <-. apply nth_error_None in Hi.
      assert (i + S j < List.length vars)
        by (apply nth_error_Some; congruence).
      lia.
Qed.

Lemma process_items_raise_reached (depth n : nat) :
  forall (i : nat) (vars : dict ConfigValue) (e : exn),
    fst (process_items n i depth vars) = Raise e ->
    exists j vars_j k v,
      process_items j i depth vars = (Ok tt, vars_j)
      /\ nth_error vars_j (i + j) = Some (k, v)
      /\ substitute_vars_in_value depth vars_j v = Raise e.
Proof.
  induction n as [|n IH]; intros i vars e H; cbn [process_items] in H;
    [discriminate |].
  destruct (nth_error vars i) as [[k0 v0]|] eqn:Hi; [| discriminate].
  destruct (substitute_vars_in_value depth vars v0) as [v'|e'|] eqn:Hv0;
    [| | discriminate].
  - destruct (IH (S i) _ e H) as (j & vars_j & k & v & Hrun & Hnth & Hv).
    exists (S j), vars_j, k, v. cbn [process_items].
    rewrite Hi, Hv0. split; [exact Hrun | split; [| exact Hv]].
    now rewrite Nat.add_succ_r, <- Nat.add_succ_l.
  - injection H as ->. exists 0, vars, k0, v0.
    rewrite Nat.add_0_r. now repeat split.
Qed.

(** The substitution stage raises [e] exactly when the loop passes
    some variables and the substitution then comes to the first failure
    [e] in the value of the next one. *)
Lemma substitution_first_failure (limit : nat) (vars : dict ConfigValue)
    (e : exn) :
  fst (process_variable_substitution limit vars) = Raise e
  <-> exists j vars_j k v,
        process_items j 0 limit vars = (Ok tt, vars_j)
        /\ nth_error vars_j j = Some (k, v)
        /\ first_failure vars_j limit v e.
Proof.
  unfold process_variable_substitution. split.
  - intros H.
    destruct (process_items_raise_reached _ _ _ _ _ H)
      as (j & vars_j & k & v & Hrun & Hnth & Hv).
    exists j, vars_j, k, v.
    split; [exact Hrun | split; [exact Hnth |]].
    now apply raises_first_failure.
  - intros (j & vars_j & k & v & Hrun & Hnth & Hfail).
    apply (process_items_reaches limit j 0 _ vars vars_j k v e Hrun);
      [exact Hnth | now apply first_failure_raises |].
    pose proof (process_items_length j 0 limit vars) as Hlen.
    rewrite Hrun in Hlen. cbn [snd] in Hlen. rewrite <- Hlen.
    apply nth_error_Some. congruence.
Qed.

(** ** The program on explicit inputs *)

(** C2.  Reference resolution on the two inputs of the specification:
    in [var a = @"X"; var b = @"$a$";] the variable [b] becomes the
    string [X], and in [var n = 5.0; var m = $n$;] the variable [m]
    becomes the float [float("5.0")] itself, not a string.  Two nested
    calls of the substitution are enough. *)
Theorem reference_resolution_examples (limit : nat) :
  2 <= limit ->
  parse_config_to_json limit
    ("var a = " ++ str_lit "X" ++ "; var b = " ++ str_lit "$a$" ++ ";")
  = Ok [("a", PyStr "X"); ("b", PyStr "X")]
  /\
  parse_config_to_json limit "var n = 5.0; var m = $n$;"
  = Ok [("n", PyFloat (py_float "5.0")); ("m", PyFloat (py_float "5.0"))].
Proof.
  intros Hlimit.
  destruct limit as [|[|limit]]; [lia | lia |].
  split; vm_compute; reflexivity.
Qed.

(** C3.  A declaration [var name = lit;] whose value is a literal of the
    shape sign, digits, point, digits binds [name] to the float
    [float(lit)]; a declaration [var name = ds;] whose value is a bare
    run of digits makes the pipeline raise [SyntaxError], whatever text
    follows. *)
Theorem number_literals (limit : nat) (name sg ip fp ds rest : string) :
  1 <= limit ->
  identifier name = true -> keyword name = false ->
  sign sg = true -> digits ip = true -> digits fp = true ->
  digits ds = true ->
  parse_config_to_json limit
    ("var " ++ name ++ " = " ++ (sg ++ ip ++ "." ++ fp) ++ ";")
  = Ok [(name, PyFloat (py_float (sg ++ ip ++ "." ++ fp)))]
  /\
  exists m,
    parse_config_to_json limit ("var " ++ name ++ " = " ++ ds ++ ";" ++ rest)
    = Raise (SyntaxError m).
Proof.
  intros Hlimit Hid Hkw Hsg Hip Hfp Hds. split.
  - assert (Hnum : match_number ((sg ++ ip ++ "." ++ fp) ++ ";")
                   = Some (sg ++ ip ++ "." ++ fp))
      by (apply match_number_literal; auto; reflexivity).
    generalize dependent (sg ++ ip ++ "." ++ fp). intros num Hnum.
    unfold parse_config_to_json, parse. cbn [current_line new_parser].
    rewrite (tokenize_number_declaration 1 name num Hid Hkw Hnum).
    destruct limit as [|limit]; [lia |].
    change (parse_tokens _ (variables new_parser))
      with (Ok tt, 5, [(name, NumberValue (py_float num))]).
    cbv iota beta.
    unfold process_variable_substitution.
    cbn [List.length process_items nth_error substitute_vars_in_value
         dict_set].
    rewrite String.eqb_refl. reflexivity.
  - destruct ds as [|d ds]; [discriminate |].
    exists (UnknownCharacter d 1).
    unfold parse_config_to_json, parse. cbn [current_line new_parser].
    rewrite (tokenize_integer_declaration 1 name rest d ds Hid Hkw Hds).
    reflexivity.
Qed.

(** C1.  On [var a = @"$b$"; var b = @"$c$"; var c = @"X";] the pipeline
    returns a mapping in which [a] is the text [$c$]: the reference to
    [b] was replaced by the text of [b] as it stood, with its own span
    unresolved.  The same three variables declared in the opposite order,
    and the reference to [b] written as a value instead of inside a
    string, both give [X]. *)
Theorem later_string_left_unresolved (limit : nat) :
  3 <= limit ->
  parse_config_to_json limit
    ("var a = " ++ str_lit "$b$" ++ "; var b = " ++ str_lit "$c$"
     ++ "; var c = " ++ str_lit "X" ++ ";")
  = Ok [("a", PyStr "$c$"); ("b", PyStr "X"); ("c", PyStr "X")]
  /\
  parse_config_to_json limit
    ("var c = " ++ str_lit "X" ++ "; var b = " ++ str_lit "$c$"
     ++ "; var a = " ++ str_lit "$b$" ++ ";")
  = Ok [("c", PyStr "X"); ("b", PyStr "X"); ("a", PyStr "X")]
  /\
  parse_config_to_json limit
    ("var a = $b$; var b = " ++ str_lit "$c$"
     ++ "; var c = " ++ str_lit "X" ++ ";")
  = Ok [("a", PyStr "X"); ("b", PyStr "X"); ("c", PyStr "X")].
Proof.
  intros Hlimit.
  destruct limit as [|[|[|limit]]]; [lia | lia | lia |].
  split; [| split]; vm_compute; reflexivity.
Qed.

(** C4, as amended.  Take a text that lexes and parses.  If the value
    that a variable has after parsing refers to a name that no variable
    has, the pipeline raises, and what it raises is an exception of the
    substitution stage.  Which one, is decided by the first failure on
    the way of the substitution: the variables in the order of the
    table, and in the value of a variable the way of [first_failure].
    The stage raises [NameError] for [x] when it passes some variables
    and the first failure in the value of the next one is the
    undeclared name [x], and only then.  So [NameError] is raised for an
    undeclared name in the first or in a later variable, in a list or in
    a table, unless a name with a point, a name that is no identifier or
    the end of the recursion limit comes before it on the way. *)
Theorem undeclared_reference_raises :
  (forall (limit : nat) (text : string) (toks : list token) (line p : nat)
          (vars : dict ConfigValue) (k x : string) (v : ConfigValue),
      tokenize 1 text = (Ok toks, line) ->
      parse_tokens toks [] = (Ok tt, p, vars) ->
      dict_get k vars = Some v ->
      refers_to x v ->
      dict_get x vars = None ->
      exists e,
        parse_config_to_json limit text = Raise e
        /\ resolution_error vars e)
  /\
  (forall (limit : nat) (vars : dict ConfigValue) (j : nat)
          (vars_j : dict ConfigValue) (k : string) (v : ConfigValue)
          (x : string),
      process_items j 0 limit vars = (Ok tt, vars_j) ->
      nth_error vars_j j = Some (k, v) ->
      first_failure vars_j limit v (NameError x) ->
      fst (process_variable_substitution limit vars) = Raise (NameError x))
  /\
  (forall (limit : nat) (vars : dict ConfigValue) (x : string),
      fst (process_variable_substitution limit vars) = Raise (NameError x) ->
      dict_get x vars = None
      /\ exists j vars_j k v,
           process_items j 0 limit vars = (Ok tt, vars_j)
           /\ nth_error vars_j j = Some (k, v)
           /\ first_failure vars_j limit v (NameError x))
  /\
  (forall limit : nat,
      1 <= limit ->
      parse_config_to_json limit "var a = $x$;" = Raise (NameError "x")
      /\ parse_config_to_json limit
           ("var msg = " ++ str_lit "Hello, $undefined$" ++ ";")
         = Raise (NameError "undefined")
      /\ parse_config_to_json limit "var a = 1.0; var b = $x$;"
         = Raise (NameError "x"))
  /\
  (forall limit : nat,
      2 <= limit ->
      parse_config_to_json limit "var l = list($x$);" = Raise (NameError "x")
      /\ parse_config_to_json limit
           ("var t = table([k = " ++ str_lit "$x$" ++ "]);")
         = Raise (NameError "x")).
Proof.
  split; [| split; [| split; [| split]]].
  - intros limit text toks line p vars k x v Htok Hparse Hk Href Hx.
    apply (unresolved_reference_raises limit text toks line p vars k x v);
      auto.
    right; right; exact Hx.
  - intros limit vars j vars_j k v x Hrun Hnth Hfail.
    apply substitution_first_failure. now exists j, vars_j, k, v.
  - intros limit vars x H. split.
    + pose proof (process_items_raises (List.length vars) 0 limit vars)
        as Hsound.
      unfold process_variable_substitution in H. rewrite H in Hsound.
      exact Hsound.
    + now apply substitution_first_failure.
  - intros limit Hlimit. destruct limit as [|limit]; [lia |].
    split; [| split]; vm_compute; reflexivity.
  - intros limit Hlimit. destruct limit as [|[|limit]]; [lia | lia |].
    split; vm_compute; reflexivity.
Qed.

(** C5, as amended.  A dotted reference met by the lexer, that is a
    dollar, an identifier and a point at the head of an iteration, makes
    the pipeline raise [SyntaxError] for the point, whatever the
    variables are.  In a text that lexes and parses, a dotted name that
    the value of a variable refers to after parsing makes the pipeline
    raise an exception of the substitution stage.  Which one, is decided
    by the first failure on the way of the substitution: the stage
    raises the [SyntaxError] for the nested reference [x] when it passes
    some variables and the first failure in the value of the next one is
    the name [x] with its point, and only then.  So that [SyntaxError] is
    raised for a dotted span in the first or in a later variable, in a
    list or in a table, unless an undeclared name, a name without point
    that is no identifier or the end of the recursion limit comes before
    it on the way.  With [a] declared as a table with the key [b],
    [$a.b$] raises the first error as a value and the second inside a
    string. *)
Theorem dotted_reference_raises :
  (forall (limit : nat) (text name rest : string) (line : nat)
          (toks : list token),
      lexer_reaches (text, 1, []) ("$" ++ name ++ "." ++ rest, line, toks) ->
      identifier name = true ->
      parse_config_to_json limit text
      = Raise (SyntaxError (UnknownCharacter "." line)))
  /\
  (forall (limit : nat) (text : string) (toks : list token) (line p : nat)
          (vars : dict ConfigValue) (k x : string) (v : ConfigValue),
      tokenize 1 text = (Ok toks, line) ->
      parse_tokens toks [] = (Ok tt, p, vars) ->
      dict_get k vars = Some v ->
      refers_to x v ->
      contains "." x = true ->
      exists e,
        parse_config_to_json limit text = Raise e
        /\ resolution_error vars e)
  /\
  (forall (limit : nat) (vars : dict ConfigValue) (j : nat)
          (vars_j : dict ConfigValue) (k : string) (v : ConfigValue)
          (x : string),
      process_items j 0 limit vars = (Ok tt, vars_j) ->
      nth_error vars_j j = Some (k, v) ->
      first_failure vars_j limit v (SyntaxError (NestedReference x)) ->
      fst (process_variable_substitution limit vars)
      = Raise (SyntaxError (NestedReference x)))
  /\
  (forall (limit : nat) (vars : dict ConfigValue) (x : string),
      fst (process_variable_substitution limit vars)
      = Raise (SyntaxError (NestedReference x)) ->
      contains "." x = true
      /\ exists j vars_j k v,
           process_items j 0 limit vars = (Ok tt, vars_j)
           /\ nth_error vars_j j = Some (k, v)
           /\ first_failure vars_j limit v (SyntaxError (NestedReference x)))
  /\
  (forall limit : nat,
      2 <= limit ->
      parse_config_to_json limit "var a = table([b = 1.0]); var x = $a.b$;"
      = Raise (SyntaxError (UnknownCharacter "." 1))
      /\ parse_config_to_json limit
           ("var a = table([b = 1.0]); var s = " ++ str_lit "$a.b$" ++ ";")
         = Raise (SyntaxError (NestedReference "a.b"))
      /\ parse_config_to_json limit
           ("var l = list(1.0, " ++ str_lit "$a.b$" ++ ");")
         = Raise (SyntaxError (NestedReference "a.b"))
      /\ parse_config_to_json limit
           ("var t = table([k = " ++ str_lit "see $a.b$" ++ "]);")
         = Raise (SyntaxError (NestedReference "a.b"))).
Proof.
  split; [| split; [| split; [| split]]].
  - intros limit text name rest line toks Hreach Hid.
    unfold parse_config_to_json, parse.
    cbn [current_line new_parser].
    now rewrite (tokenize_dotted_reference text name rest 1 line toks
                   Hreach Hid).
  - intros limit text toks line p vars k x v Htok Hparse Hk Href Hdot.
    apply (unresolved_reference_raises limit text toks line p vars k x v);
      auto.
    left; exact Hdot.
  - intros limit vars j vars_j k v x Hrun Hnth Hfail.
    apply substitution_first_failure. now exists j, vars_j, k, v.
  - intros limit vars x H. split.
    + pose proof (process_items_raises (List.length vars) 0 limit vars)
        as Hsound.
      unfold process_variable_substitution in H. rewrite H in Hsound.
      exact Hsound.
    + now apply substitution_first_failure.
  - intros limit Hlimit. destruct limit as [|[|limit]]; [lia | lia |].
    split; [| split; [| split]]; vm_compute; reflexivity.
Qed.

(** C6, as amended.  A trailing comma inside a list is accepted.  In the
    loop of [parse_list], when an element is followed by a comma and the
    comma by a closing parenthesis, the loop ends at the parenthesis
    with the elements read so far; [var l = list(1.0,);] binds [l] to
    the list of the single float. *)
Theorem trailing_comma_accepted :
  (forall (depth : nat) (toks : list token) (pos p : nat)
          (values : list ConfigValue) (v : ConfigValue),
      other_at toks pos ")" = true ->
      parse_value (S depth) toks pos = (Ok v, p) ->
      value_at toks p "," = true ->
      value_at toks (S p) ")" = true ->
      parse_list_loop (S (S depth)) toks pos values
      = (Ok (values ++ [v])%list, S p))
  /\
  (forall limit : nat,
      2 <= limit ->
      parse_config_to_json limit "var l = list(1.0,);"
      = Ok [("l", PyList [PyFloat (py_float "1.0")])]).
Proof.
  split.
  - intros depth toks pos p values v Hother Hvalue Hcomma Hclose.
    change (parse_list_loop (S (S depth)) toks pos values)
      with (if other_at toks pos ")" then
              match parse_value (S depth) toks pos with
              | (Ok value, pos) =>
                  if value_at toks pos "," then
                    parse_list_loop (S depth) toks (S pos)
                      (values ++ [value])%list
                  else if other_at toks pos ")" then
                    (raise_at toks pos ExpectedCommaOrClose, pos)
                  else parse_list_loop (S depth) toks pos
                         (values ++ [value])%list
              | (Raise e, pos) => (Raise e, pos)
              | (Timeout, pos) => (Timeout, pos)
              end
            else (Ok values, pos)).
    rewrite Hother, Hvalue, Hcomma.
    cbn [parse_list_loop].
    unfold other_at, value_at in *.
    destruct (nth_error toks (S p)) as [t|]; [| discriminate].
    now rewrite Hclose.
  - intros limit Hlimit. destruct limit as [|[|limit]]; [lia | lia |].
    vm_compute. reflexivity.
Qed.

(** C7.  After [table([]] the parser moves past the next token without
    looking at it: [var t = table([];;] is accepted and binds [t] to the
    empty dict, and [var t = table([]], where that token is missing,
    raises [IndexError] from the message of the error for the missing
    semicolon.  A table with an entry does check the closing
    parenthesis. *)
Theorem empty_table_close_unchecked (limit : nat) :
  1 <= limit ->
  parse_config_to_json limit "var t = table([];;" = Ok [("t", PyDict [])]
  /\ parse_config_to_json limit "var t = table([]" = Raise IndexError
  /\ parse_config_to_json limit "var t = table([a = 1.0];;"
     = Raise (SyntaxError (ExpectedClose 1)).
Proof.
  intros Hlimit. destruct limit as [|limit]; [lia |].
  split; [| split]; vm_compute; reflexivity.
Qed.

(** C8.  A string-literal token whose text is one of [=], [;], [(], [)],
    [[], []] is accepted where the parser asks for that punctuation:
    when the parsing stage accepts a token list, it accepts every list
    obtained by putting such string tokens in the place of punctuation
    tokens, with the same variables; and [var x = 1.0 @";"] binds [x] to
    the float. *)
Theorem string_token_accepted_as_punctuation :
  (forall (toks toks' : list token) (vars vars' : dict ConfigValue)
          (p : nat),
      Forall2 restring toks toks' ->
      parse_tokens toks vars = (Ok tt, p, vars') ->
      parse_tokens toks' vars = (Ok tt, p, vars'))
  /\
  (forall limit : nat,
      1 <= limit ->
      parse_config_to_json limit ("var x = 1.0 " ++ str_lit ";")
      = Ok [("x", PyFloat (py_float "1.0"))]).
Proof.
  split.
  - intros toks toks' vars vars' p Hre Hparse.
    now apply (restring_parse_tokens toks toks' Hre).
  - intros limit Hlimit. destruct limit as [|limit]; [lia |].
    vm_compute. reflexivity.
Qed.

(** C9.  The line counter does not count the newlines inside a block
    comment or inside a string literal.  With a two-line block comment,
    or a string literal with a newline, before [var x = 1.0] on the
    third line, the error for the missing semicolon names line 2; with
    two plain newlines before it, line 3. *)
Theorem newlines_in_comment_and_string_not_counted (limit : nat) :
  parse_config_to_json limit
    ("{{!" ++ nl ++ "!}}" ++ nl ++ "var x = 1.0")
  = Raise (SyntaxError (ExpectedSemicolon 2))
  /\
  parse_config_to_json limit
    ("var s = " ++ str_lit ("a" ++ nl ++ "b") ++ ";" ++ nl ++ "var x = 1.0")
  = Raise (SyntaxError (ExpectedSemicolon 2))
  /\
  parse_config_to_json limit (nl ++ nl ++ "var x = 1.0")
  = Raise (SyntaxError (ExpectedSemicolon 3)).
Proof. split; [| split]; vm_compute; reflexivity. Qed.

(** C10, as amended.  Of the attributes of the parser object, [parse]
    sets [self.tokens] and [self.pos] anew and keeps [self.variables]
    and [self.current_line].  So an object with no variables and with
    the line counter at 1 gives on every text what a new object gives,
    whatever tokens and position an earlier call has left in it; and
    the variables of an earlier call stay: on one object,
    [parse("var a = 1.0;")] followed by [parse("var b = 2.0;")] returns
    for the second call a mapping with both [a] and [b], where a new
    parser returns [b] alone. *)
Theorem parser_object_keeps_variables :
  (forall (limit : nat) (self : ConfigParser) (text : string),
      variables self = [] -> current_line self = 1 ->
      fst (parse limit self text) = parse_config_to_json limit text)
  /\
  (forall limit : nat,
      1 <= limit ->
      fst (parse limit (snd (parse limit new_parser "var a = 1.0;"))
             "var b = 2.0;")
      = Ok [("a", PyFloat (py_float "1.0")); ("b", PyFloat (py_float "2.0"))]
      /\
      fst (parse limit new_parser "var b = 2.0;")
      = Ok [("b", PyFloat (py_float "2.0"))]).
Proof.
  split.
  - intros limit self text Hvars Hline.
    unfold parse_config_to_json, parse.
    cbn [variables current_line new_parser]. rewrite Hvars, Hline.
    destruct (tokenize 1 text) as [[toks|e|] line]; reflexivity.
  - intros limit Hlimit. destruct limit as [|limit]; [lia |].
    split; vm_compute; reflexivity.
Qed.

(** * Further properties *)

(** ** What the lexer raises *)

Lemma match_identifier_none (c : ascii) (rest : string) :
  match_identifier (String c rest) = None -> is_alpha c = false.
Proof.
  unfold match_identifier. destruct (is_alpha c); [discriminate | reflexivity].
Qed.

Lemma tokenize_loop_raises (n : nat) (text : string) (line : nat)
    (toks : list token) (e : exn) (line' : nat) :
  tokenize_loop n text line toks = (Raise e, line') ->
  e = SyntaxError (UnterminatedString line')
  \/ exists c,
       e = SyntaxError (UnknownCharacter c line')
       /\ isspace c = false /\ is_alpha c = false
       /\ contains c "()[],=$;" = false.
Proof.
  revert text line toks.
  induction n as [|n IH]; intros text line toks H; [discriminate |].
  cbn [tokenize_loop] in H.
  destruct (tokenize_step text line toks) as [t l k | r l] eqn:Hstep;
    [exact (IH _ _ _ H) |].
  injection H as -> ->.
  unfold tokenize_step in Hstep.
  destruct text as [|c rest]; [discriminate |].
  destruct (isspace c) eqn:Hsp; [discriminate |].
  destruct (starts_with "::" (String c rest));
    [destruct (find nl (String c rest)); discriminate |].
  destruct (starts_with "{{!" (String c rest));
    [destruct (find "!}}" (String c rest)); discriminate |].
  destruct (match_number (String c rest)); [discriminate |].
  destruct (starts_with ("@" ++ q) (String c rest)).
  - destruct (find q (drop 2 (String c rest))); [discriminate |].
    injection Hstep as <- <-. now left.
  - destruct (match_identifier (String c rest)) eqn:Hid; [discriminate |].
    destruct (contains c "()[],=$;") eqn:Hp; [discriminate |].
    injection Hstep as <- <-. right. exists c.
    repeat split; auto. exact (match_identifier_none c rest Hid).
Qed.

(** X1.  [tokenize] raises nothing but two [SyntaxError]s, both with the
    value that the line counter has at that moment: the one for a string
    literal that is not closed, and the one for a character that is no
    whitespace, no letter and no punctuation of the language and starts
    neither a comment nor a number. *)
Theorem tokenize_raises (line : nat) (text : string) (e : exn) (line' : nat) :
  tokenize line text = (Raise e, line') ->
  e = SyntaxError (UnterminatedString line')
  \/ exists c,
       e = SyntaxError (UnknownCharacter c line')
       /\ isspace c = false /\ is_alpha c = false
       /\ contains c "()[],=$;" = false.
Proof. apply tokenize_loop_raises. Qed.

(** ** The tokens of the lexer *)

Lemma span_all (p : ascii -> bool) (s : string) :
  all_chars p (fst (span p s)) = true.
Proof.
  induction s as [|c s IH]; cbn [span]; [reflexivity |].
  destruct (p c) eqn:Hc; [| reflexivity].
  destruct (span p s) as [a b]. cbn [fst all_chars] in *. now rewrite Hc, IH.
Qed.

Lemma match_identifier_shape (s tv : string) :
  match_identifier s = Some tv -> identifier tv = true.
Proof.
  unfold match_identifier. destruct s as [|c s]; [discriminate |].
  destruct (is_alpha c) eqn:Hc; [| discriminate].
  intros H; injection H as <-. cbn [identifier].
  now rewrite Hc, span_all.
Qed.

Lemma starts_with_char (c a : ascii) (s : string) :
  starts_with (String c "") (String a s) = Ascii.eqb c a.
Proof. cbn [starts_with]. now rewrite andb_true_r. Qed.

(** The text in front of the first occurrence of a character does not
    hold the character. *)
Lemma find_char_take (c : ascii) (s : string) (e : nat) :
  find (String c "") s = Some e -> contains c (take e s) = false.
Proof.
  revert e. induction s as [|a s IH]; intros e; cbn [find].
  - cbn [starts_with]. discriminate.
  - rewrite starts_with_char. destruct (Ascii.eqb c a) eqn:Hca.
    + intros H; injection H as <-. reflexivity.
    + destruct (find (String c "") s) as [e'|]; [| discriminate].
      intros H; injection H as <-. cbn [take contains].
      now rewrite Ascii.eqb_sym, Hca, (IH e' eq_refl).
Qed.

Lemma word_type_well_formed (tv : string) (line : nat) :
  identifier tv = true -> well_formed (Tok (word_type tv) tv line) = true.
Proof.
  intros Hid. unfold word_type.
  destruct (String.eqb tv "var") eqn:Hvar; [exact Hvar |].
  destruct (String.eqb tv "list") eqn:Hlist; [exact Hlist |].
  destruct (String.eqb tv "table") eqn:Htable; [exact Htable |].
  cbn [well_formed]. unfold keyword. now rewrite Hid, Hvar, Hlist, Htable.
Qed.

Lemma forallb_snoc {A : Type} (P : A -> bool) (l : list A) (a : A) :
  forallb P l = true -> P a = true -> forallb P (l ++ [a])%list = true.
Proof.
  intros Hl Ha. rewrite forallb_app, Hl. cbn [forallb]. now rewrite Ha.
Qed.

Lemma tokenize_step_well_formed (text : string) (line : nat)
    (toks : list token) (text' : string) (line' : nat) (toks' : list token) :
  tokenize_step text line toks = Continue text' line' toks' ->
  forallb well_formed toks = true -> forallb well_formed toks' = true.
Proof.
  intros Hstep Hwf. unfold tokenize_step in Hstep.
  destruct text as [|c rest]; [discriminate |].
  destruct (isspace c); [now injection Hstep as _ _ <- |].
  destruct (starts_with "::" (String c rest)).
  { destruct (find nl (String c rest)); [| discriminate].
    now injection Hstep as _ _ <-. }
  destruct (starts_with "{{!" (String c rest)).
  { destruct (find "!}}" (String c rest)); [| discriminate].
    now injection Hstep as _ _ <-. }
  destruct (match_number (String c rest)).
  { injection Hstep as _ _ <-. now apply forallb_snoc. }
  destruct (starts_with ("@" ++ q) (String c rest)).
  { destruct (find q (drop 2 (String c rest))) as [e|] eqn:He;
      [| discriminate].
    injection Hstep as _ _ <-. apply forallb_snoc; [exact Hwf |].
    cbn [well_formed]. unfold q in He.
    change (match rest with "" => "" | String _ s' => s' end)
      with (drop 2 (String c rest)).
    now rewrite (find_char_take _ _ _ He). }
  destruct (match_identifier (String c rest)) as [tv|] eqn:Hid.
  { injection Hstep as _ _ <-. apply forallb_snoc; [exact Hwf |].
    apply word_type_well_formed. exact (match_identifier_shape _ _ Hid). }
  destruct (contains c "()[],=$;") eqn:Hp; [| discriminate].
  injection Hstep as _ _ <-. apply forallb_snoc; [exact Hwf |].
  cbn [well_formed]. now rewrite String.eqb_refl, Hp.
Qed.

Lemma tokenize_loop_well_formed (n : nat) (text : string) (line : nat)
    (toks result : list token) (line' : nat) :
  forallb well_formed toks = true ->
  tokenize_loop n text line toks = (Ok result, line') ->
  forallb well_formed result = true.
Proof.
  revert text line toks.
  induction n as [|n IH]; intros text line toks Hwf H; [discriminate |].
  cbn [tokenize_loop] in H.
  destruct (tokenize_step text line toks) as [t l k | r l] eqn:Hstep.
  - apply (IH t l k); [| exact H].
    exact (tokenize_step_well_formed _ _ _ _ _ _ Hstep Hwf).
  - injection H as -> _. unfold tokenize_step in Hstep.
    repeat match type of Hstep with
           | match ?x with _ => _ end = _ => destruct x; try discriminate
           | (if ?x then _ else _) = _ => destruct x; try discriminate
           end;
      injection Hstep as <- _; exact Hwf.
Qed.

(** X2.  Every token that [tokenize] returns is well formed: a string
    token has no double quote in its text, an ['ID'] token is an identifier
    that is no reserved word, the reserved words have their own types, and
    a punctuation token carries one of the characters [()[],=$;]. *)
Theorem tokenize_well_formed (line : nat) (text : string)
    (toks : list token) (line' : nat) :
  tokenize line text = (Ok toks, line') ->
  forallb well_formed toks = true.
Proof. apply tokenize_loop_well_formed. reflexivity. Qed.

Lemma well_formed_point (t : token) :
  well_formed t = true -> value_is t "." = true ->
  exists line, t = Tok STRING "." line.
Proof.
  destruct t as [x l | ty s l]; cbn [value_is]; [discriminate |].
  intros Hwf Hs. apply String.eqb_eq in Hs. subst s.
  destruct ty as [| | | | | c]; cbn [well_formed] in Hwf;
    try discriminate Hwf.
  - now exists l.
  - exfalso. apply andb_true_iff in Hwf as [Hc Hp].
    apply String.eqb_eq in Hc. injection Hc as <-. discriminate Hp.
Qed.

(** X3.  On the tokens of the lexer, the test of [parse_var_reference] for
    a point behind the name of a reference can only succeed at a string
    literal whose text is a point: there is no punctuation token for the
    point. *)
Theorem point_token_is_string_literal (line : nat) (text : string)
    (toks : list token) (line' pos : nat) :
  tokenize line text = (Ok toks, line') ->
  value_at toks pos "." = true ->
  exists l, nth_error toks pos = Some (Tok STRING "." l).
Proof.
  intros Htok Hat.
  apply (tokenize_loop_well_formed _ _ _ [] _ _ eq_refl) in Htok.
  unfold value_at in Hat.
  destruct (nth_error toks pos) as [t|] eqn:Ht; [| discriminate].
  rewrite forallb_forall in Htok.
  destruct (well_formed_point t (Htok t (nth_error_In _ _ Ht)) Hat)
    as [l ->].
  now exists l.
Qed.

(** ** The line counter *)

Lemma count_newlines_drop (k : nat) (s : string) :
  count_newlines (drop k s) <= count_newlines s.
Proof.
  revert s. induction k as [|k IH]; intros [|c s]; cbn [drop count_newlines];
    auto with arith.
  specialize (IH s). lia.
Qed.

Lemma tokenize_step_lines (text : string) (line : nat) (toks : list token)
    (text' : string) (line' : nat) (toks' : list token) :
  tokenize_step text line toks = Continue text' line' toks' ->
  line <= line'
  /\ line' + count_newlines text' <= line + count_newlines text
  /\ (toks' = toks \/ exists t, toks' = (toks ++ [t])%list /\ tok_line t = line).
Proof.
  intros Hstep. unfold tokenize_step in Hstep.
  destruct text as [|c rest]; [discriminate |].
  destruct (isspace c).
  { injection Hstep as <- <- <-. cbn [count_newlines].
    destruct (Ascii.eqb c newline); repeat split; auto; lia. }
  assert (Hdrop : forall k, line + count_newlines (drop k (String c rest))
                            <= line + count_newlines (String c rest)).
  { intros k. pose proof (count_newlines_drop k (String c rest)). lia. }
  destruct (starts_with "::" (String c rest)).
  { destruct (find nl (String c rest)); [| discriminate].
    injection Hstep as <- <- <-. repeat split; auto. }
  destruct (starts_with "{{!" (String c rest)).
  { destruct (find "!}}" (String c rest)); [| discriminate].
    injection Hstep as <- <- <-. repeat split; auto. }
  destruct (match_number (String c rest)).
  { injection Hstep as <- <- <-. repeat split; eauto. }
  destruct (starts_with ("@" ++ q) (String c rest)).
  { assert (Hbody : count_newlines (drop 2 (String c rest))
                    <= count_newlines (String c rest))
      by apply count_newlines_drop.
    set (body := drop 2 (String c rest)) in *.
    destruct (find q body) as [e|]; [| discriminate].
    injection Hstep as <- <- <-. repeat split; eauto.
    pose proof (count_newlines_drop (e + 1) body). lia. }
  destruct (match_identifier (String c rest)).
  { injection Hstep as <- <- <-. repeat split; eauto. }
  destruct (contains c "()[],=$;"); [| discriminate].
  injection Hstep as <- <- <-. repeat split; eauto.
  cbn [count_newlines]. lia.
Qed.

Lemma tokenize_step_stop (text : string) (line : nat) (toks : list token)
    (r : outcome (list token)) (line' : nat) :
  tokenize_step text line toks = Stop r line' ->
  line' = line /\ forall res, r = Ok res -> res = toks.
Proof.
  intros Hstep. unfold tokenize_step in Hstep.
  repeat match type of Hstep with
         | match ?x with _ => _ end = _ => destruct x; try discriminate
         | (if ?x then _ else _) = _ => destruct x; try discriminate
         end;
    injection Hstep as <- <-; split; try reflexivity;
    intros res H; try discriminate H; now injection H as <-.
Qed.

Lemma tokenize_loop_lines (n : nat) (text : string) (lo line : nat)
    (toks : list token) (r : outcome (list token)) (line' : nat) :
  lo <= line ->
  Forall (fun t => lo <= tok_line t <= line) toks ->
  tokenize_loop n text line toks = (r, line') ->
  line <= line' <= line + count_newlines text
  /\ forall res, r = Ok res ->
                 Forall (fun t => lo <= tok_line t <= line') res.
Proof.
  revert text line toks.
  induction n as [|n IH]; intros text line toks Hlo Htoks H.
  - injection H as <- <-. split; [lia | discriminate].
  - cbn [tokenize_loop] in H.
    destruct (tokenize_step text line toks) as [t l k | r0 l] eqn:Hstep.
    + destruct (tokenize_step_lines _ _ _ _ _ _ Hstep) as (Hle & Hcount & Hk).
      assert (Hk' : Forall (fun t => lo <= tok_line t <= l) k).
      { assert (Hweak : Forall (fun t => lo <= tok_line t <= l) toks)
          by (eapply Forall_impl; [| exact Htoks]; cbv beta; intros; lia).
        destruct Hk as [-> | (t0 & -> & Ht0)]; [exact Hweak |].
        apply Forall_app. split; [exact Hweak |].
        constructor; [lia | constructor]. }
      destruct (IH t l k ltac:(lia) Hk' H) as (Hbounds & Hres).
      split; [lia | exact Hres].
    + injection H as <- <-.
      destruct (tokenize_step_stop _ _ _ _ _ Hstep) as (-> & Hres).
      split; [lia |]. intros res Hr. now rewrite (Hres res Hr).
Qed.

(** X4.  The line counter that [tokenize] leaves is at least the one it
    started with and exceeds it by at most the number of newline
    characters of the text; the lines of the tokens lie between the two. *)
Theorem tokenize_lines (line : nat) (text : string)
    (r : outcome (list token)) (line' : nat) :
  tokenize line text = (r, line') ->
  line <= line' <= line + count_newlines text
  /\ forall toks, r = Ok toks ->
                  Forall (fun t => line <= tok_line t <= line') toks.
Proof.
  apply tokenize_loop_lines; [lia | constructor].
Qed.

(** ** Texts without a declaration, reserved words as names *)

Lemma parse_loop_no_var (toks : list token) (steps depth pos : nat)
    (vars : dict ConfigValue) :
  forallb (fun t => negb (is_var t)) toks = true ->
  List.length toks - pos < steps ->
  exists p, parse_loop steps depth toks pos vars = (Ok tt, p, vars).
Proof.
  intros Hno. revert pos.
  induction steps as [|n IH]; intros pos Hsteps; [lia |].
  cbn [parse_loop].
  destruct (nth_error toks pos) as [t|] eqn:Ht; [| now exists pos].
  assert (pos < List.length toks)
    by (apply nth_error_Some; rewrite Ht; discriminate).
  rewrite forallb_forall in Hno.
  pose proof (Hno t (nth_error_In _ _ Ht)) as Hvar.
  destruct t as [x l | [] s l]; try discriminate Hvar; apply IH; lia.
Qed.

(** X5.  Tokens outside a declaration are passed over: when no token of
    the text is the reserved word [var], the pipeline returns the empty
    mapping, whatever the other tokens are. *)
Theorem text_without_var_is_empty (limit : nat) (text : string)
    (toks : list token) (line : nat) :
  tokenize 1 text = (Ok toks, line) ->
  forallb (fun t => negb (is_var t)) toks = true ->
  parse_config_to_json limit text = Ok [].
Proof.
  intros Htok Hno.
  destruct (parse_loop_no_var toks (parse_bound toks) (parse_bound toks) 0 []
              Hno) as [p Hp]; [unfold parse_bound; lia |].
  rewrite (pipeline_after_parsing limit text toks line p [] tt Htok Hp).
  reflexivity.
Qed.

(** The loop of the lexer only adds tokens behind those it has. *)
Lemma tokenize_loop_extends (n : nat) (text : string) (line : nat)
    (toks res : list token) (line' : nat) :
  tokenize_loop n text line toks = (Ok res, line') ->
  exists more, res = (toks ++ more)%list.
Proof.
  revert text line toks.
  induction n as [|n IH]; intros text line toks H; [discriminate |].
  cbn [tokenize_loop] in H.
  destruct (tokenize_step text line toks) as [t l k | r l] eqn:Hstep.
  - destruct (tokenize_step_lines _ _ _ _ _ _ Hstep) as (_ & _ & Hk).
    destruct (IH t l k H) as [more ->].
    destruct Hk as [-> | (t0 & -> & _)]; [now exists more |].
    exists (t0 :: more). now rewrite <- app_assoc.
  - injection H as -> _.
    destruct (tokenize_step_stop _ _ _ _ _ Hstep) as (_ & Hres).
    exists []. rewrite app_nil_r. now apply Hres.
Qed.

Lemma keyword_cases (kw : string) :
  keyword kw = true -> kw = "var" \/ kw = "list" \/ kw = "table".
Proof.
  unfold keyword. intros H.
  destruct (String.eqb_spec kw "var"); [now left |].
  destruct (String.eqb_spec kw "list"); [now right; left |].
  destruct (String.eqb_spec kw "table"); [now right; right | discriminate].
Qed.

(** X6.  A reserved word cannot be the name of a variable: the pipeline
    raises [SyntaxError] on every text that starts with [var] and a
    reserved word, whatever follows the word. *)
Theorem reserved_word_as_name (limit : nat) (kw rest : string) :
  keyword kw = true -> ends_run is_word rest ->
  exists m,
    parse_config_to_json limit ("var " ++ kw ++ rest) = Raise (SyntaxError m).
Proof.
  intros Hkw Hrest.
  assert (Hid : identifier kw = true)
    by (destruct (keyword_cases kw Hkw) as [-> | [-> | ->]]; reflexivity).
  assert (Hty : word_type kw <> ID)
    by (destruct (keyword_cases kw Hkw) as [-> | [-> | ->]]; discriminate).
  set (text := "var " ++ kw ++ rest).
  assert (Hloop : forall n,
             tokenize_loop (3 + n) text 1 []
             = tokenize_loop n rest 1
                 [Tok VAR "var" 1; Tok (word_type kw) kw 1]).
  { intros n. unfold text. cbn [append plus].
    erewrite tokenize_loop_step by reflexivity.
    erewrite tokenize_loop_step by reflexivity.
    erewrite tokenize_loop_step
      by (apply tokenize_step_word; [exact Hid | exact Hrest]).
    reflexivity. }
  assert (Hlen : S (String.length text) = 3 + (String.length text - 2)).
  { unfold text. rewrite length_append. cbn [String.length]. lia. }
  unfold parse_config_to_json, parse. cbn [current_line new_parser].
  unfold tokenize. rewrite Hlen, Hloop.
  pose proof (tokenize_loop_total (S (String.length text)) text 1 []
                ltac:(lia)) as Htotal.
  unfold tokenize in Htotal. rewrite Hlen, Hloop in Htotal.
  destruct (tokenize_loop (String.length text - 2) rest 1
              [Tok VAR "var" 1; Tok (word_type kw) kw 1])
    as [[res|e|] line] eqn:Hres; cbn [fst] in *; [| | contradiction].
  - destruct (tokenize_loop_extends _ _ _ _ _ _ Hres) as [more ->].
    exists (ExpectedVarName 1).
    cbn [app variables]. unfold parse_tokens, parse_bound.
    cbn [List.length Nat.mul Nat.add parse_loop nth_error
         parse_var_declaration].
    destruct (word_type kw); try contradiction; reflexivity.
  - destruct (tokenize_loop_raises _ _ _ _ _ _ Hres)
      as [-> | (c & -> & _)]; eauto.
Qed.

(** ** The substitution stage and the keys of the result *)

(** X7.  Once a text has been lexed and parsed, the pipeline returns a
    mapping or raises one of the exceptions of the substitution:
    [NameError] with a name that no variable has, [SyntaxError] with a
    name that has a point or is no identifier, or [RecursionError]. *)
Theorem substitution_stage_raises (limit : nat) (text : string)
    (toks : list token) (line p : nat) (vars : dict ConfigValue) (u : unit) :
  tokenize 1 text = (Ok toks, line) ->
  parse_tokens toks [] = (Ok u, p, vars) ->
  raises_only (resolution_error vars) (parse_config_to_json limit text).
Proof.
  intros Htok Hparse.
  rewrite (pipeline_after_parsing limit text toks line p vars u Htok Hparse).
  pose proof (process_items_raises (List.length vars) 0 limit vars) as H.
  unfold process_variable_substitution.
  destruct (process_items (List.length vars) 0 limit vars) as [[u'|e|] vars'];
    cbn [fst raises_only] in *; [exact I | exact H | exact H].
Qed.

Lemma dict_keys_set_absent {V : Type} (k : string) (v : V) (d : dict V) :
  ~ In k (dict_keys d) ->
  dict_keys (dict_set k v d) = (dict_keys d ++ [k])%list.
Proof.
  induction d as [|[k0 w0] d IH]; cbn [dict_set dict_keys map fst In app];
    [reflexivity |].
  intros Hnot.
  destruct (String.eqb_spec k0 k) as [-> | Hk0]; [tauto |].
  cbn [map fst]. f_equal. apply IH. tauto.
Qed.

Lemma convert_variables_keys (vars : dict ConfigValue) :
  NoDup (dict_keys vars) ->
  dict_keys (convert_variables vars) = dict_keys vars.
Proof.
  unfold convert_variables.
  assert (H : forall acc : dict py_value,
             NoDup (dict_keys acc ++ dict_keys vars)%list ->
             dict_keys
               (fold_left
                  (fun result nv =>
                     dict_set (fst nv) (convert_value (snd nv)) result)
                  vars acc)
             = (dict_keys acc ++ dict_keys vars)%list).
  { induction vars as [|[k v] vars IH]; intros acc Hnd; cbn [fold_left fst snd].
    - symmetry. apply app_nil_r.
    - change (dict_keys ((k, v) :: vars)) with (k :: dict_keys vars) in *.
      assert (Hk : ~ In k (dict_keys acc)).
      { intros Hin. apply NoDup_remove_2 in Hnd. apply Hnd.
        apply in_or_app. now left. }
      rewrite IH; rewrite (dict_keys_set_absent k _ acc Hk), <- app_assoc;
        [reflexivity | exact Hnd]. }
  intros Hnd. exact (H [] Hnd).
Qed.

(** X8.  The mapping that the pipeline returns has one entry for each
    variable of the table that the parser has built, in the order of the
    table, which has no name twice: the substitution and the conversion
    add no key, drop none and keep the order. *)
Theorem returned_keys (limit : nat) (text : string) (toks : list token)
    (line p : nat) (vars : dict ConfigValue) (u : unit) (m : dict py_value) :
  tokenize 1 text = (Ok toks, line) ->
  parse_tokens toks [] = (Ok u, p, vars) ->
  parse_config_to_json limit text = Ok m ->
  dict_keys m = dict_keys vars /\ NoDup (dict_keys m).
Proof.
  intros Htok Hparse Hm.
  rewrite (pipeline_after_parsing limit text toks line p vars u Htok Hparse)
    in Hm.
  pose proof (parse_tokens_nodup _ _ _ _ Hparse) as Hnd.
  pose proof (process_items_keys (List.length vars) 0 limit vars) as Hkeys.
  unfold process_variable_substitution in Hm.
  destruct (process_items (List.length vars) 0 limit vars) as [[u'|e|] vars'];
    try discriminate Hm.
  injection Hm as <-. cbn [snd] in Hkeys.
  rewrite <- Hkeys in Hnd.
  rewrite (convert_variables_keys vars' Hnd).
  split; [exact Hkeys | exact Hnd].
Qed.

(** ** A variable that refers to itself *)

Lemma word_not_point (c : ascii) : is_word c = true -> Ascii.eqb c "." = false.
Proof. each_char c. Qed.

Lemma word_chars_no_point (s : string) :
  all_chars is_word s = true -> contains "." s = false.
Proof.
  induction s as [|c s IH]; cbn [all_chars contains]; [reflexivity |].
  intros H. apply andb_true_iff in H as [Hc Hs].
  now rewrite (word_not_point c Hc), (IH Hs).
Qed.

Lemma alpha_word (c : ascii) : is_alpha c = true -> is_word c = true.
Proof. unfold is_word. now intros ->. Qed.

Lemma identifier_no_point (name : string) :
  identifier name = true -> contains "." name = false.
Proof.
  destruct name as [|c s]; [discriminate |]. cbn [identifier].
  intros H. apply andb_true_iff in H as [Hc Hs].
  apply (word_chars_no_point (String c s)). cbn [all_chars].
  now rewrite (alpha_word c Hc), Hs.
Qed.

Lemma span_whole (p : ascii -> bool) (s : string) :
  all_chars p s = true -> span p s = (s, "").
Proof.
  induction s as [|c s IH]; cbn [all_chars span]; [reflexivity |].
  intros H. apply andb_true_iff in H as [Hc Hs]. now rewrite Hc, (IH Hs).
Qed.

Lemma identifier_full (name : string) :
  identifier name = true -> full_identifier name = true.
Proof.
  destruct name as [|c s]; [discriminate |].
  cbn [identifier full_identifier].
  intros H. apply andb_true_iff in H as [Hc Hs].
  now rewrite Hc, (span_whole is_word s Hs).
Qed.

(** The tokens of [var name = $name$;]. *)
Lemma tokenize_self_reference (line : nat) (name : string) :
  identifier name = true -> keyword name = false ->
  tokenize line ("var " ++ name ++ " = $" ++ name ++ "$;")
  = (Ok [Tok VAR "var" line; Tok ID name line; Tok (PUNCT "=") "=" line;
         Tok (PUNCT "$") "$" line; Tok ID name line;
         Tok (PUNCT "$") "$" line; Tok (PUNCT ";") ";" line],
     line).
Proof.
  intros Hid Hkw.
  apply tokenize_from_loop with (n := 11); [| discriminate].
  cbn [append].
  erewrite tokenize_loop_step by reflexivity.
  erewrite tokenize_loop_step by reflexivity.
  erewrite tokenize_loop_step
    by (apply tokenize_step_identifier; [assumption | assumption | reflexivity]).
  erewrite tokenize_loop_step by reflexivity.
  erewrite tokenize_loop_step by reflexivity.
  erewrite tokenize_loop_step by reflexivity.
  erewrite tokenize_loop_step by reflexivity.
  erewrite tokenize_loop_step
    by (apply tokenize_step_identifier; [assumption | assumption | reflexivity]).
  erewrite tokenize_loop_step by reflexivity.
  erewrite tokenize_loop_step by reflexivity.
  reflexivity.
Qed.

Lemma substitute_self_reference (depth : nat) (name : string)
    (vars : dict ConfigValue) :
  contains "." name = false -> full_identifier name = true ->
  dict_get name vars = Some (VarRefValue name) ->
  substitute_vars_in_value depth vars (VarRefValue name)
  = Raise RecursionError.
Proof.
  intros Hdot Hid Hget.
  induction depth as [|d IH]; [reflexivity |].
  cbn [substitute_vars_in_value]. now rewrite Hdot, Hid, Hget.
Qed.

(** X9.  A variable whose value is a reference to itself makes the
    pipeline raise [RecursionError], whatever the limit of the recursion
    is: on [var name = $name$;] the substitution follows the reference
    until the limit is used up. *)
Theorem self_reference_raises (limit : nat) (name : string) :
  identifier name = true -> keyword name = false ->
  parse_config_to_json limit ("var " ++ name ++ " = $" ++ name ++ "$;")
  = Raise RecursionError.
Proof.
  intros Hid Hkw.
  unfold parse_config_to_json, parse. cbn [current_line new_parser].
  rewrite (tokenize_self_reference 1 name Hid Hkw).
  change (parse_tokens _ (variables new_parser))
    with (Ok tt, 7, [(name, VarRefValue name)]).
  cbv iota beta.
  unfold process_variable_substitution.
  cbn [List.length process_items nth_error].
  rewrite (substitute_self_reference limit name [(name, VarRefValue name)]
             (identifier_no_point name Hid) (identifier_full name Hid)).
  - reflexivity.
  - cbn [dict_get]. now rewrite String.eqb_refl.
Qed.

(** ** Where [IndexError] can come from *)

Lemma raise_at_in_range {A : Type} (toks : list token) (i : nat)
    (msg : nat -> syntax_msg) :
  i < List.length toks -> @raise_at lib A toks i msg <> Raise IndexError.
Proof.
  intros Hi. unfold raise_at.
  destruct (nth_error toks i) eqn:Hnth; [discriminate |].
  apply nth_error_None in Hnth. lia.
Qed.

Lemma raise_at_raises {A : Type} (toks : list token) (i : nat)
    (msg : nat -> syntax_msg) (a : A) :
  raise_at toks i msg <> Ok a.
Proof. unfold raise_at. destruct (nth_error toks i); discriminate. Qed.

(** A token with the text [s] that is not the last one has a token
    behind it. *)
Lemma last_value_gap (toks : list token) (s : string) (pos : nat) :
  last_value_is toks s = false -> value_at toks pos s = true ->
  S pos < List.length toks.
Proof.
  intros Hlast Hat. pose proof (value_at_lt toks pos s Hat) as Hlt.
  destruct (Nat.eq_dec (S pos) (List.length toks)) as [Heq | Hne]; [| lia].
  exfalso. destruct toks as [|t toks]; [cbn [List.length] in Hlt; lia |].
  unfold last_value_is in Hlast.
  replace (List.length (t :: toks) - 1) with pos in Hlast by lia.
  congruence.
Qed.

(** Collects, for a case of a parsing method, what the tests and the
    calls say about positions: [Hlast] for the closing brackets, the
    lemmas [P] for the progress of the calls and the hypotheses [IH] for
    their results. *)
Ltac bracket_facts toks Hlast :=
  repeat match goal with
         | H : negb _ = false |- _ => apply negb_false_iff in H
         end;
  repeat match goal with
         | H : value_at toks ?x "]" = true |- _ =>
             pose proof (last_value_gap toks "]" x Hlast H);
             apply value_at_lt in H
         end;
  position_facts toks.

Ltac call_fact E IH P :=
  let F := fresh in
  let G := fresh in
  pose proof E as F; apply IH in F; [| lia];
  destruct F as [F G];
  try specialize (G _ eq_refl);
  first [apply P in E | clear E].

Ltac call_facts toks d Pv Pll Ptl Hr IHv IHl IHll IHt IHtl :=
  repeat match goal with
         | E : parse_value d toks _ = _ |- _ => call_fact E IHv Pv
         | E : parse_list_loop d toks _ _ = _ |- _ => call_fact E IHll Pll
         | E : parse_table_loop d toks _ _ = _ |- _ => call_fact E IHtl Ptl
         | E : parse_list d toks _ = _ |- _ => call_fact E IHl Pv
         | E : parse_table d toks _ = _ |- _ => call_fact E IHt Pv
         | E : parse_var_reference toks _ = _ |- _ => call_fact E Hr Pv
         end.

Ltac index_case :=
  first
    [ split; assumption
    | match goal with
      | H : (_, _) = (_, _) |- _ =>
          injection H as <- <-; split;
          [ first [discriminate | assumption | apply raise_at_in_range; lia
                  | let Hc := fresh in
                    intros Hc; injection Hc as ->;
                    match goal with
                    | N : Raise IndexError <> Raise IndexError |- _ =>
                        exact (N eq_refl)
                    end]
          | let Hv := fresh in
            intros ? Hv;
            first [discriminate Hv | lia
                  | exfalso; exact (raise_at_raises _ _ _ _ Hv)] ]
      end ].

Lemma parse_var_reference_index (toks : list token) (pos : nat)
    (r : outcome ConfigValue) (p : nat) :
  pos < List.length toks ->
  parse_var_reference toks pos = (r, p) ->
  r <> Raise IndexError /\ (forall v, r = Ok v -> p <= List.length toks).
Proof.
  intros Hpos H. unfold parse_var_reference in H. split_run H;
    position_facts toks; index_case.
Qed.

(** On a token list whose last token is not a closing bracket, no parsing
    method raises [IndexError], and one that returns a value leaves
    [self.pos] at most at the number of tokens. *)
Lemma parse_index (toks : list token) (depth : nat) :
  last_value_is toks "]" = false ->
  (forall pos r p,
      pos <= List.length toks -> parse_value depth toks pos = (r, p) ->
      r <> Raise IndexError /\ (forall v, r = Ok v -> p <= List.length toks))
  /\ (forall pos r p,
        pos < List.length toks -> parse_list depth toks pos = (r, p) ->
        r <> Raise IndexError
        /\ (forall v, r = Ok v -> p <= List.length toks))
  /\ (forall values pos r p,
        pos <= List.length toks ->
        parse_list_loop depth toks pos values = (r, p) ->
        r <> Raise IndexError
        /\ (forall v, r = Ok v -> p <= List.length toks))
  /\ (forall pos r p,
        pos < List.length toks -> parse_table depth toks pos = (r, p) ->
        r <> Raise IndexError
        /\ (forall v, r = Ok v -> p <= List.length toks))
  /\ (forall items pos r p,
        pos <= List.length toks ->
        parse_table_loop depth toks pos items = (r, p) ->
        r <> Raise IndexError
        /\ (forall v, r = Ok v -> p <= List.length toks)).
Proof.
  intros Hlast.
  induction depth as [|d (IHv & IHl & IHll & IHt & IHtl)].
  - split; [| split; [| split; [| split]]]; intros;
      match goal with
      | H : _ = (_, _) |- _ => cbn in H; injection H as <- <-
      end; (split; [discriminate | intros ? Hv; discriminate Hv]).
  - destruct (parse_progress toks d) as (Pv & _ & Pll & _ & Ptl).
    pose proof (parse_var_reference_index toks) as Hr.
    assert (IHl' : forall pos r p,
               parse_list d toks pos = (r, p) -> pos < List.length toks ->
               r <> Raise IndexError
               /\ (forall v, r = Ok v -> p <= List.length toks))
      by (intros; eapply IHl; eassumption).
    assert (IHt' : forall pos r p,
               parse_table d toks pos = (r, p) -> pos < List.length toks ->
               r <> Raise IndexError
               /\ (forall v, r = Ok v -> p <= List.length toks))
      by (intros; eapply IHt; eassumption).
    assert (Hr' : forall pos r p,
               parse_var_reference toks pos = (r, p) ->
               pos < List.length toks ->
               r <> Raise IndexError
               /\ (forall v, r = Ok v -> p <= List.length toks))
      by (intros; eapply Hr; eassumption).
    assert (IHv' : forall pos r p,
               parse_value d toks pos = (r, p) -> pos <= List.length toks ->
               r <> Raise IndexError
               /\ (forall v, r = Ok v -> p <= List.length toks))
      by (intros; eapply IHv; eassumption).
    assert (IHll' : forall pos values r p,
               parse_list_loop d toks pos values = (r, p) ->
               pos <= List.length toks ->
               r <> Raise IndexError
               /\ (forall v, r = Ok v -> p <= List.length toks))
      by (intros; eapply IHll; eassumption).
    assert (IHtl' : forall pos items r p,
               parse_table_loop d toks pos items = (r, p) ->
               pos <= List.length toks ->
               r <> Raise IndexError
               /\ (forall v, r = Ok v -> p <= List.length toks))
      by (intros; eapply IHtl; eassumption).
    clear IHv IHl IHll IHt IHtl Hr.
    split; [| split; [| split; [| split]]].
    + intros pos r p Hpos H. cbn [parse_value] in H. split_run H;
        bracket_facts toks Hlast;
        call_facts toks d Pv Pll Ptl Hr' IHv' IHl' IHll' IHt' IHtl';
        index_case.
    + intros pos r p Hpos H. cbn [parse_list] in H. split_run H;
        bracket_facts toks Hlast;
        call_facts toks d Pv Pll Ptl Hr' IHv' IHl' IHll' IHt' IHtl';
        index_case.
    + intros values pos r p Hpos H. cbn [parse_list_loop] in H. split_run H;
        bracket_facts toks Hlast;
        call_facts toks d Pv Pll Ptl Hr' IHv' IHl' IHll' IHt' IHtl';
        index_case.
    + intros pos r p Hpos H. cbn [parse_table] in H. split_run H;
        bracket_facts toks Hlast;
        call_facts toks d Pv Pll Ptl Hr' IHv' IHl' IHll' IHt' IHtl';
        index_case.
    + intros items pos r p Hpos H. cbn [parse_table_loop] in H. split_run H;
        bracket_facts toks Hlast;
        call_facts toks d Pv Pll Ptl Hr' IHv' IHl' IHll' IHt' IHtl';
        index_case.
Qed.

Lemma parse_var_declaration_index (depth : nat) (toks : list token)
    (pos : nat) (vars : dict ConfigValue) (r : outcome unit) (p : nat)
    (vars' : dict ConfigValue) :
  last_value_is toks "]" = false ->
  pos < List.length toks ->
  parse_var_declaration depth toks pos vars = (r, p, vars') ->
  r <> Raise IndexError /\ (forall u, r = Ok u -> p <= List.length toks).
Proof.
  intros Hlast Hpos H.
  destruct (parse_progress toks depth) as (Pv & _).
  assert (IHv : forall pos r p,
             parse_value depth toks pos = (r, p) ->
             pos <= List.length toks ->
             r <> Raise IndexError
             /\ (forall v, r = Ok v -> p <= List.length toks))
    by (intros; eapply (proj1 (parse_index toks depth Hlast)); eassumption).
  unfold parse_var_declaration in H.
  repeat match type of H with
         | (if ?b then _ else _) = _ => destruct b eqn:?
         | match ?x with _ => _ end = _ => destruct x eqn:?
         | (match ?x with _ => _ end, _, _) = _ => destruct x eqn:?
         end;
    bracket_facts toks Hlast;
    repeat match goal with
           | E : parse_value depth toks _ = _ |- _ => call_fact E IHv Pv
           end;
    injection H as <- <- <-; split;
    try discriminate; try (apply raise_at_in_range; lia);
    try (intros ? Hu; first [lia | exfalso; exact (raise_at_raises _ _ _ _ Hu)]).
  intros Hc; injection Hc as ->.
  match goal with
  | N : Raise IndexError <> Raise IndexError |- _ => exact (N eq_refl)
  end.
Qed.

Lemma parse_loop_index (steps depth : nat) (toks : list token) (pos : nat)
    (vars : dict ConfigValue) :
  last_value_is toks "]" = false ->
  pos <= List.length toks ->
  fst (fst (parse_loop steps depth toks pos vars)) <> Raise IndexError.
Proof.
  intros Hlast. revert pos vars.
  induction steps as [|n IH]; intros pos vars Hpos; [discriminate |].
  cbn [parse_loop].
  destruct (nth_error toks pos) as [t|] eqn:Ht; [| discriminate].
  assert (pos < List.length toks)
    by (apply nth_error_Some; rewrite Ht; discriminate).
  destruct t as [x l | [] s l]; try (apply IH; lia).
  destruct (parse_var_declaration depth toks pos vars)
    as [[[u|e|] p] vars'] eqn:E;
    destruct (parse_var_declaration_index _ _ _ _ _ _ _ Hlast H E)
      as [Hne Hle]; cbn [fst].
  - apply IH. exact (Hle u eq_refl).
  - exact Hne.
  - discriminate.
Qed.

(** X10.  [parse] raises [IndexError] only on a text that was lexed and
    whose last token has the text of a closing bracket: the parser reads
    past the end of the tokens in no other case. *)
Theorem index_error_needs_final_bracket (limit : nat) (self : ConfigParser)
    (text : string) :
  fst (parse limit self text) = Raise IndexError ->
  exists toks line,
    tokenize (current_line self) text = (Ok toks, line)
    /\ last_value_is toks "]" = true.
Proof.
  unfold parse.
  destruct (tokenize (current_line self) text) as [[toks|e|] line] eqn:Htok.
  - intros H. exists toks, line. split; [reflexivity |].
    destruct (last_value_is toks "]") eqn:Hlast; [reflexivity |].
    exfalso.
    pose proof (parse_loop_index (parse_bound toks) (parse_bound toks) toks 0
                  (variables self) Hlast ltac:(lia)) as Hparse.
    unfold parse_tokens in H.
    destruct (parse_loop (parse_bound toks) (parse_bound toks) toks 0
                (variables self)) as [[[u|e|] p] vars];
      cbn [fst] in *; [| congruence | discriminate H].
    pose proof (process_items_raises (List.length vars) 0 limit vars) as Hsub.
    unfold process_variable_substitution in H.
    destruct (process_items (List.length vars) 0 limit vars)
      as [[u'|e|] vars']; cbn [fst raises_only] in *; try discriminate H.
    injection H as ->. exact Hsub.
  - cbn [fst]. intros H; injection H as ->.
    destruct (tokenize_loop_raises _ _ _ _ _ _ Htok)
      as [Hc | (c & Hc & _)]; discriminate Hc.
  - discriminate.
Qed.

(** ** String literals *)

Lemma find_char_append (c : ascii) (a rest : string) :
  contains c a = false ->
  find (String c "") (a ++ String c rest) = Some (String.length a).
Proof.
  induction a as [|x a IH]; cbn [append contains String.length]; intros Ha.
  - cbn [find]. now rewrite starts_with_char, Ascii.eqb_refl.
  - apply orb_false_iff in Ha as [Hx Ha].
    cbn [find]. rewrite starts_with_char, Ascii.eqb_sym, Hx, (IH Ha).
    reflexivity.
Qed.

Lemma take_append (a b : string) : take (String.length a) (a ++ b) = a.
Proof.
  induction a as [|c a IH]; cbn [String.length append take];
    [reflexivity | now rewrite IH].
Qed.

Lemma drop_append_one (a : string) (c : ascii) (rest : string) :
  drop (String.length a + 1) (a ++ String c rest) = rest.
Proof.
  induction a as [|x a IH]; cbn [String.length append drop plus];
    [reflexivity | exact IH].
Qed.

Lemma tokenize_step_at_quote (tail : string) (line : nat)
    (toks : list token) :
  tokenize_step (String "@" (String dquote tail)) line toks
  = match find q tail with
    | None => Stop (Raise (SyntaxError (UnterminatedString line))) line
    | Some e =>
        Continue (drop (e + 1) tail) line
          (toks ++ [Tok STRING (take e tail) line])
    end.
Proof. reflexivity. Qed.

(** An iteration at a string literal. *)
Lemma tokenize_step_string (body rest : string) (line : nat)
    (toks : list token) :
  contains dquote body = false ->
  tokenize_step (str_lit body ++ rest) line toks
  = Continue rest line (toks ++ [Tok STRING body line]).
Proof.
  intros Hbody. unfold str_lit. rewrite !append_assoc.
  change ("@" ++ q ++ body ++ q ++ rest)
    with (String "@" (String dquote (body ++ String dquote rest))).
  rewrite tokenize_step_at_quote. unfold q.
  rewrite (find_char_append dquote body rest Hbody).
  now rewrite take_append, drop_append_one.
Qed.

(** The tokens of [var name = @"body";]. *)
Lemma tokenize_string_declaration (line : nat) (name body : string) :
  identifier name = true -> keyword name = false ->
  contains dquote body = false ->
  tokenize line ("var " ++ name ++ " = " ++ str_lit body ++ ";")
  = (Ok [Tok VAR "var" line; Tok ID name line; Tok (PUNCT "=") "=" line;
         Tok STRING body line; Tok (PUNCT ";") ";" line],
     line).
Proof.
  intros Hid Hkw Hbody.
  apply tokenize_from_loop with (n := 9); [| discriminate].
  cbn [append].
  erewrite tokenize_loop_step by reflexivity.
  erewrite tokenize_loop_step by reflexivity.
  erewrite tokenize_loop_step
    by (apply tokenize_step_identifier; [assumption | assumption | reflexivity]).
  erewrite tokenize_loop_step by reflexivity.
  erewrite tokenize_loop_step by reflexivity.
  erewrite tokenize_loop_step by reflexivity.
  rewrite (tokenize_loop_step _ _ _ _ _ _ _
             (tokenize_step_string body ";" line _ Hbody)).
  erewrite tokenize_loop_step by reflexivity.
  reflexivity.
Qed.

(** X11.  A string literal comes back as it was written: when [body] has
    no double quote and no span [$...$] that the substitution would take
    for a reference, [var name = @"body";] binds [name] to the string
    [body], whatever else is in it (newlines, comment marks,
    punctuation, single dollars). *)
Theorem string_literal_round_trip (limit : nat) (name body : string) :
  1 <= limit ->
  identifier name = true -> keyword name = false ->
  contains dquote body = false -> findall body = [] ->
  parse_config_to_json limit ("var " ++ name ++ " = " ++ str_lit body ++ ";")
  = Ok [(name, PyStr body)].
Proof.
  intros Hlimit Hid Hkw Hbody Hspans.
  unfold parse_config_to_json, parse. cbn [current_line new_parser].
  rewrite (tokenize_string_declaration 1 name body Hid Hkw Hbody).
  destruct limit as [|limit]; [lia |].
  change (parse_tokens _ (variables new_parser))
    with (Ok tt, 5, [(name, StringValue body (contains "$" body))]).
  cbv iota beta.
  unfold process_variable_substitution.
  cbn [List.length process_items nth_error substitute_vars_in_value].
  rewrite Hspans.
  destruct (contains "$" body); cbn [substitute_matches bind dict_set];
    rewrite String.eqb_refl; reflexivity.
Qed.

(** ** Comments *)

(** [tokenize] after a first iteration that adds no token. *)
Lemma tokenize_after_step (text : string) (line : nat) (text' : string)
    (line' : nat) :
  tokenize_step text line [] = Continue text' line' [] ->
  tokenize line text = tokenize line' text'.
Proof.
  intros Hstep.
  destruct (tokenize line' text') as [r l] eqn:E.
  apply tokenize_from_loop with (n := S (S (String.length text'))).
  - rewrite (tokenize_loop_step _ _ _ _ _ _ _ Hstep). exact E.
  - pose proof (tokenize_total line' text') as Htotal.
    now rewrite E in Htotal.
Qed.

Lemma tokenize_step_at_colons (tail : string) (line : nat)
    (toks : list token) :
  tokenize_step ("::" ++ tail) line toks
  = match find nl ("::" ++ tail) with
    | None => Stop (Ok toks) line
    | Some k => Continue (drop k ("::" ++ tail)) line toks
    end.
Proof. reflexivity. Qed.

Lemma tokenize_step_at_open (tail : string) (line : nat)
    (toks : list token) :
  tokenize_step ("{{!" ++ tail) line toks
  = match find "!}}" ("{{!" ++ tail) with
    | None => Stop (Ok toks) line
    | Some k => Continue (drop (k + 3) ("{{!" ++ tail)) line toks
    end.
Proof. reflexivity. Qed.

(** X12.  A line comment is skipped up to its newline, and that newline
    is counted: the text [::c] followed by a newline and [rest] gives the
    tokens of [rest], lexed from the next line. *)
Theorem line_comment_skipped (line : nat) (c rest : string) :
  contains newline c = false ->
  tokenize line ("::" ++ c ++ nl ++ rest) = tokenize (S line) rest.
Proof.
  intros Hc.
  rewrite (tokenize_after_step ("::" ++ c ++ nl ++ rest) line (nl ++ rest)
             line).
  - apply tokenize_after_step. reflexivity.
  - rewrite tokenize_step_at_colons.
    change ("::" ++ c ++ nl ++ rest)
      with (("::" ++ c) ++ String newline rest).
    unfold nl.
    rewrite (find_char_append newline ("::" ++ c) rest)
      by (cbn [append contains]; rewrite Hc; reflexivity).
    now rewrite drop_append.
Qed.

Lemma starts_with_append (sub s rest : string) :
  starts_with sub s = true -> starts_with sub (s ++ rest) = true.
Proof.
  revert s. induction sub as [|a sub IH]; intros [|b s]; cbn [append];
    try reflexivity; try discriminate.
  rewrite !starts_with_cons. intros H. apply andb_true_iff in H as [Hab Hs].
  now rewrite Hab, (IH s Hs).
Qed.

Lemma starts_with_append_false (sub s rest : string) :
  starts_with sub s = false -> String.length sub <= String.length s ->
  starts_with sub (s ++ rest) = false.
Proof.
  revert s. induction sub as [|a sub IH]; intros [|b s];
    cbn [append String.length]; try discriminate; try lia.
  rewrite !starts_with_cons. intros H Hlen.
  destruct (Ascii.eqb a b); [| reflexivity].
  cbn [andb] in *. apply IH; [exact H | lia].
Qed.

Lemma find_bound (sub s : string) (k : nat) :
  find sub s = Some k -> k + String.length sub <= String.length s.
Proof.
  revert k. induction s as [|c s IH]; intros k; cbn [find].
  - destruct sub as [|a sub]; cbn [starts_with]; [| discriminate].
    intros H; injection H as <-. cbn [String.length]. lia.
  - destruct (starts_with sub (String c s)) eqn:Hs.
    + intros H; injection H as <-. clear IH. revert c s Hs.
      induction sub as [|a sub IHsub]; intros c s Hs;
        cbn [String.length plus]; [lia |].
      rewrite starts_with_cons in Hs. apply andb_true_iff in Hs as [_ Hs].
      destruct s as [|b s]; [destruct sub; [cbn; lia | discriminate Hs] |].
      specialize (IHsub b s Hs). cbn [String.length plus] in *. lia.
    + destruct (find sub s) as [k'|]; [| discriminate].
      intros H; injection H as <-. specialize (IH k' eq_refl).
      cbn [String.length]. lia.
Qed.

(** The first occurrence in a text is the first occurrence in every
    longer text. *)
Lemma find_append (sub a rest : string) (k : nat) :
  find sub a = Some k -> find sub (a ++ rest) = Some k.
Proof.
  revert k. induction a as [|c a IH]; intros k.
  - cbn [find]. destruct (starts_with sub "") eqn:Hs; [| discriminate].
    intros H; injection H as <-.
    destruct sub as [|x sub]; [| discriminate Hs].
    destruct rest; reflexivity.
  - cbn [find append].
    destruct (starts_with sub (String c a)) eqn:Hs.
    + intros H; injection H as <-.
      change (String c (a ++ rest)) with (String c a ++ rest).
      now rewrite (starts_with_append sub (String c a) rest Hs).
    + destruct (find sub a) as [k'|] eqn:Hk; [| discriminate].
      intros H; injection H as <-.
      change (String c (a ++ rest)) with (String c a ++ rest).
      rewrite (starts_with_append_false sub (String c a) rest Hs).
      * change (String c a ++ rest) with (String c (a ++ rest)).
        now rewrite (IH k' eq_refl).
      * apply find_bound in Hk. cbn [String.length]. lia.
Qed.

(** X13.  A block comment is skipped without a change of the line
    counter, whatever newlines it has: when the closing mark behind [c]
    is the first one in the text from the opening mark on, the text
    [{{!c!}}rest] gives the tokens of [rest], lexed with the same line.
    The search of the closing mark starts at the opening mark, so that
    [{{!}}] is a whole comment. *)
Theorem block_comment_skipped :
  (forall (line : nat) (c rest : string),
      find "!}}" ("{{!" ++ c ++ "!}}") = Some (3 + String.length c) ->
      tokenize line ("{{!" ++ c ++ "!}}" ++ rest) = tokenize line rest)
  /\ (forall (line : nat) (rest : string),
        tokenize line ("{{!}}" ++ rest) = tokenize line rest).
Proof.
  split.
  - intros line c rest Hfind.
    apply tokenize_after_step. rewrite tokenize_step_at_open.
    replace ("{{!" ++ c ++ "!}}" ++ rest)
      with (("{{!" ++ c ++ "!}}") ++ rest)
      by (now rewrite !append_assoc).
    rewrite (find_append _ _ rest _ Hfind).
    replace (3 + String.length c + 3)
      with (String.length ("{{!" ++ c ++ "!}}"))
      by (rewrite !length_append; cbn [String.length]; lia).
    now rewrite drop_append.
  - intros line rest. apply tokenize_after_step. reflexivity.
Qed.

(** X14.  A block comment that is not closed is no error: when the loop
    of the lexer comes to an opening mark with no closing mark in the
    rest of the text, [tokenize] returns the tokens read so far and
    drops the rest. *)
Theorem unclosed_block_comment_ends_text (text rest : string)
    (line0 line : nat) (toks : list token) :
  lexer_reaches (text, line0, []) ("{{!" ++ rest, line, toks) ->
  find "!}}" ("{{!" ++ rest) = None ->
  tokenize line0 text = (Ok toks, line).
Proof.
  intros Hreach Hfind.
  destruct (lexer_reaches_loop _ _ Hreach) as [m Hm].
  cbn [fst snd] in Hm.
  apply tokenize_from_loop with (n := m + 1); [| discriminate].
  rewrite Hm. apply tokenize_loop_stop.
  now rewrite tokenize_step_at_open, Hfind.
Qed.

(** ** [parse] ends *)

(** X15.  Every call of [parse] ends, with a mapping or with an
    exception: each iteration of the loop of the lexer consumes a
    character, each parsing method that returns has moved forward in the
    tokens, and the substitution is bounded by the recursion limit. *)
Theorem parse_returns_or_raises (limit : nat) (self : ConfigParser)
    (text : string) :
  (exists m, fst (parse limit self text) = Ok m)
  \/ (exists e, fst (parse limit self text) = Raise e).
Proof.
  pose proof (parse_ends_properly limit self text) as H.
  destruct (fst (parse limit self text)) as [m|e|];
    [left; now exists m | right; now exists e | contradiction].
Qed.

(** ** The parser object from one call to the next *)

Lemma parse_var_declaration_keys (depth : nat) (toks : list token)
    (pos : nat) (vars : dict ConfigValue) (k : string) :
  In k (dict_keys vars) ->
  In k (dict_keys (snd (parse_var_declaration depth toks pos vars))).
Proof.
  intros Hk. unfold parse_var_declaration.
  repeat match goal with
         | |- context [match ?x with _ => _ end] => destruct x
         end;
    cbn [snd]; auto; apply dict_keys_set_in; now right.
Qed.

Lemma parse_loop_keys (steps depth : nat) (toks : list token) (pos : nat)
    (vars : dict ConfigValue) (k : string) :
  In k (dict_keys vars) ->
  In k (dict_keys (snd (parse_loop steps depth toks pos vars))).
Proof.
  revert pos vars.
  induction steps as [|n IH]; intros pos vars Hk; [exact Hk |].
  cbn [parse_loop].
  destruct (nth_error toks pos) as [[x l | [] s l]|]; auto.
  pose proof (parse_var_declaration_keys depth toks pos vars k Hk) as H.
  destruct (parse_var_declaration depth toks pos vars)
    as [[[u|e|] p] vars']; cbn [snd] in *; auto.
Qed.

Lemma convert_variables_keys_in (vars : dict ConfigValue) (k : string) :
  In k (dict_keys vars) -> In k (dict_keys (convert_variables vars)).
Proof.
  unfold convert_variables.
  assert (H : forall acc : dict py_value,
             In k (dict_keys acc) \/ In k (dict_keys vars) ->
             In k (dict_keys
                     (fold_left
                        (fun result nv =>
                           dict_set (fst nv) (convert_value (snd nv)) result)
                        vars acc))).
  { induction vars as [|[k0 v] vars IH]; intros acc Hk; cbn [fold_left].
    - destruct Hk as [Hk | []]. exact Hk.
    - apply IH. cbn [fst snd]. rewrite dict_keys_set_in.
      change (dict_keys ((k0, v) :: vars)) with (k0 :: dict_keys vars) in Hk.
      cbn [In] in Hk. intuition auto. }
  intros Hk. apply H. now right.
Qed.

(** X17.  [parse] never drops a variable of the parser object: every
    name that [self.variables] has before a call is still there after
    it, however the call ends, and is a key of the mapping when the call
    returns one.  Declarations of earlier calls on the same object show
    up in the results of later calls. *)
Theorem parse_keeps_declared_names (limit : nat) (self : ConfigParser)
    (text : string) (k : string) :
  In k (dict_keys (variables self)) ->
  In k (dict_keys (variables (snd (parse limit self text))))
  /\ forall m, fst (parse limit self text) = Ok m -> In k (dict_keys m).
Proof.
  intros Hk. unfold parse.
  destruct (tokenize (current_line self) text) as [[toks|e|] line];
    cbn [fst snd variables]; [| split; [exact Hk | discriminate] ..].
  pose proof (parse_loop_keys (parse_bound toks) (parse_bound toks) toks 0
                (variables self) k Hk) as Hparse.
  unfold parse_tokens.
  destruct (parse_loop (parse_bound toks) (parse_bound toks) toks 0
              (variables self)) as [[[u|e|] p] vars];
    cbn [fst snd variables] in *; [| split; [exact Hparse | discriminate] ..].
  pose proof (process_items_keys (List.length vars) 0 limit vars) as Hkeys.
  unfold process_variable_substitution.
  destruct (process_items (List.length vars) 0 limit vars)
    as [[u'|e|] vars']; cbn [fst snd variables] in *;
    rewrite <- Hkeys in Hparse; (split; [exact Hparse |]);
    try discriminate.
  intros m Hm. injection Hm as <-.
  now apply convert_variables_keys_in.
Qed.

(** X18.  [parse] does not set the line counter back: after a call,
    [self.current_line] is its value before the call plus the newlines
    that the lexer has counted, at most those of the text, so that the
    lines named by a later call on the same object start from there. *)
Theorem parse_keeps_line_counter (limit : nat) (self : ConfigParser)
    (text : string) :
  current_line self <= current_line (snd (parse limit self text))
  /\ current_line (snd (parse limit self text))
     <= current_line self + count_newlines text
  /\ current_line (snd (parse limit self text))
     = snd (tokenize (current_line self) text).
Proof.
  unfold parse.
  destruct (tokenize (current_line self) text) as [r line] eqn:Htok.
  destruct (tokenize_loop_lines _ _ (current_line self) _ _ _ _
              (le_n _) (Forall_nil _) Htok) as [[Hlo Hhi] _].
  destruct r as [toks|e|]; cbn [snd current_line]; auto.
  destruct (parse_tokens toks (variables self)) as [[[u|e|] p] vars];
    cbn [snd current_line]; auto.
  destruct (process_variable_substitution limit vars) as [[u'|e|] vars'];
    cbn [snd current_line]; auto.
Qed.

End Properties.

(** * The properties on explicit inputs, under the decimal reading *)

Lemma later_string_left_unresolved_witness :
  3 <= default_limit
  /\ decimal_pipeline default_limit
       ("var a = " ++ str_lit "$b$" ++ "; var b = " ++ str_lit "$c$"
        ++ "; var c = " ++ str_lit "X" ++ ";")
     = Ok [("a", PyStr "$c$"); ("b", PyStr "X"); ("c", PyStr "X")].
Proof.
  split; [unfold default_limit; lia |].
  apply (later_string_left_unresolved (lib := Decimal.library)).
  unfold default_limit; lia.
Defined.

Lemma reference_resolution_examples_witness :
  2 <= default_limit
  /\ decimal_pipeline default_limit
       ("var a = " ++ str_lit "X" ++ "; var b = " ++ str_lit "$a$" ++ ";")
     = Ok [("a", PyStr "X"); ("b", PyStr "X")]
  /\ decimal_pipeline default_limit "var n = 5.0; var m = $n$;"
     = Ok [("n", PyFloat (py_float "5.0")); ("m", PyFloat (py_float "5.0"))].
Proof.
  split; [unfold default_limit; lia |].
  apply (reference_resolution_examples (lib := Decimal.library)).
  unfold default_limit; lia.
Defined.

Lemma number_literals_witness :
  (1 <= default_limit
   /\ identifier "temp" = true /\ keyword "temp" = false
   /\ sign "-" = true /\ digits "15" = true /\ digits "5" = true
   /\ digits "10" = true)
  /\ decimal_pipeline default_limit "var temp = -15.5;"
     = Ok [("temp", PyFloat (py_float "-15.5"))]
  /\ exists m,
       decimal_pipeline default_limit "var temp = 10;" = Raise (SyntaxError m).
Proof.
  split; [repeat split; unfold default_limit; lia |].
  apply (number_literals (lib := Decimal.library) default_limit
           "temp" "-" "15" "5" "10" "");
    try reflexivity.
  unfold default_limit; lia.
Defined.

(** C4 as the specification states it.  A reference to the undeclared [x] in a
    declaration that a later one overwrites is never resolved: the
    pipeline returns.  An undeclared name that comes after a dotted span
    in the same string gives [SyntaxError], not [NameError]. *)
Lemma undeclared_reference_counterexample :
  decimal_pipeline default_limit "var a = $x$; var a = 1.0;"
  = Ok [("a", PyFloat (py_float "1.0"))]
  /\ decimal_pipeline default_limit ("var s = " ++ str_lit "$a.b$ $x$" ++ ";")
     = Raise (SyntaxError (NestedReference "a.b")).
Proof. split; vm_compute; reflexivity. Qed.

Lemma undeclared_reference_raises_witness :
  (process_items (lib := Decimal.library) 1 0 default_limit
     [("a", NumberValue (py_float "1.0"));
      ("l", ListValue [NumberValue (py_float "2.0"); VarRefValue "x"])]
   = (Ok tt,
      [("a", NumberValue (py_float "1.0"));
       ("l", ListValue [NumberValue (py_float "2.0"); VarRefValue "x"])])
   /\ nth_error
        [("a", NumberValue (lib := Decimal.library) (py_float "1.0"));
         ("l", ListValue [NumberValue (py_float "2.0"); VarRefValue "x"])] 1
      = Some ("l", ListValue [NumberValue (py_float "2.0"); VarRefValue "x"])
   /\ first_failure (lib := Decimal.library)
        [("a", NumberValue (py_float "1.0"));
         ("l", ListValue [NumberValue (py_float "2.0"); VarRefValue "x"])]
        default_limit
        (ListValue [NumberValue (py_float "2.0"); VarRefValue "x"]) (NameError "x"))
  /\ fst (process_variable_substitution (lib := Decimal.library)
            default_limit
            [("a", NumberValue (py_float "1.0"));
             ("l", ListValue [NumberValue (py_float "2.0"); VarRefValue "x"])])
     = Raise (NameError "x").
Proof.
  assert (Hfail :
    first_failure (lib := Decimal.library)
      [("a", NumberValue (py_float "1.0"));
       ("l", ListValue [NumberValue (py_float "2.0"); VarRefValue "x"])]
      default_limit
      (ListValue [NumberValue (py_float "2.0"); VarRefValue "x"]) (NameError "x")).
  { apply (failure_element (lib := Decimal.library) _ 999
             [NumberValue (py_float "2.0")] (VarRefValue "x") []).
    - constructor; [| constructor].
      exists (NumberValue (py_float "2.0")). reflexivity.
    - apply failure_reference_name. split; reflexivity. }
  split; [split; [reflexivity | split; [reflexivity | exact Hfail]] |].
  eapply (proj1 (proj2 (undeclared_reference_raises (lib := Decimal.library)))
            default_limit _ 1 _ "l" _ "x");
    [reflexivity | reflexivity | exact Hfail].
Defined.

(** C5 as the specification states it.  A dotted span that comes after an
    undeclared name in the same string gives [NameError], not
    [SyntaxError]; a dotted span in a declaration that a later one
    overwrites is never looked at: the pipeline returns. *)
Lemma dotted_reference_counterexample :
  decimal_pipeline default_limit ("var s = " ++ str_lit "$x$ $a.b$" ++ ";")
  = Raise (NameError "x")
  /\ decimal_pipeline default_limit
       ("var s = " ++ str_lit "$a.b$" ++ "; var s = " ++ str_lit "ok" ++ ";")
     = Ok [("s", PyStr "ok")].
Proof. split; vm_compute; reflexivity. Qed.

Lemma dotted_reference_raises_witness :
  (lexer_reaches (lib := Decimal.library)
     ("var x = $a.b$;", 1, [])
     ("$" ++ "a" ++ "." ++ "b$;", 1,
      [Tok VAR "var" 1; Tok ID "x" 1; Tok (PUNCT "=") "=" 1])
   /\ identifier "a" = true)
  /\ decimal_pipeline default_limit "var x = $a.b$;"
     = Raise (SyntaxError (UnknownCharacter "." 1)).
Proof.
  assert (Hreach :
    lexer_reaches (lib := Decimal.library)
      ("var x = $a.b$;", 1, [])
      ("$" ++ "a" ++ "." ++ "b$;", 1,
       [Tok VAR "var" 1; Tok ID "x" 1; Tok (PUNCT "=") "=" 1])).
  { do 6 (eapply reaches_step; [reflexivity |]).
    vm_compute. apply reaches_here. }
  split; [split; [exact Hreach | reflexivity] |].
  exact (proj1 (dotted_reference_raises (lib := Decimal.library))
           default_limit "var x = $a.b$;" "a" "b$;" 1 _ Hreach eq_refl).
Defined.

(** C6 as the specification states it: [var l = list(1.0,);] does not
    raise. *)
Lemma trailing_comma_counterexample :
  decimal_pipeline default_limit "var l = list(1.0,);"
  = Ok [("l", PyList [PyFloat (py_float "1.0")])].
Proof. vm_compute; reflexivity. Qed.

Lemma trailing_comma_accepted_witness :
  2 <= default_limit
  /\ decimal_pipeline default_limit "var l = list(1.0,);"
     = Ok [("l", PyList [PyFloat (py_float "1.0")])].
Proof.
  split; [unfold default_limit; lia |].
  apply (proj2 (trailing_comma_accepted (lib := Decimal.library))).
  unfold default_limit; lia.
Defined.

Lemma empty_table_close_unchecked_witness :
  1 <= default_limit
  /\ decimal_pipeline default_limit "var t = table([];;" = Ok [("t", PyDict [])].
Proof.
  split; [unfold default_limit; lia |].
  apply (empty_table_close_unchecked (lib := Decimal.library)).
  unfold default_limit; lia.
Defined.

Lemma string_token_accepted_as_punctuation_witness :
  (Forall2 (restring (lib := Decimal.library))
     [Tok VAR "var" 1; Tok ID "x" 1; Tok (PUNCT "=") "=" 1;
      NumberTok (py_float "1.0") 1; Tok (PUNCT ";") ";" 1]
     [Tok VAR "var" 1; Tok ID "x" 1; Tok STRING "=" 1;
      NumberTok (py_float "1.0") 1; Tok STRING ";" 1]
   /\ parse_tokens (lib := Decimal.library)
        [Tok VAR "var" 1; Tok ID "x" 1; Tok (PUNCT "=") "=" 1;
         NumberTok (py_float "1.0") 1; Tok (PUNCT ";") ";" 1] []
      = (Ok tt, 5, [("x", NumberValue (py_float "1.0"))]))
  /\ parse_tokens (lib := Decimal.library)
       [Tok VAR "var" 1; Tok ID "x" 1; Tok STRING "=" 1;
        NumberTok (py_float "1.0") 1; Tok STRING ";" 1] []
     = (Ok tt, 5, [("x", NumberValue (py_float "1.0"))]).
Proof.
  assert (Hre :
    Forall2 (restring (lib := Decimal.library))
      [Tok VAR "var" 1; Tok ID "x" 1; Tok (PUNCT "=") "=" 1;
       NumberTok (py_float "1.0") 1; Tok (PUNCT ";") ";" 1]
      [Tok VAR "var" 1; Tok ID "x" 1; Tok STRING "=" 1;
       NumberTok (py_float "1.0") 1; Tok STRING ";" 1]).
  { repeat constructor. }
  split; [split; [exact Hre | reflexivity] |].
  exact (proj1 (string_token_accepted_as_punctuation (lib := Decimal.library))
           _ _ [] _ 5 Hre eq_refl).
Defined.

(** C10 as the specification states it: the second call on one object
    does not return what a new object returns. *)
Lemma parser_object_keeps_variables_counterexample :
  fst (parse (lib := Decimal.library) default_limit
         (snd (parse default_limit new_parser "var a = 1.0;"))
         "var b = 2.0;")
  = Ok [("a", PyFloat (py_float "1.0")); ("b", PyFloat (py_float "2.0"))]
  /\ fst (parse (lib := Decimal.library) default_limit new_parser
            "var b = 2.0;")
     = Ok [("b", PyFloat (py_float "2.0"))]
  /\ fst (parse (lib := Decimal.library) default_limit
            (snd (parse default_limit new_parser "var a = 1.0;"))
            "var b = 2.0;")
     <> fst (parse default_limit new_parser "var b = 2.0;").
Proof.
  split; [| split]; [vm_compute; reflexivity .. |].
  vm_compute. discriminate.
Qed.

Lemma parser_object_keeps_variables_witness :
  (variables
     (snd (parse (lib := Decimal.library) default_limit new_parser
             "x = 1.0; y")) = []
   /\ current_line
        (snd (parse (lib := Decimal.library) default_limit new_parser
                "x = 1.0; y")) = 1)
  /\ fst (parse (lib := Decimal.library) default_limit
            (snd (parse default_limit new_parser "x = 1.0; y"))
            "var b = 2.0;")
     = decimal_pipeline default_limit "var b = 2.0;".
Proof.
  split; [split; reflexivity |].
  apply (proj1 (parser_object_keeps_variables (lib := Decimal.library)));
    reflexivity.
Defined.

(** * The further properties on explicit inputs *)

Lemma tokenize_raises_witness :
  tokenize (lib := Decimal.library) 3 "var x = #;"
  = (Raise (SyntaxError (UnknownCharacter "#" 3)), 3)
  /\ (SyntaxError (lib := Decimal.library) (UnknownCharacter "#" 3)
      = SyntaxError (UnterminatedString 3)
      \/ exists c,
           SyntaxError (lib := Decimal.library) (UnknownCharacter "#" 3)
           = SyntaxError (UnknownCharacter c 3)
           /\ isspace c = false /\ is_alpha c = false
           /\ contains c "()[],=$;" = false).
Proof.
  split; [reflexivity |].
  apply (tokenize_raises (lib := Decimal.library) 3 "var x = #;").
  reflexivity.
Defined.

Lemma tokenize_well_formed_witness :
  tokenize (lib := Decimal.library) 1 ("var x = list(1.0, " ++ str_lit "a" ++ ");")
  = (Ok [Tok VAR "var" 1; Tok ID "x" 1; Tok (PUNCT "=") "=" 1;
         Tok LIST "list" 1; Tok (PUNCT "(") "(" 1;
         NumberTok (py_float "1.0") 1; Tok (PUNCT ",") "," 1;
         Tok STRING "a" 1; Tok (PUNCT ")") ")" 1; Tok (PUNCT ";") ";" 1], 1)
  /\ forallb (well_formed (lib := Decimal.library))
       [Tok VAR "var" 1; Tok ID "x" 1; Tok (PUNCT "=") "=" 1;
        Tok LIST "list" 1; Tok (PUNCT "(") "(" 1;
        NumberTok (py_float "1.0") 1; Tok (PUNCT ",") "," 1;
        Tok STRING "a" 1; Tok (PUNCT ")") ")" 1; Tok (PUNCT ";") ";" 1]
     = true.
Proof.
  split; [reflexivity |].
  apply (tokenize_well_formed (lib := Decimal.library) 1
           ("var x = list(1.0, " ++ str_lit "a" ++ ");") _ 1).
  reflexivity.
Defined.

Lemma point_token_is_string_literal_witness :
  (tokenize (lib := Decimal.library) 1 ("$a" ++ str_lit "." ++ "b$")
   = (Ok [Tok (PUNCT "$") "$" 1; Tok ID "a" 1; Tok STRING "." 1;
          Tok ID "b" 1; Tok (PUNCT "$") "$" 1], 1)
   /\ value_at (lib := Decimal.library)
        [Tok (PUNCT "$") "$" 1; Tok ID "a" 1; Tok STRING "." 1;
         Tok ID "b" 1; Tok (PUNCT "$") "$" 1] 2 "." = true)
  /\ exists l,
       nth_error
         [Tok (lib := Decimal.library) (PUNCT "$") "$" 1; Tok ID "a" 1;
          Tok STRING "." 1; Tok ID "b" 1; Tok (PUNCT "$") "$" 1] 2
       = Some (Tok STRING "." l).
Proof.
  split; [split; reflexivity |].
  apply (point_token_is_string_literal (lib := Decimal.library) 1
           ("$a" ++ str_lit "." ++ "b$") _ 1 2);
    reflexivity.
Defined.

Lemma tokenize_lines_witness :
  tokenize (lib := Decimal.library) 1
    ("var a" ++ nl ++ "= " ++ str_lit ("x" ++ nl ++ "y") ++ nl ++ ";")
  = (Ok [Tok VAR "var" 1; Tok ID "a" 1; Tok (PUNCT "=") "=" 2;
         Tok STRING ("x" ++ nl ++ "y") 2; Tok (PUNCT ";") ";" 3], 3)
  /\ (1 <= 3
         <= 1 + count_newlines
                  ("var a" ++ nl ++ "= " ++ str_lit ("x" ++ nl ++ "y")
                   ++ nl ++ ";")
      /\ forall toks : list (@token Decimal.library),
           Ok (lib := Decimal.library) [Tok VAR "var" 1; Tok ID "a" 1;
               Tok (PUNCT "=") "=" 2; Tok STRING ("x" ++ nl ++ "y") 2;
               Tok (PUNCT ";") ";" 3]
           = Ok toks ->
           Forall (fun t => 1 <= tok_line t <= 3) toks).
Proof.
  split; [reflexivity |].
  apply (tokenize_lines (lib := Decimal.library) 1
           ("var a" ++ nl ++ "= " ++ str_lit ("x" ++ nl ++ "y") ++ nl ++ ";")).
  reflexivity.
Defined.

Lemma text_without_var_is_empty_witness :
  (tokenize (lib := Decimal.library) 1 "x = 1.0; list(y)"
   = (Ok [Tok ID "x" 1; Tok (PUNCT "=") "=" 1; NumberTok (py_float "1.0") 1;
          Tok (PUNCT ";") ";" 1; Tok LIST "list" 1; Tok (PUNCT "(") "(" 1;
          Tok ID "y" 1; Tok (PUNCT ")") ")" 1], 1)
   /\ forallb (fun t => negb (is_var (lib := Decimal.library) t))
        [Tok ID "x" 1; Tok (PUNCT "=") "=" 1; NumberTok (py_float "1.0") 1;
         Tok (PUNCT ";") ";" 1; Tok LIST "list" 1; Tok (PUNCT "(") "(" 1;
         Tok ID "y" 1; Tok (PUNCT ")") ")" 1] = true)
  /\ decimal_pipeline default_limit "x = 1.0; list(y)" = Ok [].
Proof.
  split; [split; reflexivity |].
  eapply (text_without_var_is_empty (lib := Decimal.library) default_limit
           "x = 1.0; list(y)" _ 1);
    reflexivity.
Defined.

Lemma reserved_word_as_name_witness :
  (keyword "list" = true /\ ends_run is_word " = 1.0;")
  /\ exists m,
       decimal_pipeline default_limit ("var " ++ "list" ++ " = 1.0;")
       = Raise (SyntaxError m).
Proof.
  split; [split; reflexivity |].
  apply (reserved_word_as_name (lib := Decimal.library) default_limit
           "list" " = 1.0;");
    reflexivity.
Defined.

Lemma substitution_stage_raises_witness :
  (tokenize (lib := Decimal.library) 1 "var a = $x$;"
   = (Ok [Tok VAR "var" 1; Tok ID "a" 1; Tok (PUNCT "=") "=" 1;
          Tok (PUNCT "$") "$" 1; Tok ID "x" 1; Tok (PUNCT "$") "$" 1;
          Tok (PUNCT ";") ";" 1], 1)
   /\ parse_tokens (lib := Decimal.library)
        [Tok VAR "var" 1; Tok ID "a" 1; Tok (PUNCT "=") "=" 1;
         Tok (PUNCT "$") "$" 1; Tok ID "x" 1; Tok (PUNCT "$") "$" 1;
         Tok (PUNCT ";") ";" 1] []
      = (Ok tt, 7, [("a", VarRefValue "x")]))
  /\ raises_only
       (resolution_error (lib := Decimal.library) [("a", VarRefValue "x")])
       (decimal_pipeline default_limit "var a = $x$;").
Proof.
  split; [split; reflexivity |].
  eapply (substitution_stage_raises (lib := Decimal.library) default_limit
           "var a = $x$;" _ 1 7 _ tt);
    reflexivity.
Defined.

Lemma returned_keys_witness :
  (tokenize (lib := Decimal.library) 1 "var b = 1.0; var a = $b$; var b = 2.0;"
   = (Ok [Tok VAR "var" 1; Tok ID "b" 1; Tok (PUNCT "=") "=" 1;
          NumberTok (py_float "1.0") 1; Tok (PUNCT ";") ";" 1;
          Tok VAR "var" 1; Tok ID "a" 1; Tok (PUNCT "=") "=" 1;
          Tok (PUNCT "$") "$" 1; Tok ID "b" 1; Tok (PUNCT "$") "$" 1;
          Tok (PUNCT ";") ";" 1;
          Tok VAR "var" 1; Tok ID "b" 1; Tok (PUNCT "=") "=" 1;
          NumberTok (py_float "2.0") 1; Tok (PUNCT ";") ";" 1], 1)
   /\ parse_tokens (lib := Decimal.library)
        [Tok VAR "var" 1; Tok ID "b" 1; Tok (PUNCT "=") "=" 1;
         NumberTok (py_float "1.0") 1; Tok (PUNCT ";") ";" 1;
         Tok VAR "var" 1; Tok ID "a" 1; Tok (PUNCT "=") "=" 1;
         Tok (PUNCT "$") "$" 1; Tok ID "b" 1; Tok (PUNCT "$") "$" 1;
         Tok (PUNCT ";") ";" 1;
         Tok VAR "var" 1; Tok ID "b" 1; Tok (PUNCT "=") "=" 1;
         NumberTok (py_float "2.0") 1; Tok (PUNCT ";") ";" 1] []
      = (Ok tt, 17,
         [("b", NumberValue (py_float "2.0")); ("a", VarRefValue "b")])
   /\ decimal_pipeline default_limit "var b = 1.0; var a = $b$; var b = 2.0;"
      = Ok [("b", PyFloat (py_float "2.0")); ("a", PyFloat (py_float "2.0"))])
  /\ dict_keys [("b", PyFloat (py_float (Library := Decimal.library) "2.0"));
                ("a", PyFloat (py_float "2.0"))]
     = dict_keys [("b", NumberValue (py_float (Library := Decimal.library) "2.0"));
                  ("a", VarRefValue "b")]
  /\ NoDup (dict_keys [("b", PyFloat (py_float (Library := Decimal.library) "2.0"));
                       ("a", PyFloat (py_float "2.0"))]).
Proof.
  split; [split; [| split]; vm_compute; reflexivity |].
  eapply (returned_keys (lib := Decimal.library) default_limit
           "var b = 1.0; var a = $b$; var b = 2.0;" _ 1 17 _ tt);
    vm_compute; reflexivity.
Defined.

Lemma self_reference_raises_witness :
  (identifier "loop" = true /\ keyword "loop" = false)
  /\ decimal_pipeline default_limit ("var " ++ "loop" ++ " = $" ++ "loop" ++ "$;")
     = Raise RecursionError.
Proof.
  split; [split; reflexivity |].
  apply (self_reference_raises (lib := Decimal.library) default_limit "loop");
    reflexivity.
Defined.

Lemma index_error_needs_final_bracket_witness :
  fst (parse (lib := Decimal.library) default_limit new_parser
         "var t = table([]")
  = Raise IndexError
  /\ exists toks line,
       tokenize (lib := Decimal.library)
         (current_line (lib := Decimal.library) new_parser)
         "var t = table([]"
       = (Ok toks, line)
       /\ last_value_is toks "]" = true.
Proof.
  split; [vm_compute; reflexivity |].
  apply (index_error_needs_final_bracket (lib := Decimal.library)
           default_limit new_parser "var t = table([]").
  vm_compute; reflexivity.
Defined.

Lemma string_literal_round_trip_witness :
  (1 <= default_limit
   /\ identifier "s" = true /\ keyword "s" = false
   /\ contains dquote ("a :: $ " ++ nl ++ "{{! b;") = false
   /\ findall ("a :: $ " ++ nl ++ "{{! b;") = [])
  /\ decimal_pipeline default_limit
       ("var " ++ "s" ++ " = " ++ str_lit ("a :: $ " ++ nl ++ "{{! b;") ++ ";")
     = Ok [("s", PyStr ("a :: $ " ++ nl ++ "{{! b;"))].
Proof.
  split;
    [split; [unfold default_limit; lia | repeat split] |].
  apply (string_literal_round_trip (lib := Decimal.library) default_limit
           "s" ("a :: $ " ++ nl ++ "{{! b;"));
    try reflexivity.
  unfold default_limit; lia.
Defined.

Lemma line_comment_skipped_witness :
  contains newline " a note" = false
  /\ tokenize (lib := Decimal.library) 1
       ("::" ++ " a note" ++ nl ++ "var x = 1.0;")
     = tokenize 2 "var x = 1.0;".
Proof.
  split; [reflexivity |].
  apply (line_comment_skipped (lib := Decimal.library) 1 " a note"
           "var x = 1.0;").
  reflexivity.
Defined.

Lemma block_comment_skipped_witness :
  find "!}}" ("{{!" ++ (" two" ++ nl ++ "lines ") ++ "!}}")
  = Some (3 + String.length (" two" ++ nl ++ "lines "))
  /\ tokenize (lib := Decimal.library) 1
       ("{{!" ++ (" two" ++ nl ++ "lines ") ++ "!}}" ++ "var x = 1.0;")
     = tokenize 1 "var x = 1.0;".
Proof.
  split; [reflexivity |].
  apply (proj1 (block_comment_skipped (lib := Decimal.library)) 1
           (" two" ++ nl ++ "lines ") "var x = 1.0;").
  reflexivity.
Defined.

Lemma unclosed_block_comment_ends_text_witness :
  (lexer_reaches (lib := Decimal.library)
     ("x {{! var y = 1.0;", 1, [])
     ("{{!" ++ " var y = 1.0;", 1, [Tok ID "x" 1])
   /\ find "!}}" ("{{!" ++ " var y = 1.0;") = None)
  /\ tokenize (lib := Decimal.library) 1 "x {{! var y = 1.0;"
     = (Ok [Tok ID "x" 1], 1).
Proof.
  assert (Hreach :
    lexer_reaches (lib := Decimal.library)
      ("x {{! var y = 1.0;", 1, [])
      ("{{!" ++ " var y = 1.0;", 1, [Tok ID "x" 1])).
  { do 2 (eapply reaches_step; [reflexivity |]).
    vm_compute. apply reaches_here. }
  split; [split; [exact Hreach | reflexivity] |].
  exact (unclosed_block_comment_ends_text (lib := Decimal.library)
           "x {{! var y = 1.0;" " var y = 1.0;" 1 1 _ Hreach eq_refl).
Defined.

Lemma no_reference_value_returned_witness :
  decimal_pipeline default_limit "var a = list(1.0); var b = table([k = $a$]);"
  = Ok [("a", PyList [PyFloat (py_float "1.0")]);
        ("b", PyDict [("k", PyList [PyFloat (py_float "1.0")])])]
  /\ forallb (fun kv => match kv with (_, w) => plain w end)
       [("a", PyList [PyFloat (py_float (Library := Decimal.library) "1.0")]);
        ("b", PyDict [("k", PyList [PyFloat (py_float "1.0")])])]
     = true.
Proof.
  split; [vm_compute; reflexivity |].
  apply (no_reference_value_returned (lib := Decimal.library) default_limit
           "var a = list(1.0); var b = table([k = $a$]);").
  vm_compute; reflexivity.
Defined.

Lemma parse_keeps_declared_names_witness :
  In "a"
    (dict_keys
       (variables
          (snd (parse (lib := Decimal.library) default_limit new_parser
                  "var a = 1.0;"))))
  /\ (In "a"
        (dict_keys
           (variables
              (snd (parse (lib := Decimal.library) default_limit
                      (snd (parse default_limit new_parser "var a = 1.0;"))
                      "var b = $c$;"))))
      /\ forall m,
           fst (parse (lib := Decimal.library) default_limit
                  (snd (parse default_limit new_parser "var a = 1.0;"))
                  "var b = $c$;")
           = Ok m ->
           In "a" (dict_keys m)).
Proof.
  split; [vm_compute; now left |].
  apply (parse_keeps_declared_names (lib := Decimal.library) default_limit
           (snd (parse default_limit new_parser "var a = 1.0;"))
           "var b = $c$;" "a").
  vm_compute; now left.
Defined.
